(** * The live simulation cockpit (SimulationPage.jsx, DecisionModal.jsx)

    A shallow embedding of the cockpit page of the SOC simulation platform:
    the statistics derived from the polled log list, the threat distribution
    chart data, the accuracy read-out, and the event handlers of the page and
    of its decision form, as a transition system over the React state and the
    HTTP calls in flight; and of the components the page renders and calls:
    the risk gauge (RiskMeter.jsx), the alert feed (AlertPanel.jsx), the log
    table (LogTable.jsx), the notifications (Toast.jsx), the status bar and
    the stop button. *)

From Stdlib Require Import List String Ascii Bool Arith ZArith NArith Lia.
From Stdlib Require Import Sorting.Sorted Sorting.Permutation.
From Stdlib Require Import Floats.
From Stdlib Require Import DecimalString DecimalNat.
Import ListNotations.

Local Open Scope string_scope.
Local Open Scope Z_scope.
Local Open Scope list_scope.

(** * Part I: the model *)

(** ** JavaScript values and built-ins the page relies on *)

Module Js.

(** Truthiness of an optional boolean and of an optional string ([None]
    stands for [undefined]/[null]; the empty string is falsy). *)

Definition truthy_bool (b : option bool) : bool :=
  match b with Some true => true | _ => false end.

Definition truthy_string (s : option string) : bool :=
  match s with
  | Some s => negb (s =? "")%string
  | None => false
  end.

(** [x || d] on an optional string. *)
Definition or_default (x : option string) (d : string) : string :=
  match x with
  | Some s => if (s =? "")%string then d else s
  | None => d
  end.

(** [x === s] for an optional string field and a string literal. *)
Definition strict_eq (x : option string) (s : string) : bool :=
  match x with
  | Some t => (t =? s)%string
  | None => false
  end.

(** [Math.round] is only ever applied to a sum of products of integers, on
    which it is the identity. *)
Definition Math_round (x : Z) : Z := x.

Definition Math_min (x y : Z) : Z := Z.min x y.

(** *** Plain objects used as counters

    The own properties of an object literal with string keys and integer
    values, in creation order.  The model has no prototype chain: a key
    reads as absent unless it is an own property.  For the names below,
    which every object literal inherits from [Object.prototype], JavaScript
    reads the inherited member instead, so tables keyed by one of them are
    outside the model; the properties of such tables say so. *)

Definition obj := list (string * Z).

Definition inherited (k : string) : bool :=
  existsb (fun x => (x =? k)%string)
    ["constructor"; "hasOwnProperty"; "isPrototypeOf"; "propertyIsEnumerable";
     "toLocaleString"; "toString"; "valueOf"; "__proto__";
     "__defineGetter__"; "__defineSetter__"; "__lookupGetter__";
     "__lookupSetter__"].

(** [acc[k] = (acc[k] || 0) + 1]: an existing property keeps its place. *)
Fixpoint bump (k : string) (acc : obj) : obj :=
  match acc with
  | [] => [(k, 1)]
  | (k', v) :: rest =>
      if (k' =? k)%string then (k', (if v =? 0 then 0 else v) + 1) :: rest
      else (k', v) :: bump k rest
  end.

(** A property key is an array index when it is the canonical decimal
    numeral of an integer below 2^32 - 1. *)

Definition digit (c : ascii) : option N :=
  let n := N_of_ascii c in
  if ((48 <=? n) && (n <=? 57))%N then Some (n - 48)%N else None.

Fixpoint digits_value (s : string) (acc : N) : option N :=
  match s with
  | EmptyString => Some acc
  | String c r =>
      match digit c with
      | Some d => digits_value r (10 * acc + d)%N
      | None => None
      end
  end.

Definition array_index (s : string) : option N :=
  match s with
  | EmptyString => None
  | String c r =>
      if (c =? "0")%char && negb (r =? "")%string then None
      else match digits_value s 0 with
           | Some n => if (n <? 4294967295)%N then Some n else None
           | None => None
           end
  end.

(** Own keys are enumerated with the array indices first, in ascending
    numeric order, then the other keys in creation order. *)

Fixpoint insert_index (e : N * (string * Z)) (l : list (N * (string * Z)))
  : list (N * (string * Z)) :=
  match l with
  | [] => [e]
  | e' :: rest =>
      if (fst e <=? fst e')%N then e :: e' :: rest else e' :: insert_index e rest
  end.

Fixpoint index_entries (o : obj) : list (N * (string * Z)) :=
  match o with
  | [] => []
  | kv :: rest =>
      match array_index (fst kv) with
      | Some n => insert_index (n, kv) (index_entries rest)
      | None => index_entries rest
      end
  end.

Definition is_index (k : string) : bool :=
  match array_index k with Some _ => true | None => false end.

Definition Object_entries (o : obj) : list (string * Z) :=
  map snd (index_entries o) ++ filter (fun kv => negb (is_index (fst kv))) o.

(** [s.replace(/_/g, ' ')]. *)
Fixpoint replace_underscores (s : string) : string :=
  match s with
  | EmptyString => EmptyString
  | String c r =>
      String (if (c =? "_")%char then " "%char else c) (replace_underscores r)
  end.

(** [Array.prototype.sort] with a comparator: [a] goes before [b] when
    [cmp a b < 0], after it when [cmp a b > 0], and elements that compare
    equal keep their order (the sort is stable).  Insertion from the right
    computes that order. *)

Section Sort.
Context {A : Type} (cmp : A -> A -> Z).

Fixpoint insert (x : A) (l : list A) : list A :=
  match l with
  | [] => [x]
  | y :: rest => if cmp x y <=? 0 then x :: y :: rest else y :: insert x rest
  end.

Fixpoint sort (l : list A) : list A :=
  match l with
  | [] => []
  | x :: rest => insert x (sort rest)
  end.

End Sort.

(** [l.slice(0, n)]. *)
Definition slice0 {A : Type} (n : nat) (l : list A) : list A := firstn n l.

(** *** Numbers and [toFixed(0)]

    A counter is a double holding a natural number; division and
    multiplication are those of IEEE 754 binary64. *)

Definition Number (n : nat) : float :=
  SF2Prim (binary_normalize prec emax (Z.of_nat n) 0 false).

(** The text [x.toFixed(0)] produces: the decimal numeral of the integer
    nearest to [x] (the larger one on a tie, on the absolute value), with
    the sign of [x]; "NaN"; "Infinity"; or, from 10^21 on, the exponent
    notation of [Number::toString]. *)
Inductive numeral :=
| Whole (negative : bool) (n : Z)
| NaN
| Infinity (negative : bool)
| Exponent (x : float).

Definition round_half_up (m : positive) (e : Z) : Z :=
  if 0 <=? e then Z.pos m * 2 ^ e
  else (Z.pos m + 2 ^ (- e - 1)) / 2 ^ (- e).

Definition toFixed0 (x : float) : numeral :=
  match Prim2SF x with
  | S754_zero _ => Whole false 0
  | S754_nan => NaN
  | S754_infinity s => Infinity s
  | S754_finite s m e =>
      if (0 <=? e) && (10 ^ 21 <=? Z.pos m * 2 ^ e) then Exponent x
      else Whole s (round_half_up m e)
  end.

End Js.

(** ** Log entries

    The fields of a log object that the page reads.  A field that may be
    missing on the wire is an [option]. *)

Record Log := mkLog {
  log_id : Z;
  event_type : string;
  raw_payload : string;
  source_ip : string;
  dest_port : Z;
  protocol : string;
  severity : option string;
  is_anomaly : option bool;
  threat_label : option string
}.

(** The reply of POST /analyze-threat. *)
Record Analysis := mkAnalysis {
  a_threat_label : string;
  a_is_anomaly : bool;
  a_anomaly_score : float;
  a_confidence : option float;
  a_recommendation : string
}.

(** ** DecisionModal.jsx *)

Module DecisionModal.

Definition THREAT_LABELS : list string :=
  ["brute_force"; "sql_injection"; "ransomware"; "ddos";
   "lateral_movement"; "data_exfil"; "phishing"; "zero_day"; "benign"].

Definition ACTIONS : list string :=
  ["escalate"; "investigate"; "dismiss"; "block_ip"].

(** The component's own state ([useState]). *)
Record state := mkState {
  label : string;
  action : string;
  notes : string;
  elapsed : nat
}.

(** The initial state of a freshly mounted form for [log]. *)
Definition mount (log : Log) : state :=
  {| label := Js.or_default (threat_label log) "brute_force";
     action := "investigate";
     notes := "";
     elapsed := 0 |}.

(** The one-second interval set up on mount: [setElapsed(e => e + 1)]. *)
Definition tick (m : state) : state :=
  {| label := label m; action := action m; notes := notes m;
     elapsed := elapsed m + 1 |}.

Definition setLabel (v : string) (m : state) : state :=
  {| label := v; action := action m; notes := notes m; elapsed := elapsed m |}.

Definition setAction (v : string) (m : state) : state :=
  {| label := label m; action := v; notes := notes m; elapsed := elapsed m |}.

Definition setNotes (v : string) (m : state) : state :=
  {| label := label m; action := action m; notes := v; elapsed := elapsed m |}.

(** The argument of [onSubmit]. *)
Record decision := mkDecision {
  d_label : string;
  d_action : string;
  d_notes : string;
  timeTaken : nat
}.

Definition submit_args (m : state) : decision :=
  {| d_label := label m; d_action := action m; d_notes := notes m;
     timeTaken := elapsed m |}.

End DecisionModal.

(** ** SimulationPage.jsx *)

Module SimulationPage.

(** *** Stats derived from logs *)

Definition count_if (p : Log -> bool) (logs : list Log) : Z :=
  Z.of_nat (List.length (filter p logs)).

Record Stats := mkStats {
  total : Z;
  anomalies : Z;
  critical : Z;
  high : Z
}.

Definition stats (logs : list Log) : Stats :=
  {| total := Z.of_nat (List.length logs);
     anomalies := count_if (fun l => Js.truthy_bool (is_anomaly l)) logs;
     critical := count_if (fun l => Js.strict_eq (severity l) "critical") logs;
     high := count_if (fun l => Js.strict_eq (severity l) "high") logs |}.

Definition risk_of_counts (crit hi anom : Z) : Z :=
  Js.Math_min 100 (Js.Math_round ((crit * 10) + (hi * 5) + (anom * 2))).

Definition riskScore (logs : list Log) : Z :=
  let s := stats logs in
  risk_of_counts (critical s) (high s) (anomalies s).

(** *** Threat distribution for the mini bar chart *)

Definition THREAT_COLORS (k : string) : option string :=
  if (k =? "brute_force")%string then Some "#f97316"
  else if (k =? "sql_injection")%string then Some "#eab308"
  else if (k =? "ransomware")%string then Some "#ef4444"
  else if (k =? "ddos")%string then Some "#ef4444"
  else if (k =? "lateral_movement")%string then Some "#a855f7"
  else if (k =? "data_exfil")%string then Some "#3b82f6"
  else if (k =? "phishing")%string then Some "#22c55e"
  else if (k =? "zero_day")%string then Some "#ff0040"
  else if (k =? "benign")%string then Some "#6b7280"
  else None.

(** One bar of the chart. *)
Record Bar := mkBar {
  name : string;
  count : Z;
  color : string
}.

(** The reducer: [if (l.threat_label && l.threat_label !== 'benign')]. *)
Definition tally (acc : Js.obj) (l : Log) : Js.obj :=
  match threat_label l with
  | Some k =>
      if Js.truthy_string (Some k) && negb (Js.strict_eq (Some k) "benign")
      then Js.bump k acc else acc
  | None => acc
  end.

Definition to_bar (kv : string * Z) : Bar :=
  {| name := Js.replace_underscores (fst kv);
     count := snd kv;
     color := Js.or_default (THREAT_COLORS (fst kv)) "#6b7280" |}.

Definition by_count_desc (a b : Bar) : Z := count b - count a.

Definition threatDist (logs : list Log) : list Bar :=
  Js.slice0 6
    (Js.sort by_count_desc
       (map to_bar (Js.Object_entries (fold_left tally logs [])))).

(** *** Accuracy read-out *)

Inductive accuracy_text :=
| Dash
| Fixed (n : Js.numeral).

Definition accuracy (decisionsCount correctCount : nat) : accuracy_text :=
  if (0 <? decisionsCount)%nat
  then Fixed (Js.toFixed0 ((Js.Number correctCount / Js.Number decisionsCount) * 100)%float)
  else Dash.

(** *** Requests, notifications *)

(** Body of POST /analyze-threat (the simulation id, the constant route
    parameter, is left out of both bodies). *)
Record AnalyzeThreat := mkAnalyzeThreat {
  at_log_id : Z;
  at_event_type : string;
  at_raw_payload : string;
  at_source_ip : string;
  at_dest_port : Z;
  at_protocol : string;
  at_severity : string
}.

(** Body of POST /submit-decision. *)
Record SubmitDecision := mkSubmitDecision {
  sd_log_id : Z;
  analyst_label : string;
  correct_label : string;
  time_taken_sec : nat;
  sd_notes : string
}.

Inductive Toast :=
| AnalysisFailed
| CorrectClassification (timeTaken : nat)
| Incorrect (actual : option string)
| SubmitFailed.

(** *** The page

    The React state of the page, the state of the decision form while it is
    mounted, the HTTP calls awaiting their reply, and the notifications
    shown so far.  [autoScroll], [activeTab] and [stopping] only drive the
    view and the stop button and are left out. *)

Record state := mkState {
  logs : list Log;
  selectedLog : option Log;
  analysis : option Analysis;
  analysing : bool;
  showModal : bool;
  elapsed : nat;
  decisionsCount : nat;
  correctCount : nat;
  paused : bool;
  modal : option DecisionModal.state;
  fetching : nat;
  analyzing : list AnalyzeThreat;
  submitting : list (SubmitDecision * Log);
  toasts : list Toast
}.

Definition set_logs v s :=
  mkState v (selectedLog s) (analysis s) (analysing s) (showModal s) (elapsed s)
    (decisionsCount s) (correctCount s) (paused s) (modal s) (fetching s)
    (analyzing s) (submitting s) (toasts s).
Definition set_selectedLog v s :=
  mkState (logs s) v (analysis s) (analysing s) (showModal s) (elapsed s)
    (decisionsCount s) (correctCount s) (paused s) (modal s) (fetching s)
    (analyzing s) (submitting s) (toasts s).
Definition set_analysis v s :=
  mkState (logs s) (selectedLog s) v (analysing s) (showModal s) (elapsed s)
    (decisionsCount s) (correctCount s) (paused s) (modal s) (fetching s)
    (analyzing s) (submitting s) (toasts s).
Definition set_analysing v s :=
  mkState (logs s) (selectedLog s) (analysis s) v (showModal s) (elapsed s)
    (decisionsCount s) (correctCount s) (paused s) (modal s) (fetching s)
    (analyzing s) (submitting s) (toasts s).
Definition set_showModal v s :=
  mkState (logs s) (selectedLog s) (analysis s) (analysing s) v (elapsed s)
    (decisionsCount s) (correctCount s) (paused s) (modal s) (fetching s)
    (analyzing s) (submitting s) (toasts s).
Definition set_elapsed v s :=
  mkState (logs s) (selectedLog s) (analysis s) (analysing s) (showModal s) v
    (decisionsCount s) (correctCount s) (paused s) (modal s) (fetching s)
    (analyzing s) (submitting s) (toasts s).
Definition set_decisionsCount v s :=
  mkState (logs s) (selectedLog s) (analysis s) (analysing s) (showModal s) (elapsed s)
    v (correctCount s) (paused s) (modal s) (fetching s)
    (analyzing s) (submitting s) (toasts s).
Definition set_correctCount v s :=
  mkState (logs s) (selectedLog s) (analysis s) (analysing s) (showModal s) (elapsed s)
    (decisionsCount s) v (paused s) (modal s) (fetching s)
    (analyzing s) (submitting s) (toasts s).
Definition set_paused v s :=
  mkState (logs s) (selectedLog s) (analysis s) (analysing s) (showModal s) (elapsed s)
    (decisionsCount s) (correctCount s) v (modal s) (fetching s)
    (analyzing s) (submitting s) (toasts s).
Definition set_modal v s :=
  mkState (logs s) (selectedLog s) (analysis s) (analysing s) (showModal s) (elapsed s)
    (decisionsCount s) (correctCount s) (paused s) v (fetching s)
    (analyzing s) (submitting s) (toasts s).
Definition set_fetching v s :=
  mkState (logs s) (selectedLog s) (analysis s) (analysing s) (showModal s) (elapsed s)
    (decisionsCount s) (correctCount s) (paused s) (modal s) v
    (analyzing s) (submitting s) (toasts s).
Definition set_analyzing v s :=
  mkState (logs s) (selectedLog s) (analysis s) (analysing s) (showModal s) (elapsed s)
    (decisionsCount s) (correctCount s) (paused s) (modal s) (fetching s)
    v (submitting s) (toasts s).
Definition set_submitting v s :=
  mkState (logs s) (selectedLog s) (analysis s) (analysing s) (showModal s) (elapsed s)
    (decisionsCount s) (correctCount s) (paused s) (modal s) (fetching s)
    (analyzing s) v (toasts s).
Definition toast (t : Toast) s :=
  mkState (logs s) (selectedLog s) (analysis s) (analysing s) (showModal s) (elapsed s)
    (decisionsCount s) (correctCount s) (paused s) (modal s) (fetching s)
    (analyzing s) (submitting s) (toasts s ++ [t]).

(** Rendering: [{showModal && selectedLog && <DecisionModal log={selectedLog} .../>}].
    The form is mounted, with fresh state, when the condition becomes true,
    keeps its state while it stays true, and is unmounted when it fails. *)
Definition render (s : state) : state :=
  match showModal s, selectedLog s with
  | true, Some l =>
      match modal s with
      | Some _ => s
      | None => set_modal (Some (DecisionModal.mount l)) s
      end
  | _, _ => set_modal None s
  end.

(** The page as first rendered: the mount effect has called [fetchLogs]. *)
Definition init : state :=
  {| logs := []; selectedLog := None; analysis := None; analysing := false;
     showModal := false; elapsed := 0; decisionsCount := 0; correctCount := 0;
     paused := false; modal := None; fetching := 1; analyzing := [];
     submitting := []; toasts := [] |}.

(** *** Fetch logs *)

(** [fetchLogs] up to its [await]: nothing when paused, else one more GET. *)
Definition fetchLogs (s : state) : state :=
  if paused s then s else set_fetching (S (fetching s)) s.

(** [fetchLogs] after its [await]: [setLogs(data)], or the empty [catch]. *)
Definition fetchLogs_settled (r : option (list Log)) (s : state) : state :=
  match r with
  | Some data => set_logs data s
  | None => s
  end.

(** [setPaused(p => !p)]; [fetchLogs] depends on [paused], so the effect is
    torn down and run again, which calls the new [fetchLogs] at once. *)
Definition togglePause (s : state) : state :=
  fetchLogs (set_paused (negb (paused s)) s).

(** *** Analyze log *)

Definition analyze_request (log : Log) : AnalyzeThreat :=
  {| at_log_id := log_id log;
     at_event_type := event_type log;
     at_raw_payload := raw_payload log;
     at_source_ip := source_ip log;
     at_dest_port := dest_port log;
     at_protocol := protocol log;
     at_severity := Js.or_default (severity log) "medium" |}.

(** [analyzeLog(log)] up to its [await]. *)
Definition analyzeLog (log : Log) (s : state) : state :=
  render
    (set_analyzing (analyzing s ++ [analyze_request log])
       (set_analysing true (set_analysis None (set_selectedLog (Some log) s)))).

(** [analyzeLog] after its [await], with the [finally]. *)
Definition analyzeLog_settled (r : option Analysis) (s : state) : state :=
  render
    (set_analysing false
       match r with
       | Some data => set_showModal true (set_analysis (Some data) s)
       | None => toast AnalysisFailed s
       end).

(** *** Submit decision *)

Definition submit_request (sel : Log) (d : DecisionModal.decision) : SubmitDecision :=
  {| sd_log_id := log_id sel;
     analyst_label := DecisionModal.d_label d;
     correct_label := Js.or_default (threat_label sel) "brute_force";
     time_taken_sec := DecisionModal.timeTaken d;
     sd_notes := DecisionModal.d_notes d |}.

(** [submitDecision(d)] up to its [await]; the continuation keeps the
    [selectedLog] it was called with. *)
Definition submitDecision (d : DecisionModal.decision) (s : state) : state :=
  match selectedLog s with
  | None => s
  | Some sel => set_submitting (submitting s ++ [(submit_request sel d, sel)]) s
  end.

(** [submitDecision] after its [await]; [r] is [data.correct], or [None]
    when the call was rejected. *)
Definition submitDecision_settled (call : SubmitDecision * Log) (r : option bool)
  (s : state) : state :=
  render
    match r with
    | Some correct =>
        let s1 := set_decisionsCount (decisionsCount s + 1) s in
        let s2 :=
          if correct
          then toast (CorrectClassification (time_taken_sec (fst call)))
                 (set_correctCount (correctCount s1 + 1) s1)
          else toast (Incorrect (threat_label (snd call))) s1 in
        set_selectedLog None (set_showModal false s2)
    | None => toast SubmitFailed s
    end.

(** *** Events *)

Inductive event :=
| Select (log : Log)
| AnalyzeSettled (k : nat) (r : option Analysis)
| OpenForm
| CloseForm
| SetLabel (v : string)
| SetAction (v : string)
| SetNotes (v : string)
| SubmitClick
| SubmitSettled (k : nat) (r : option bool)
| PollTick
| FetchSettled (r : option (list Log))
| TogglePause
| Tick.

(** Taking the [k]-th pending call out of a list. *)
Fixpoint take_nth {A : Type} (k : nat) (l : list A) : option (A * list A) :=
  match l, k with
  | [], _ => None
  | x :: rest, O => Some (x, rest)
  | x :: rest, S k' =>
      match take_nth k' rest with
      | Some (y, rest') => Some (y, x :: rest')
      | None => None
      end
  end.

Definition in_list (v : string) (l : list string) : bool :=
  existsb (fun x => (x =? v)%string) l.

Arguments in_list : simpl never.

(** One event of the page.  [None] when the event cannot occur in [s]: a
    reply to a call that is not pending, a control that is not rendered.
    [Tick] is one second passing: the page's interval fires and, when the
    form is mounted, so does the form's. *)
Definition step (s : state) (e : event) : option state :=
  match e with
  | Select log => Some (analyzeLog log s)
  | AnalyzeSettled k r =>
      match take_nth k (analyzing s) with
      | Some (_, rest) => Some (analyzeLog_settled r (set_analyzing rest s))
      | None => None
      end
  | OpenForm =>
      match selectedLog s, analysis s with
      | Some _, Some _ =>
          if negb (analysing s) && negb (showModal s)
          then Some (render (set_showModal true s)) else None
      | _, _ => None
      end
  | CloseForm =>
      match modal s with
      | Some _ => Some (render (set_showModal false s))
      | None => None
      end
  | SetLabel v =>
      match modal s with
      | Some m =>
          if in_list v DecisionModal.THREAT_LABELS
          then Some (set_modal (Some (DecisionModal.setLabel v m)) s) else None
      | None => None
      end
  | SetAction v =>
      match modal s with
      | Some m =>
          if in_list v DecisionModal.ACTIONS
          then Some (set_modal (Some (DecisionModal.setAction v m)) s) else None
      | None => None
      end
  | SetNotes v =>
      match modal s with
      | Some m => Some (set_modal (Some (DecisionModal.setNotes v m)) s)
      | None => None
      end
  | SubmitClick =>
      match modal s with
      | Some m => Some (submitDecision (DecisionModal.submit_args m) s)
      | None => None
      end
  | SubmitSettled k r =>
      match take_nth k (submitting s) with
      | Some (call, rest) => Some (submitDecision_settled call r (set_submitting rest s))
      | None => None
      end
  | PollTick => Some (fetchLogs s)
  | FetchSettled r =>
      match fetching s with
      | S n => Some (fetchLogs_settled r (set_fetching n s))
      | O => None
      end
  | TogglePause => Some (togglePause s)
  | Tick =>
      Some (set_modal (option_map DecisionModal.tick (modal s))
              (set_elapsed (elapsed s + 1) s))
  end.

Fixpoint run (s : state) (es : list event) : option state :=
  match es with
  | [] => Some s
  | e :: rest =>
      match step s e with
      | Some s' => run s' rest
      | None => None
      end
  end.

(** Modelled from the spec: the scoring service behind POST
    /submit-decision, which is not among the sources.  Its reply says
    whether the submitted label equals the true label it was sent, as a
    case-sensitive exact match. *)
Definition scoring_service (req : SubmitDecision) : bool :=
  (analyst_label req =? correct_label req)%string.

End SimulationPage.

(** * Part II: the vocabulary of the properties *)

Import SimulationPage.

(** ** Sample data and the score *)


(** A log with only the fields the statistics read filled in. *)
Definition sample_log (i : Z) (sev : string) (anom : bool) (lbl : option string) : Log :=
  {| log_id := i; event_type := "auth"; raw_payload := ""; source_ip := "10.0.0.1";
     dest_port := 22; protocol := "tcp"; severity := Some sev;
     is_anomaly := Some anom; threat_label := lbl |}.

(** ** Accuracy *)

(** What C9 says of a state with decisions made: the read-out is a
    non-negative numeral equal to correct/made * 100. *)
Definition displays_exact_percentage (made correct : nat) : Prop :=
  exists n, accuracy made correct = Fixed (Js.Whole false n)
            /\ n * Z.of_nat made = Z.of_nat correct * 100.

(** The read-out is a whole number within one half of correct/made * 100. *)
Definition within_half (made correct : nat) : bool :=
  match accuracy made correct with
  | Fixed (Js.Whole false n) =>
      Z.abs (2 * Z.of_nat made * n - 200 * Z.of_nat correct) <=? Z.of_nat made
  | _ => false
  end.

(** [within_half] for every count of decisions from 1 to [bound] and every
    count of correct ones up to it (and one beyond). *)
Definition within_half_upto (bound : nat) : bool :=
  forallb (fun made => forallb (fun correct => within_half (S made) correct)
                         (seq 0 (S (S made))))
          (seq 0 bound).

(** ** Runs of the page *)

(** [n] rounds of a poll tick whose GET is then rejected. *)
Fixpoint failed_rounds (n : nat) : list event :=
  match n with
  | O => []
  | S n' => PollTick :: FetchSettled None :: failed_rounds n'
  end.

(** The form is open on log [e] with form state [m]. *)
Definition deciding (s : state) (e : Log) (m : DecisionModal.state) : Prop :=
  showModal s = true /\ selectedLog s = Some e /\ modal s = Some m.

(** A state in which the form is open: [e] was selected and its analysis
    has arrived. *)
Definition opened (e : Log) (a : Analysis) : state :=
  analyzeLog_settled (Some a) (set_analyzing [] (analyzeLog e init)).

(** A reply of the analysis service. *)
Definition sample_analysis : Analysis :=
  {| a_threat_label := "phishing"; a_is_anomaly := true;
     a_anomaly_score := 0.5%float; a_confidence := None;
     a_recommendation := "isolate" |}.

(** The form is mounted exactly when [showModal && selectedLog] holds:
    rendering the state again changes nothing. *)
Definition rendered (s : state) : Prop := render s = s.

Definition form_open (s : state) : bool :=
  match modal s with Some _ => true | None => false end.

Definition has_selection (s : state) : bool :=
  match selectedLog s with Some _ => true | None => false end.

Definition is_tick (ev : event) : bool :=
  match ev with Tick => true | _ => false end.

(** The seconds that pass during a run of events. *)
Definition seconds (es : list event) : nat := List.length (filter is_tick es).

(** The form is open after every event of the run. *)
Fixpoint stays_open (s : state) (es : list event) : bool :=
  match es with
  | [] => true
  | ev :: rest =>
      match step s ev with
      | Some s' => form_open s' && stays_open s' rest
      | None => false
      end
  end.

(** What C3 says of a run that starts with the selection of [e]: every
    decision sent carries the seconds that passed since the selection. *)
Definition sent_since_select (e : Log) (after_select : list event) : Prop :=
  forall s c,
    run init (Select e :: after_select) = Some s ->
    In c (submitting s) ->
    time_taken_sec (fst c) = seconds after_select.

(** Events that neither set the form's label nor change the selected log
    under an open form.  (The form is a full-viewport overlay that covers
    the feed while it is open; the handler itself runs in every state, and
    so [step] lets [Select] happen in every state.) *)
Definition keeps_default (s : state) (ev : event) : bool :=
  match ev with
  | SetLabel _ => false
  | Select _ => negb (form_open s)
  | _ => true
  end.

(** Every event of the run keeps the default. *)
Fixpoint untouched (s : state) (es : list event) : bool :=
  match es with
  | [] => true
  | ev :: rest =>
      keeps_default s ev
      && match step s ev with
         | Some s' => untouched s' rest
         | None => true
         end
  end.

(** The true label of a log as the specification words it: its threat
    label, and "brute_force" when it has none (an empty label is none). *)
Definition true_label (e : Log) : string :=
  match threat_label e with
  | Some EmptyString => "brute_force"
  | Some l => l
  | None => "brute_force"
  end.

(** No event of the run changes the classification of the form. *)
Definition never_sets_label (es : list event) : bool :=
  forallb (fun ev => match ev with SetLabel _ => false | _ => true end) es.

(** What C10 says: whoever submits without having changed the default
    submits a label equal to the correct label. *)
Definition default_always_correct : Prop :=
  forall es s req e,
    never_sets_label es = true ->
    run init es = Some s ->
    In (req, e) (submitting s) ->
    analyst_label req = correct_label req.

(** The label of an open form is the default for the selected log. *)
Definition default_kept (s : state) : Prop :=
  forall e m, selectedLog s = Some e -> modal s = Some m ->
    DecisionModal.label m = Js.or_default (threat_label e) "brute_force".

(** The selected log and the label of the form are those of [s]. *)
Definition same_choice (s x : state) : Prop :=
  selectedLog x = selectedLog s
  /\ option_map DecisionModal.label (modal x)
     = option_map DecisionModal.label (modal s).

(** What C1 says of the run select X, select Y, reply to X's call: the
    reply is not the analysis of a state whose selected log is Y. *)
Definition stale_reply_dropped (X Y : Log) (dX : Analysis) : Prop :=
  forall s,
    run init [Select X; Select Y; AnalyzeSettled 0 (Some dX)] = Some s ->
    ~ (selectedLog s = Some Y /\ analysis s = Some dX).

(** ** Threat distribution *)

(** The label a log contributes to the distribution, if any: present, not
    empty and not "benign". *)
Definition counted (l : Log) : option string :=
  match threat_label l with
  | Some k => if negb (k =? "")%string && negb (k =? "benign")%string then Some k else None
  | None => None
  end.

(** The contributed labels, in the order of the logs. *)
Fixpoint labels (l : list Log) : list string :=
  match l with
  | [] => []
  | x :: rest =>
      match counted x with
      | Some k => k :: labels rest
      | None => labels rest
      end
  end.

(** No contributed label is the name of a member that the counting object
    inherits. *)
Definition plain_labels (l : list Log) : Prop :=
  forall k, In k (labels l) -> Js.inherited k = false.

(** The distinct elements of a list in the order of their first occurrence. *)
Fixpoint first_seen (ks : list string) : list string :=
  match ks with
  | [] => []
  | k :: rest => k :: filter (fun x => negb (x =? k)%string) (first_seen rest)
  end.

(** How often [k] occurs in [ks]. *)
Definition times (ks : list string) (k : string) : Z :=
  Z.of_nat (count_occ string_dec ks k).

(** One pair per distinct label, with the number of its occurrences. *)
Definition groups (ks : list string) : list (string * Z) :=
  map (fun k => (k, times ks k)) (first_seen ks).

(** Counting the labels [ks] one after the other into [acc]. *)
Definition bump_all (ks : list string) (acc : Js.obj) : Js.obj :=
  fold_left (fun a k => Js.bump k a) ks acc.

(** The comparator [(a, b) => key(b) - key(a)]. *)
Definition desc {A : Type} (key : A -> Z) (a b : A) : Z := key b - key a.

(** [a] may stand before [b] in a list sorted by descending key. *)
Definition not_below {A : Type} (key : A -> Z) (a b : A) : Prop := key b <= key a.

(** [a] and [b] are array indices and [a] is not the larger. *)
Definition index_le (a b : string) : Prop :=
  match Js.array_index a, Js.array_index b with
  | Some x, Some y => (x <= y)%N
  | _, _ => False
  end.

(** [order] lists the keys [ks] the way own keys are enumerated: first the
    array indices among them in ascending numeric order, then the others
    in the order they have in [ks]. *)
Definition own_key_order (ks order : list string) : Prop :=
  exists idx,
    order = idx ++ filter (fun k => negb (Js.is_index k)) ks
    /\ Permutation idx (filter Js.is_index ks)
    /\ StronglySorted index_le idx.

(** An entry carries the numeric value of its own key. *)
Definition tagged_ok (e : N * (string * Z)) : Prop :=
  Js.array_index (fst (snd e)) = Some (fst e).

(** Entries compared by that value. *)
Definition tag_le (e e' : N * (string * Z)) : Prop := (fst e <= fst e')%N.

(** The number of logs whose threat label is [k]. *)
Definition occurrences (k : string) (l : list Log) : Z :=
  count_if (fun x => Js.strict_eq (threat_label x) k) l.

(** The bar for label [k]. *)
Definition bar_of (l : list Log) (k : string) : Bar := to_bar (k, occurrences k l).

(** What C5 says about ties: the chart data are the bars of the distinct
    contributed labels, taken in first-seen order, stably sorted by count,
    cut after six. *)
Definition ranked_from_first_seen (l : list Log) : Prop :=
  threatDist l
  = firstn 6 (Js.sort by_count_desc (map (bar_of l) (first_seen (labels l)))).

(** ** Further vocabulary for runs of the page *)

(** The replies to submit calls in a run that report success, and those
    among them that report a correct decision. *)
Definition is_success (ev : event) : bool :=
  match ev with SubmitSettled _ (Some _) => true | _ => false end.

Definition is_correct (ev : event) : bool :=
  match ev with SubmitSettled _ (Some true) => true | _ => false end.

Definition successes (es : list event) : nat := List.length (filter is_success es).

Definition corrects (es : list event) : nat := List.length (filter is_correct es).

(** The "Running ML analysis" indicator is only on while some analyze call
    awaits its reply. *)
Definition spinner_ok (s : state) : Prop :=
  analysing s = true -> analyzing s <> [].

(** * Part III: the components of the page

    Each component with the vocabulary of its properties. *)

(** ** RiskMeter.jsx *)

Module RiskMeter.

(** What the gauge computes from its [value] before drawing (the end
    points of the arc, which need sine and cosine, are left out). *)
Record view := mkView {
  clamped : Z;
  endAngle : float;
  largeArc : Z;
  color : string;
  label2 : string;
  labelColor : string;
  arc_drawn : bool
}.

(** [clamped < 30 ? a : clamped < 60 ? b : clamped < 80 ? c : d]. *)
Definition band {A : Type} (c : Z) (a b c' d : A) : A :=
  if c <? 30 then a else if c <? 60 then b else if c <? 80 then c' else d.

Definition startAngle : float := 180%float.

Definition RiskMeter (value : Z) : view :=
  let clamped := Js.Math_min 100 (Z.max 0 value) in
  let endAngle :=
    (startAngle + (Js.Number (Z.to_nat clamped) / 100) * 180)%float in
  {| clamped := clamped;
     endAngle := endAngle;
     largeArc := if (180 <? endAngle - startAngle)%float then 1 else 0;
     color := band clamped "#22c55e" "#eab308" "#f97316" "#ef4444";
     label2 := band clamped "LOW" "MODERATE" "HIGH" "CRITICAL";
     labelColor :=
       band clamped "text-green-400" "text-yellow-400" "text-orange-400" "text-red-400";
     arc_drawn := 0 <? clamped |}.

End RiskMeter.

(** ** AlertPanel.jsx *)

Module AlertPanel.

(** What a row of the feed shows of its log besides the plain fields: the
    severity badge, the ANOMALY tag, the threat label tag. *)
Definition sev (log : Log) : string := Js.or_default (severity log) "low".

Definition anomaly_tag (log : Log) : bool := Js.truthy_bool (is_anomaly log).

Definition label_tag (log : Log) : option string :=
  if Js.truthy_string (threat_label log)
     && negb (Js.strict_eq (threat_label log) "benign")
  then threat_label log else None.

Definition has_label_tag (log : Log) : bool :=
  match label_tag log with Some _ => true | None => false end.

(** The "Waiting for events..." placeholder. *)
Definition waiting (logs : list Log) : bool := (List.length logs =? 0)%nat.

End AlertPanel.

(** ** Vocabulary for the statistics and the chart *)

(** The weighted sum the score is cut from. *)
Definition weight (l : list Log) : Z :=
  critical (stats l) * 10 + high (stats l) * 5 + anomalies (stats l) * 2.

(** A log that raises the score: critical, high or anomalous. *)
Definition alarming (x : Log) : bool :=
  Js.strict_eq (severity x) "critical"
  || Js.strict_eq (severity x) "high"
  || Js.truthy_bool (is_anomaly x).

(** The sum of the counts of the bars. *)
Definition total_count (bars : list Bar) : Z :=
  fold_right (fun b acc => count b + acc) 0 bars.

(** The large-arc flag of the gauge at [n], for checking all of 0..100. *)
Definition large_arc_at (n : nat) : Z :=
  RiskMeter.largeArc (RiskMeter.RiskMeter (Z.of_nat n)).

(** The sum of [f] over a list of labels. *)
Definition sum_by (f : string -> Z) (ks : list string) : Z :=
  fold_right (fun k acc => f k + acc) 0 ks.

(** ** LogTable.jsx *)

Module LogTable.

Definition PER_PAGE : Z := 20.

Definition severities : list string := ["all"; "critical"; "high"; "medium"; "low"].

Inductive dir := Desc | Asc.

(** The React state of the table. *)
Record state := mkState {
  search : string;
  sevFilter : string;
  anomalyOnly : bool;
  page : Z;
  sortDir : dir
}.

Definition set_page (v : Z) (s : state) : state :=
  mkState (search s) (sevFilter s) (anomalyOnly s) v (sortDir s).

(** [l.slice(start, stop)]: a negative bound counts from the end, and both
    bounds are cut to the length. *)
Definition slice {A : Type} (start stop : Z) (l : list A) : list A :=
  let len := Z.of_nat (List.length l) in
  let k := if start <? 0 then Z.max (len + start) 0 else Z.min start len in
  let final := if stop <? 0 then Z.max (len + stop) 0 else Z.min stop len in
  firstn (Z.to_nat (final - k)) (skipn (Z.to_nat k) l).

(** [Math.ceil(n / PER_PAGE)] for the length [n] of an array.  The
    quotient of two such integers in doubles is an integer only when the
    division is exact, so the ceiling is that of the exact quotient. *)
Definition totalPages (n : nat) : Z := (Z.of_nat n + (PER_PAGE - 1)) / PER_PAGE.

(** The rows of page [p]. *)
Definition page_of {A : Type} (p : Z) (rows : list A) : list A :=
  slice ((p - 1) * PER_PAGE) (p * PER_PAGE) rows.

(** The badge of a row: [log.severity || 'low']. *)
Definition badge (log : Log) : string := Js.or_default (severity log) "low".

Section Table.

(** Two things the table computes from a log with parts of a log object
    that [Log] does not hold: whether the lower-cased JSON text of the log
    includes the lower-cased search text, and the time value of
    [new Date(log.timestamp)], in milliseconds, of a log whose timestamp is
    a valid date. *)
Variable matches : string -> Log -> bool.
Variable time : Log -> Z.

(** The comparator [sortDir === 'desc' ? tb - ta : ta - tb]. *)
Definition by_time (d : dir) (a b : Log) : Z :=
  match d with
  | Desc => time b - time a
  | Asc => time a - time b
  end.

(** The three tests of [filtered] on one log, each applied only when its
    filter is set. *)
Definition passes (s : state) (l : Log) : bool :=
  (if Js.truthy_string (Some (search s)) then matches (search s) l else true)
  && (if negb (sevFilter s =? "all")%string
      then Js.strict_eq (severity l) (sevFilter s) else true)
  && (if anomalyOnly s then Js.truthy_bool (is_anomaly l) else true).

Definition filtered (logs : list Log) (s : state) : list Log :=
  let out := logs in
  let out :=
    if Js.truthy_string (Some (search s)) then filter (matches (search s)) out else out in
  let out :=
    if negb (sevFilter s =? "all")%string
    then filter (fun l => Js.strict_eq (severity l) (sevFilter s)) out else out in
  let out :=
    if anomalyOnly s then filter (fun l => Js.truthy_bool (is_anomaly l)) out else out in
  Js.sort (by_time (sortDir s)) out.

Definition paged (logs : list Log) (s : state) : list Log :=
  page_of (page s) (filtered logs s).

(** The table with its [logs] prop. *)
Record table := mkTable {
  logs : list Log;
  st : state
}.

Definition pages (t : table) : Z := totalPages (List.length (filtered (logs t) (st t))).

Definition rows (t : table) : list Log := paged (logs t) (st t).

(** The "No events match the current filters" row. *)
Definition no_match (t : table) : bool := (List.length (rows t) =? 0)%nat.

(** The PREV / PAGE / NEXT bar. *)
Definition pagination (t : table) : bool := 1 <? pages t.

Definition mount (data : list Log) : table :=
  {| logs := data;
     st := {| search := ""; sevFilter := "all"; anomalyOnly := false;
              page := 1; sortDir := Desc |} |}.

Inductive event :=
| SetSearch (v : string)
| SetSevFilter (v : string)
| SetAnomalyOnly (v : bool)
| ToggleSort
| Prev
| Next
| Logs (data : list Log).

(** One event of the table: a control is operated, or the parent renders
    it with new logs.  [None] for a control that is not rendered or is
    disabled. *)
Definition step (t : table) (e : event) : option table :=
  let s := st t in
  match e with
  | SetSearch v =>
      Some (mkTable (logs t)
              (mkState v (sevFilter s) (anomalyOnly s) 1 (sortDir s)))
  | SetSevFilter v =>
      if in_list v severities
      then Some (mkTable (logs t)
                   (mkState (search s) v (anomalyOnly s) 1 (sortDir s)))
      else None
  | SetAnomalyOnly v =>
      Some (mkTable (logs t)
              (mkState (search s) (sevFilter s) v 1 (sortDir s)))
  | ToggleSort =>
      Some (mkTable (logs t)
              (mkState (search s) (sevFilter s) (anomalyOnly s) (page s)
                 match sortDir s with Desc => Asc | Asc => Desc end))
  | Prev =>
      if pagination t && negb (page s =? 1)
      then Some (mkTable (logs t) (set_page (Z.max 1 (page s - 1)) s))
      else None
  | Next =>
      if pagination t && negb (page s =? pages t)
      then Some (mkTable (logs t) (set_page (Z.min (pages t) (page s + 1)) s))
      else None
  | Logs data => Some (mkTable data s)
  end.

Fixpoint run (t : table) (es : list event) : option table :=
  match es with
  | [] => Some t
  | e :: rest =>
      match step t e with
      | Some t' => run t' rest
      | None => None
      end
  end.

End Table.

End LogTable.

(** ** Vocabulary for the table *)

(** The page numbers 1 .. [n]. *)
Definition page_numbers (n : Z) : list Z := map Z.of_nat (seq 1 (Z.to_nat n)).

(** No event of the run brings new logs. *)
Definition same_feed (es : list LogTable.event) : bool :=
  forallb (fun e => match e with LogTable.Logs _ => false | _ => true end) es.

(** The page shown is one of the pages there are (page 1 when there is
    none). *)
Definition page_in_range (matches : string -> Log -> bool) (time : Log -> Z)
  (t : LogTable.table) : Prop :=
  1 <= LogTable.page (LogTable.st t) <= Z.max 1 (LogTable.pages matches time t).

(** The logs the table lists have pairwise different times. *)
Definition distinct_times (matches : string -> Log -> bool) (time : Log -> Z)
  (t : LogTable.table) : Prop :=
  NoDup (map time (filter (LogTable.passes matches (LogTable.st t)) (LogTable.logs t))).

(** A feed of [n] logs numbered from 0, and the time of a log taken to
    be its number. *)
Definition numbered_logs (n : nat) : list Log :=
  map (fun i => sample_log (Z.of_nat i) "low" false None) (seq 0 n).

(** ** Toast.jsx *)

Module Toasts.

Inductive kind := success | error | warn | info.

Record item := mkItem {
  id : nat;
  msg : string;
  type : kind
}.

(** The module variables [_addToast] and [_id], the [toasts] state of the
    mounted container, and the timeouts that have not fired yet.  One
    container is mounted at a time; containers are numbered as they are
    mounted, [_addToast] holds the number of the container whose [add] it
    is, and a timeout remembers the container whose [setToasts] it calls
    and the id it removes. *)
Record state := mkState {
  _addToast : option nat;
  _id : nat;
  containers : nat;
  toasts : list item;
  timers : list (nat * nat)
}.

Definition init : state :=
  {| _addToast := None; _id := 0; containers := 0; toasts := []; timers := [] |}.

(** [add({ msg, type })] of container [c]. *)
Definition add (c : nat) (k : kind) (m : string) (s : state) : state :=
  let id := S (_id s) in
  {| _addToast := _addToast s;
     _id := id;
     containers := containers s;
     toasts := toasts s ++ [mkItem id m k];
     timers := timers s ++ [(c, id)] |}.

(** [toast.success(msg)] and the like: [_addToast?.({ msg, type })]. *)
Definition toast (k : kind) (m : string) (s : state) : state :=
  match _addToast s with
  | Some c => add c k m s
  | None => s
  end.

(** The callback of a timeout: [setToasts(t => t.filter(x => x.id !== id))]
    on container [c], which does nothing once [c] is unmounted. *)
Definition expire (c i : nat) (s : state) : state :=
  {| _addToast := _addToast s;
     _id := _id s;
     containers := containers s;
     toasts :=
       match _addToast s with
       | Some c' =>
           if (c' =? c)%nat
           then filter (fun x => negb (id x =? i)%nat) (toasts s)
           else toasts s
       | None => toasts s
       end;
     timers := timers s |}.

Inductive event :=
| Mount
| Unmount
| Call (k : kind) (m : string)
| Timeout (n : nat).

(** [Timeout n]: the [n]-th pending timeout fires. *)
Definition step (s : state) (e : event) : option state :=
  match e with
  | Mount =>
      match _addToast s with
      | None =>
          Some {| _addToast := Some (S (containers s)); _id := _id s;
                  containers := S (containers s); toasts := [];
                  timers := timers s |}
      | Some _ => None
      end
  | Unmount =>
      match _addToast s with
      | Some _ =>
          Some {| _addToast := None; _id := _id s; containers := containers s;
                  toasts := []; timers := timers s |}
      | None => None
      end
  | Call k m => Some (toast k m s)
  | Timeout n =>
      match take_nth n (timers s) with
      | Some ((c, i), rest) =>
          Some (expire c i
                  {| _addToast := _addToast s; _id := _id s;
                     containers := containers s; toasts := toasts s;
                     timers := rest |})
      | None => None
      end
  end.

Fixpoint run (s : state) (es : list event) : option state :=
  match es with
  | [] => Some s
  | e :: rest =>
      match step s e with
      | Some s' => run s' rest
      | None => None
      end
  end.

End Toasts.

(** ** Vocabulary for the notifications *)

(** The ids of the toasts on display. *)
Definition shown (s : Toasts.state) : list nat := map Toasts.id (Toasts.toasts s).

(** Every toast on display has a pending timeout of the mounted container
    that will remove it. *)
Definition timed (s : Toasts.state) : Prop :=
  forall i, In i (shown s) ->
    exists c, Toasts._addToast s = Some c /\ In (c, i) (Toasts.timers s).

(** What holds of the notifications in every state: no id in use is
    beyond [_id], the ids on display ascend, no two pending timeouts
    remove the same id, the mounted container is the latest, and every
    toast on display is timed. *)
Definition toasts_ok (s : Toasts.state) : Prop :=
  Forall (fun i => (i <= Toasts._id s)%nat) (shown s)
  /\ Forall (fun ci => (snd ci <= Toasts._id s)%nat) (Toasts.timers s)
  /\ StronglySorted lt (shown s)
  /\ NoDup (map snd (Toasts.timers s))
  /\ (Toasts._addToast s = None -> Toasts.toasts s = [])
  /\ timed s.

(** The first pending timeout fires, [n] times over. *)
Definition fire_all (n : nat) : list Toasts.event := repeat (Toasts.Timeout 0) n.

(** The id [i] has been given out and is neither on display nor awaited
    by a timeout. *)
Definition gone (i : nat) (s : Toasts.state) : Prop :=
  (i <= Toasts._id s)%nat
  /\ ~ In i (shown s)
  /\ ~ In i (map snd (Toasts.timers s)).

(** ** Stopping the simulation (SimulationPage.jsx) *)

Module StopSimulation.

(** The toasts [stopSimulation] asks for. *)
Inductive notice :=
| Ended
| Failed (text : string).

(** The reply to POST /stop-simulation: fulfilled, or rejected with
    [err.response?.data?.detail]. *)
Inductive reply :=
| Fulfilled
| Rejected (detail : option string).

(** The [stopping] state, the calls of POST /stop-simulation awaiting
    their reply, the timeouts set for [navigate], the toasts asked for and
    the number of times the page has navigated to the report. *)
Record state := mkState {
  stopping : bool;
  requests : nat;
  timers : nat;
  notices : list notice;
  navigations : nat
}.

Definition init : state :=
  {| stopping := false; requests := 0; timers := 0; notices := []; navigations := 0 |}.

(** [stopSimulation] up to its [await]. *)
Definition stopSimulation (s : state) : state :=
  mkState true (S (requests s)) (timers s) (notices s) (navigations s).

(** [stopSimulation] after its [await]. *)
Definition stopSimulation_settled (r : reply) (s : state) : state :=
  match r with
  | Fulfilled =>
      mkState (stopping s) (requests s) (S (timers s)) (notices s ++ [Ended])
        (navigations s)
  | Rejected detail =>
      mkState false (requests s) (timers s)
        (notices s ++ [Failed (Js.or_default detail "Failed to stop")])
        (navigations s)
  end.

Inductive event :=
| Click
| Settled (r : reply)
| TimerFires.

(** [Click] is on the STOP & SCORE button, which is disabled while
    [stopping] holds. *)
Definition step (s : state) (e : event) : option state :=
  match e with
  | Click => if stopping s then None else Some (stopSimulation s)
  | Settled r =>
      match requests s with
      | S n =>
          Some (stopSimulation_settled r
                  (mkState (stopping s) n (timers s) (notices s) (navigations s)))
      | O => None
      end
  | TimerFires =>
      match timers s with
      | S n => Some (mkState (stopping s) (requests s) n (notices s) (S (navigations s)))
      | O => None
      end
  end.

Fixpoint run (s : state) (es : list event) : option state :=
  match es with
  | [] => Some s
  | e :: rest =>
      match step s e with
      | Some s' => run s' rest
      | None => None
      end
  end.

End StopSimulation.

(** ** Vocabulary for stopping *)

Definition is_ended (n : StopSimulation.notice) : bool :=
  match n with StopSimulation.Ended => true | _ => false end.

(** The stop requests that were fulfilled. *)
Definition ended (s : StopSimulation.state) : nat :=
  List.length (filter is_ended (StopSimulation.notices s)).

(** Either nothing is under way and the button is enabled, or the button
    is disabled and exactly one stop is under way: awaiting its reply,
    awaiting the navigation, or done. *)
Definition stop_ok (s : StopSimulation.state) : Prop :=
  ended s = (StopSimulation.timers s + StopSimulation.navigations s)%nat
  /\ if StopSimulation.stopping s
     then (StopSimulation.requests s + ended s = 1)%nat
     else StopSimulation.requests s = 0%nat /\ ended s = 0%nat.

(** ** The status bar (SimulationPage.jsx) *)

Module StatusBar.

(** [String(n)] of a natural number. *)
Definition String_of (n : nat) : string := NilEmpty.string_of_uint (Nat.to_uint n).

Fixpoint zeros (k : nat) : string :=
  match k with
  | O => ""
  | S k' => String "0"%char (zeros k')
  end.

(** [s.padStart(2, '0')]. *)
Definition padStart2 (s : string) : string :=
  (zeros (2 - String.length s) ++ s)%string.

(** [fmt(s)]: the clock beside LIVE SIMULATION, of a count of seconds (a
    natural number, far below the 10^21 from which [String] writes an
    exponent). *)
Definition fmt (s : nat) : string :=
  (padStart2 (String_of (s / 60)) ++ ":" ++ padStart2 (String_of (s mod 60)))%string.

(** [accuracy >= 70], where [accuracy] is the text of the read-out: the
    text is converted to the number it denotes, the dash to NaN. *)
Definition at_least_70 (a : accuracy_text) : bool :=
  match a with
  | Dash => false
  | Fixed (Js.Whole negative n) => 70 <=? (if negative then - n else n)
  | Fixed Js.NaN => false
  | Fixed (Js.Infinity negative) => negb negative
  | Fixed (Js.Exponent x) => (70 <=? x)%float
  end.

(** The class of the ACCURACY read-out. *)
Definition accuracy_color (decisionsCount correctCount : nat) : string :=
  if at_least_70 (accuracy decisionsCount correctCount)
  then "text-green-400" else "text-red-400".

End StatusBar.

(** ** Vocabulary for the status bar *)

(** Reading a decimal numeral. *)
Definition read_number (s : string) : option nat :=
  option_map Nat.of_uint (NilEmpty.uint_of_string s).

Fixpoint no_colon (s : string) : bool :=
  match s with
  | EmptyString => true
  | String c rest => negb (c =? ":")%char && no_colon rest
  end.

(** The text before the first colon and the text after it. *)
Fixpoint split_colon (s : string) : option (string * string) :=
  match s with
  | EmptyString => None
  | String c rest =>
      if (c =? ":")%char then Some (EmptyString, rest)
      else match split_colon rest with
           | Some (a, b) => Some (String c a, b)
           | None => None
           end
  end.

(** Reading a clock text "m:s" as a count of seconds. *)
Definition read_clock (s : string) : option nat :=
  match split_colon s with
  | Some (mm, ss) =>
      match read_number mm, read_number ss with
      | Some m, Some x => Some (m * 60 + x)%nat
      | _, _ => None
      end
  | None => None
  end.

(** Numerals of the numbers below 100 have at most two digits. *)
Definition two_digits_upto_100 : bool :=
  forallb (fun n => (String.length (StatusBar.String_of n) <=? 2)%nat) (seq 0 100).

(** [c.toUpperCase()] of one character of the Basic Latin range: a small
    letter becomes its capital, any other character stays. *)
Definition upper_char (c : ascii) : ascii :=
  let n := nat_of_ascii c in
  if ((97 <=? n) && (n <=? 122))%nat then ascii_of_nat (n - 32) else c.

(** [s.toUpperCase()] of a string of Basic Latin characters. *)
Fixpoint toUpperCase (s : string) : string :=
  match s with
  | EmptyString => EmptyString
  | String c rest => String (upper_char c) (toUpperCase rest)
  end.

(** Every character of the string is of the Basic Latin range. *)
Fixpoint basic_latin (s : string) : bool :=
  match s with
  | EmptyString => true
  | String c rest => (nat_of_ascii c <? 128)%nat && basic_latin rest
  end.

(** The badge in the header of the decision form: [sev.toUpperCase()] with
    [sev = log.severity || 'low'] (DecisionModal.jsx). *)
Definition form_badge (log : Log) : string :=
  toUpperCase (Js.or_default (severity log) "low").

(** The severities the platform uses, as the feed and the table write them
    and as the decision form writes them. *)
Definition severity_names : list (string * string) :=
  [("critical", "CRITICAL"); ("high", "HIGH"); ("medium", "MEDIUM"); ("low", "LOW")].

(** ** Vocabulary for the ledger of a run *)

Definition is_select (ev : event) : bool :=
  match ev with Select _ => true | _ => false end.

Definition is_analyze_reply (ev : event) : bool :=
  match ev with AnalyzeSettled _ _ => true | _ => false end.

Definition is_submit_click (ev : event) : bool :=
  match ev with SubmitClick => true | _ => false end.

Definition is_submit_reply (ev : event) : bool :=
  match ev with SubmitSettled _ _ => true | _ => false end.

(** The events of analysing and deciding on which a toast is asked for: a
    failed analysis and every reply to a submit call. *)
Definition notifies (ev : event) : bool :=
  match ev with
  | AnalyzeSettled _ None => true
  | SubmitSettled _ _ => true
  | _ => false
  end.

(** How many events of a run satisfy [p]. *)
Definition number_of {A : Type} (p : A -> bool) (es : list A) : nat :=
  List.length (filter p es).

(** *** The page with its stop button

    [stopSimulation] reads and writes [stopping] only and shares nothing
    with the other handlers of the page but the notifications, so the page
    with its stop button is the two transition systems side by side, each
    event moving one of them. *)

Module Cockpit.

Inductive event :=
| Page (ev : SimulationPage.event)
| Stop (ev : StopSimulation.event).

Definition state : Type := SimulationPage.state * StopSimulation.state.

Definition init : state := (SimulationPage.init, StopSimulation.init).

Definition step (s : state) (e : event) : option state :=
  match e with
  | Page ev =>
      match SimulationPage.step (fst s) ev with
      | Some p => Some (p, snd s)
      | None => None
      end
  | Stop ev =>
      match StopSimulation.step (snd s) ev with
      | Some q => Some (fst s, q)
      | None => None
      end
  end.

Fixpoint run (s : state) (es : list event) : option state :=
  match es with
  | [] => Some s
  | e :: rest =>
      match step s e with
      | Some s' => run s' rest
      | None => None
      end
  end.

(** The calls of [toast] made so far, by any handler of the page. *)
Definition toast_calls (s : state) : nat :=
  (List.length (toasts (fst s)) + List.length (StopSimulation.notices (snd s)))%nat.

End Cockpit.

(** An event of analysing and deciding that satisfies [p]. *)
Definition on_page (p : event -> bool) (e : Cockpit.event) : bool :=
  match e with Cockpit.Page ev => p ev | Cockpit.Stop _ => false end.

Definition is_stop_click (e : Cockpit.event) : bool :=
  match e with Cockpit.Stop StopSimulation.Click => true | _ => false end.

Definition is_stop_reply (e : Cockpit.event) : bool :=
  match e with Cockpit.Stop (StopSimulation.Settled _) => true | _ => false end.

(** The events on which the page asks for a toast, by any of its six
    calls: a failed analysis, every reply to a submit call, and every
    reply to a stop request. *)
Definition asks_toast (e : Cockpit.event) : bool :=
  on_page notifies e || is_stop_reply e.

(** The data of the latest fulfilled fetch of a run, [d] if there is none. *)
Definition last_fetched (es : list event) (d : list Log) : list Log :=
  fold_left (fun acc ev => match ev with FetchSettled (Some data) => data | _ => acc end)
    es d.

(** * Part IV: properties *)

Ltac break_state s :=
  destruct s as [lg sel an ang sm el dc cc pa mo fe az sb ts].

Ltac break_match :=
  match goal with
  | |- context [match ?x with _ => _ end] => destruct x eqn:?
  | H : context [match ?x with _ => _ end] |- _ => destruct x eqn:?
  end.


(** ** Risk score *)

Lemma count_if_nonneg (p : Log -> bool) (l : list Log) : 0 <= count_if p l.
Proof. unfold count_if. lia. Qed.


(** ** Accuracy read-out *)

(** [toFixed(0)] rounds to the nearest integer, upwards on a tie: for a
    double m * 2^e with e < 0 the numeral n satisfies
    n - 1/2 <= m * 2^e < n + 1/2. *)
Lemma round_half_up_nearest (m : positive) (e : Z) :
  e < 0 ->
  let n := Js.round_half_up m e in
  2 ^ (- e) * (2 * n - 1) <= 2 * Z.pos m < 2 ^ (- e) * (2 * n + 1).
Proof.
  intros He n. subst n. unfold Js.round_half_up.
  destruct (Z.leb_spec 0 e) as [H|_]; [lia|].
  set (h := 2 ^ (- e - 1)).
  assert (Hh : 0 < h) by (apply Z.pow_pos_nonneg; lia).
  assert (Hk : 2 ^ (- e) = 2 * h).
  { unfold h. replace (- e) with (Z.succ (- e - 1)) at 1 by lia.
    rewrite Z.pow_succ_r by lia. reflexivity. }
  rewrite Hk.
  pose proof (Z.div_mod (Z.pos m + h) (2 * h) ltac:(lia)) as Hdm.
  pose proof (Z.mod_pos_bound (Z.pos m + h) (2 * h) ltac:(lia)) as Hr.
  nia.
Qed.

Lemma round_half_up_integer (m : positive) (e : Z) :
  0 <= e -> Js.round_half_up m e = Z.pos m * 2 ^ e.
Proof.
  intros He. unfold Js.round_half_up.
  destruct (Z.leb_spec 0 e); [reflexivity|lia].
Qed.

Lemma within_half_upto_sound (bound made correct : nat) :
  within_half_upto bound = true ->
  (0 < made <= bound)%nat -> (correct <= made)%nat ->
  within_half made correct = true.
Proof.
  unfold within_half_upto. rewrite forallb_forall. intros H Hm Hc.
  destruct made as [|made]; [lia|].
  specialize (H made). rewrite in_seq in H.
  specialize (H ltac:(lia)). rewrite forallb_forall in H.
  apply H. rewrite in_seq. lia.
Qed.

Lemma within_half_200 : within_half_upto 200 = true.
Proof. vm_compute. reflexivity. Qed.

(** C9 (as amended). With no decision made the accuracy is the dash.  With
    decisions made it is not the quotient itself but what [toFixed(0)] makes
    of the double (correct/made)*100: a whole number, the nearest to that
    double and the larger one on a tie.  One correct decision out of three
    reads 33; 23 out of 40 read 57, the double being just below 57.5; up to
    200 decisions the numeral is within one half of correct/made*100. *)
Theorem accuracy_is_rounded (made correct : nat) :
  (made = 0%nat -> accuracy made correct = Dash)
  /\ (made <> 0%nat ->
      accuracy made correct
      = Fixed (Js.toFixed0 ((Js.Number correct / Js.Number made) * 100)%float))
  /\ (forall x s m e,
        Prim2SF x = S754_finite s m e -> e < 0 ->
        exists n, Js.toFixed0 x = Js.Whole s n
                  /\ 2 ^ (- e) * (2 * n - 1) <= 2 * Z.pos m < 2 ^ (- e) * (2 * n + 1))
  /\ (forall x s m e,
        Prim2SF x = S754_finite s m e -> 0 <= e -> Z.pos m * 2 ^ e < 10 ^ 21 ->
        Js.toFixed0 x = Js.Whole s (Z.pos m * 2 ^ e))
  /\ ((0 < made <= 200)%nat -> (correct <= made)%nat ->
      exists n, accuracy made correct = Fixed (Js.Whole false n)
                /\ Z.abs (2 * Z.of_nat made * n - 200 * Z.of_nat correct)
                   <= Z.of_nat made)
  /\ accuracy 3 1 = Fixed (Js.Whole false 33)
  /\ accuracy 40 23 = Fixed (Js.Whole false 57).
Proof.
  split; [|split; [|split; [|split; [|split; [|split]]]]].
  - intros ->. reflexivity.
  - intros Hm. unfold accuracy.
    destruct (Nat.ltb_spec 0 made); [reflexivity|lia].
  - intros x s m e Hx He. unfold Js.toFixed0. rewrite Hx.
    destruct (Z.leb_spec 0 e) as [H|_]; [lia|]. cbn [andb].
    eexists; split; [reflexivity|]. apply round_half_up_nearest; assumption.
  - intros x s m e Hx He Hlt. unfold Js.toFixed0. rewrite Hx.
    destruct (Z.leb_spec 0 e) as [_|H]; [|lia]. cbn [andb].
    destruct (Z.leb_spec (10 ^ 21) (Z.pos m * 2 ^ e)) as [H|_]; [lia|].
    rewrite round_half_up_integer by assumption. reflexivity.
  - intros Hm Hc.
    pose proof (within_half_upto_sound 200 made correct within_half_200 Hm Hc) as Hw.
    unfold within_half in Hw. revert Hw.
    generalize (accuracy made correct).
    intros [|[[|] n| |?|?]] Hw; try discriminate Hw.
    exists n. split; [reflexivity|]. apply Z.leb_le. exact Hw.
  - vm_compute. reflexivity.
  - vm_compute. reflexivity.
Qed.

(** C9 as stated fails: one correct decision out of three is displayed as
    33, and 33 * 3 is not 100. *)
Lemma accuracy_not_exact_quotient :
  (0 < 3)%nat
  /\ accuracy 3 1 = Fixed (Js.Whole false 33)
  /\ ~ displays_exact_percentage 3 1.
Proof.
  split; [lia|]. split; [vm_compute; reflexivity|].
  intros [n [Hn Heq]].
  assert (Ha : accuracy 3 1 = Fixed (Js.Whole false 33)) by (vm_compute; reflexivity).
  rewrite Ha in Hn. injection Hn as <-. lia.
Qed.

(** ** Pending calls *)

Lemma take_nth_app_last {A : Type} (l : list A) (x : A) :
  take_nth (List.length l) (l ++ [x]) = Some (x, l).
Proof.
  induction l as [|y l IH]; cbn [List.length app take_nth].
  - reflexivity.
  - rewrite IH. reflexivity.
Qed.

Lemma take_nth_lt {A : Type} (k : nat) (l : list A) :
  (k < List.length l)%nat -> exists x rest, take_nth k l = Some (x, rest).
Proof.
  revert k. induction l as [|y l IH]; intros k Hk; cbn [List.length] in Hk.
  - lia.
  - destruct k as [|k]; cbn [take_nth].
    + eauto.
    + destruct (IH k ltac:(lia)) as [x [rest ->]]. eauto.
Qed.

(** ** Polling *)

Lemma run_app (s : state) (es fs : list event) :
  run s (es ++ fs) = match run s es with Some s' => run s' fs | None => None end.
Proof.
  revert s. induction es as [|e es IH]; intros s; cbn [app run].
  - reflexivity.
  - destruct (step s e); [apply IH|reflexivity].
Qed.

Lemma paused_tick_noop (s : state) :
  paused s = true -> step s PollTick = Some s.
Proof. intros Hp. cbn [step]. unfold fetchLogs. rewrite Hp. reflexivity. Qed.

Lemma paused_ticks_noop (s : state) (n : nat) :
  paused s = true -> run s (repeat PollTick n) = Some s.
Proof.
  intros Hp. induction n as [|n IH]; cbn [repeat run].
  - reflexivity.
  - rewrite paused_tick_noop by assumption. exact IH.
Qed.

(** C6. While polling is paused a poll tick changes nothing at all: the log
    list stays as it is and no GET is issued, however many ticks go by.
    Resuming makes the next tick issue a GET, whose reply replaces the
    log list. *)
Theorem paused_ticks_dropped_then_resumed (s : state) (n : nat) (data : list Log) :
  paused s = true ->
  run s (repeat PollTick n) = Some s
  /\ paused (togglePause s) = false
  /\ (exists t, step (togglePause s) PollTick = Some t
                /\ fetching t = S (fetching (togglePause s))
                /\ logs t = logs s)
  /\ (exists u, run (togglePause s) [PollTick; FetchSettled (Some data)] = Some u
                /\ logs u = data).
Proof.
  intros Hp. split; [apply paused_ticks_noop; assumption|].
  destruct s as [lg sel an ang sm el dc cc pa mo fe az sb ts].
  cbn in Hp. subst pa. cbn.
  repeat split; eexists; repeat split; reflexivity.
Qed.

(** The state reached by pausing the freshly rendered page. *)
Lemma paused_ticks_dropped_witness :
  paused (togglePause init) = true
  /\ run (togglePause init) (repeat PollTick 3) = Some (togglePause init)
  /\ exists u, run (togglePause (togglePause init))
                 [PollTick; FetchSettled (Some [sample_log 1 "low" false None])] = Some u
               /\ logs u = [sample_log 1 "low" false None].
Proof.
  split; [reflexivity|].
  destruct (paused_ticks_dropped_then_resumed (togglePause init) 3
              [sample_log 1 "low" false None] eq_refl) as [H1 [_ [_ H4]]].
  split; [exact H1|exact H4].
Defined.

Lemma failed_round_noop (s : state) :
  paused s = false -> run s [PollTick; FetchSettled None] = Some s.
Proof.
  intros Hp. destruct s as [lg sel an ang sm el dc cc pa mo fe az sb ts].
  cbn in Hp. subst pa. reflexivity.
Qed.

(** C7. A rejected GET leaves the log list, and every other part of the
    page, as it was and shows no notification; the call is made again on
    the next tick, and after any number of failed rounds the page is in the
    very state it started from, so nothing counts failures or delays the
    next attempt. *)
Theorem failed_fetch_is_silent (s : state) (n : nat) :
  paused s = false ->
  (forall f, fetching s = S f ->
             step s (FetchSettled None) = Some (set_fetching f s))
  /\ (exists t, step s PollTick = Some t
                /\ fetching t = S (fetching s)
                /\ step t (FetchSettled None) = Some s)
  /\ run s (failed_rounds n) = Some s
  /\ (exists t, run s (failed_rounds n ++ [PollTick]) = Some t
                /\ fetching t = S (fetching s)
                /\ logs t = logs s /\ toasts t = toasts s).
Proof.
  intros Hp.
  assert (Hround : run s (failed_rounds n) = Some s).
  { induction n as [|n IH]; cbn [failed_rounds].
    - reflexivity.
    - change (PollTick :: FetchSettled None :: failed_rounds n)
        with ([PollTick; FetchSettled None] ++ failed_rounds n).
      rewrite run_app, failed_round_noop by assumption. exact IH. }
  split; [|split; [|split]].
  - intros f Hf. cbn [step]. rewrite Hf. reflexivity.
  - destruct s as [lg sel an ang sm el dc cc pa mo fe az sb ts].
    cbn in Hp. subst pa. eexists. repeat split; reflexivity.
  - exact Hround.
  - rewrite run_app, Hround.
    destruct s as [lg sel an ang sm el dc cc pa mo fe az sb ts].
    cbn in Hp. subst pa. eexists. repeat split; reflexivity.
Qed.

(** Four failed rounds on the freshly rendered page. *)
Lemma failed_fetch_witness :
  paused init = false
  /\ run init (failed_rounds 4) = Some init.
Proof.
  split; [reflexivity|].
  exact (proj1 (proj2 (proj2 (failed_fetch_is_silent init 4 eq_refl)))).
Defined.

(** ** The decision form *)

(** [opened e a] is the state after selecting [e] and receiving [a]. *)
Lemma opened_reached (e : Log) (a : Analysis) :
  run init [Select e; AnalyzeSettled 0 (Some a)] = Some (opened e a).
Proof. vm_compute. reflexivity. Qed.

Lemma opened_deciding (e : Log) (a : Analysis) :
  deciding (opened e a) e (DecisionModal.mount e).
Proof. unfold deciding. vm_compute. repeat split. Qed.

(** C8. When a submit call is rejected the form stays open on the same log
    with the same analysis, the form keeps its label, action, notes and
    timer, and neither counter changes; only a notification is added. *)
Theorem failed_submit_keeps_deciding
  (s : state) (e : Log) (m : DecisionModal.state) (k : nat) :
  deciding s e m ->
  (k < List.length (submitting s))%nat ->
  exists s', step s (SubmitSettled k None) = Some s'
    /\ deciding s' e m
    /\ analysis s' = analysis s
    /\ decisionsCount s' = decisionsCount s
    /\ correctCount s' = correctCount s
    /\ logs s' = logs s
    /\ toasts s' = toasts s ++ [SubmitFailed].
Proof.
  intros [Hs [He Hm]] Hk.
  destruct (take_nth_lt k (submitting s) Hk) as [call [rest Hc]].
  cbn [step]. rewrite Hc.
  destruct s as [lg sel an ang sm el dc cc pa mo fe az sb ts].
  cbn in Hs, He, Hm. subst sm sel mo.
  eexists. split; [reflexivity|]. repeat split.
Qed.

(** A submit that fails two seconds after the form opened. *)
Lemma failed_submit_witness :
  let e := sample_log 7 "high" true (Some "phishing") in
  exists s s',
    run (opened e sample_analysis) [Tick; Tick; SubmitClick] = Some s
    /\ step s (SubmitSettled 0 None) = Some s'
    /\ deciding s' e (DecisionModal.tick (DecisionModal.tick (DecisionModal.mount e)))
    /\ decisionsCount s' = 0%nat /\ correctCount s' = 0%nat.
Proof.
  intros e.
  pose (s := submitDecision
               (DecisionModal.submit_args
                  (DecisionModal.tick (DecisionModal.tick (DecisionModal.mount e))))
               (set_modal (Some (DecisionModal.tick (DecisionModal.tick (DecisionModal.mount e))))
                  (set_elapsed 2 (opened e sample_analysis)))).
  destruct (failed_submit_keeps_deciding s e
              (DecisionModal.tick (DecisionModal.tick (DecisionModal.mount e))) 0)
    as [s' [H1 [H2 [_ [H4 [H5 _]]]]]].
  - repeat split.
  - cbn. lia.
  - exists s, s'. repeat split; try assumption; apply H2.
Defined.

(** The request a click on SUBMIT adds to the pending calls. *)
Lemma submit_click_request (s : state) (e : Log) (m : DecisionModal.state) :
  deciding s e m ->
  step s SubmitClick
  = Some (set_submitting
            (submitting s
               ++ [(submit_request e (DecisionModal.submit_args m), e)]) s).
Proof.
  intros [_ [He Hm]]. cbn [step]. rewrite Hm. unfold submitDecision. rewrite He.
  reflexivity.
Qed.

(** [threat_label || 'brute_force'] is the true label. *)
Lemma or_default_true_label (e : Log) :
  Js.or_default (threat_label e) "brute_force" = true_label e.
Proof.
  unfold Js.or_default, true_label.
  destruct (threat_label e) as [[|c l]|]; reflexivity.
Qed.

(** C4. A submit that succeeds adds exactly one to the decisions made, and
    adds one to the decisions correct exactly when the reply says so; the
    reply of the scoring service says so exactly when the submitted label
    is, character for character, the log's true label.  The request is the
    one the click on SUBMIT sends, with the form's label as
    [analyst_label] and the true label as [correct_label]: the log's
    threat label itself when it has one, "brute_force" when it has none
    or an empty one. *)
Theorem successful_submit_counts
  (s : state) (e : Log) (m : DecisionModal.state) :
  deciding s e m ->
  let k := List.length (submitting s) in
  let req := submit_request e (DecisionModal.submit_args m) in
  let truth := true_label e in
  analyst_label req = DecisionModal.label m
  /\ correct_label req = truth
  /\ (forall l, threat_label e = Some l -> l <> "" -> correct_label req = l)
  /\ (threat_label e = None \/ threat_label e = Some "" ->
      correct_label req = "brute_force")
  /\ exists s1,
      step s SubmitClick = Some s1
      /\ take_nth k (submitting s1) = Some ((req, e), submitting s)
      /\ (forall correct, exists s2,
            step s1 (SubmitSettled k (Some correct)) = Some s2
            /\ decisionsCount s2 = (decisionsCount s + 1)%nat
            /\ correctCount s2
               = (correctCount s + if correct then 1 else 0)%nat)
      /\ exists s2,
            step s1 (SubmitSettled k (Some (scoring_service req))) = Some s2
            /\ decisionsCount s2 = (decisionsCount s + 1)%nat
            /\ (correctCount s2 = (correctCount s + 1)%nat
                <-> DecisionModal.label m = truth)
            /\ (DecisionModal.label m <> truth -> correctCount s2 = correctCount s)
            /\ selectedLog s2 = None /\ showModal s2 = false /\ modal s2 = None.
Proof.
  intros Hd k req truth.
  assert (Hcl : correct_label req = truth) by apply or_default_true_label.
  split; [reflexivity|]. split; [exact Hcl|].
  split.
  { intros l Hl Hne. rewrite Hcl. unfold truth, true_label. rewrite Hl.
    destruct l; [contradiction|reflexivity]. }
  split.
  { intros [Hl|Hl]; rewrite Hcl; unfold truth, true_label; rewrite Hl; reflexivity. }
  rewrite (submit_click_request s e m Hd).
  eexists. split; [reflexivity|].
  assert (Htake : take_nth k (submitting s ++ [(req, e)]) = Some ((req, e), submitting s))
    by apply take_nth_app_last.
  split; [exact Htake|].
  destruct Hd as [Hsm [Hsel Hmo]].
  break_state s. cbn in Hsm, Hsel, Hmo. subst sm sel mo.
  cbn [submitting set_submitting] in *.
  split.
  - intros correct. unfold set_submitting. cbn [step submitting].
    fold req. rewrite Htake.
    eexists. split; [reflexivity|].
    destruct correct; cbn; split; lia.
  - unfold set_submitting. cbn [step submitting]. fold req. rewrite Htake.
    eexists. split; [reflexivity|].
    unfold scoring_service.
    change (analyst_label req) with (DecisionModal.label m).
    rewrite Hcl.
    destruct (String.eqb_spec (DecisionModal.label m) truth) as [Heq|Hne]; cbn.
    + repeat split; try tauto; lia.
    + repeat split; try reflexivity; try lia; intros; try lia; try contradiction.
Qed.

(** The scenario of the specification: "phishing" submitted for a log whose
    true label is "phishing".  The request carries "phishing" twice, the
    service answers correct, and both counters go from 0 to 1. *)
Lemma phishing_submit_witness :
  let e := sample_log 7 "high" true (Some "phishing") in
  let req := submit_request e (DecisionModal.submit_args (DecisionModal.mount e)) in
  deciding (opened e sample_analysis) e (DecisionModal.mount e)
  /\ analyst_label req = "phishing"
  /\ correct_label req = "phishing"
  /\ exists s1 s2,
       step (opened e sample_analysis) SubmitClick = Some s1
       /\ map fst (submitting s1) = [req]
       /\ run (opened e sample_analysis)
            [SubmitClick; SubmitSettled 0 (Some true)] = Some s2
       /\ decisionsCount s2 = 1%nat /\ correctCount s2 = 1%nat.
Proof.
  intros e req.
  split; [apply opened_deciding|].
  destruct (successful_submit_counts (opened e sample_analysis) e
              (DecisionModal.mount e) (opened_deciding e sample_analysis))
    as [Ha [_ [Hl [_ [s1 [H1 [Ht [_ [s2 [H2 [H3 [H4 _]]]]]]]]]]]].
  split; [exact Ha|].
  split; [apply (Hl "phishing"); [reflexivity|discriminate]|].
  exists s1, s2. split; [exact H1|].
  split.
  { change (List.length (submitting (opened e sample_analysis))) with 0%nat in Ht.
    destruct (submitting s1) as [|[r x] rest]; [discriminate Ht|].
    cbn [take_nth] in Ht. injection Ht as -> _ ->. reflexivity. }
  cbn [run]. rewrite H1.
  change (scoring_service
            (submit_request e (DecisionModal.submit_args (DecisionModal.mount e))))
    with true in H2.
  change (List.length (submitting (opened e sample_analysis))) with 0%nat in H2.
  rewrite H2. split; [reflexivity|]. split; [exact H3|].
  apply H4. reflexivity.
Defined.

(** ** Rendering invariant

    After any handler has run, the form is mounted exactly when
    [showModal && selectedLog] holds. *)

Lemma render_idempotent (s : state) : rendered (render s).
Proof.
  break_state s. unfold rendered, render; cbn.
  destruct sm, sel as [l|], mo as [m|]; reflexivity.
Qed.

Lemma rendered_modal (s : state) (m : DecisionModal.state) :
  rendered s -> modal s = Some m ->
  showModal s = true /\ exists e, selectedLog s = Some e.
Proof.
  break_state s. unfold rendered, render; cbn. intros Hr Hm. subst mo.
  destruct sm, sel as [l|]; try discriminate; eauto.
Qed.

Lemma rendered_iff (s : state) :
  rendered s <-> form_open s = showModal s && has_selection s.
Proof.
  break_state s. unfold rendered, render, form_open, has_selection; cbn.
  destruct sm, sel as [l|], mo as [m|]; cbn; split; intros H;
    try reflexivity; try discriminate H.
Qed.

Lemma step_rendered (s s' : state) (ev : event) :
  rendered s -> step s ev = Some s' -> rendered s'.
Proof.
  intros Hr Hs. destruct ev; cbn [step] in Hs.
  - injection Hs as <-. unfold analyzeLog. apply render_idempotent.
  - destruct (take_nth k (analyzing s)) as [[? ?]|]; [|discriminate Hs].
    injection Hs as <-. unfold analyzeLog_settled. apply render_idempotent.
  - destruct (selectedLog s), (analysis s); try discriminate Hs.
    destruct (negb (analysing s) && negb (showModal s)); [|discriminate Hs].
    injection Hs as <-. apply render_idempotent.
  - destruct (modal s); [|discriminate Hs].
    injection Hs as <-. apply render_idempotent.
  - destruct (modal s) as [m|] eqn:Hm; [|discriminate Hs].
    destruct (in_list v DecisionModal.THREAT_LABELS); [|discriminate Hs].
    injection Hs as <-. apply rendered_iff in Hr. apply rendered_iff.
    break_state s. unfold form_open, has_selection in *. cbn in *.
    subst mo. exact Hr.
  - destruct (modal s) as [m|] eqn:Hm; [|discriminate Hs].
    destruct (in_list v DecisionModal.ACTIONS); [|discriminate Hs].
    injection Hs as <-. apply rendered_iff in Hr. apply rendered_iff.
    break_state s. unfold form_open, has_selection in *. cbn in *.
    subst mo. exact Hr.
  - destruct (modal s) as [m|] eqn:Hm; [|discriminate Hs].
    injection Hs as <-. apply rendered_iff in Hr. apply rendered_iff.
    break_state s. unfold form_open, has_selection in *. cbn in *.
    subst mo. exact Hr.
  - destruct (modal s) as [m|] eqn:Hm; [|discriminate Hs].
    injection Hs as <-. apply rendered_iff in Hr. apply rendered_iff.
    break_state s. unfold form_open, has_selection, submitDecision in *. cbn in *.
    destruct sel; exact Hr.
  - destruct (take_nth k (submitting s)) as [[? ?]|]; [|discriminate Hs].
    injection Hs as <-. unfold submitDecision_settled. apply render_idempotent.
  - injection Hs as <-. apply rendered_iff in Hr. apply rendered_iff.
    break_state s. unfold form_open, has_selection, fetchLogs in *. cbn in *.
    destruct pa; exact Hr.
  - destruct (fetching s) eqn:Hf; [discriminate Hs|]. injection Hs as <-.
    apply rendered_iff in Hr. apply rendered_iff.
    break_state s. unfold form_open, has_selection, fetchLogs_settled in *. cbn in *.
    destruct r; exact Hr.
  - injection Hs as <-. apply rendered_iff in Hr. apply rendered_iff.
    break_state s. unfold form_open, has_selection, togglePause, fetchLogs in *. cbn in *.
    destruct pa; exact Hr.
  - injection Hs as <-. apply rendered_iff in Hr. apply rendered_iff.
    break_state s. unfold form_open, has_selection in *. cbn in *.
    destruct mo; exact Hr.
Qed.

(** The invariant holds of the first render and of every state reached
    from it. *)
Lemma init_rendered : rendered init.
Proof. reflexivity. Qed.

Lemma run_rendered (s s' : state) (es : list event) :
  rendered s -> run s es = Some s' -> rendered s'.
Proof.
  revert s. induction es as [|ev es IH]; intros s Hr Hrun; cbn [run] in Hrun.
  - injection Hrun as <-. assumption.
  - destruct (step s ev) as [s1|] eqn:Hs; [|discriminate].
    eapply IH; [eapply step_rendered; eassumption|assumption].
Qed.

(** ** The decision timer *)

(** An event that opens the form opens it with the timer at 0. *)
Lemma form_opens_at_zero (s s' : state) (ev : event) (m : DecisionModal.state) :
  modal s = None -> step s ev = Some s' -> modal s' = Some m ->
  DecisionModal.elapsed m = 0%nat.
Proof.
  intros Hc Hs Hm. break_state s. cbn in Hc. subst mo.
  destruct ev; cbn in Hs; unfold analyzeLog, analyzeLog_settled, submitDecision_settled,
    render, fetchLogs_settled, togglePause, fetchLogs in Hs; cbn in Hs;
    repeat break_match; try discriminate;
    injection Hs as <-; cbn in Hm; try discriminate;
    injection Hm as <-; reflexivity.
Qed.

(** While the form stays open its timer moves by one on a tick and not at
    all on any other event. *)
Lemma form_timer_step (s s' : state) (ev : event) (m m' : DecisionModal.state) :
  rendered s -> modal s = Some m -> step s ev = Some s' -> modal s' = Some m' ->
  DecisionModal.elapsed m'
  = (DecisionModal.elapsed m + if is_tick ev then 1 else 0)%nat.
Proof.
  intros Hr Hm Hs Hm'.
  destruct (rendered_modal s m Hr Hm) as [Hsm [e He]].
  break_state s. cbn in Hm, Hsm, He. subst mo sm sel.
  destruct ev; cbn in Hs; unfold analyzeLog, analyzeLog_settled, submitDecision_settled,
    submitDecision, render, fetchLogs_settled, togglePause, fetchLogs in Hs; cbn in Hs;
    repeat break_match; try discriminate;
    injection Hs as <-; cbn in Hm'; try discriminate;
    injection Hm' as <-; cbn; lia.
Qed.

Lemma form_timer_run (s s' : state) (es : list event) (m : DecisionModal.state) :
  rendered s -> modal s = Some m ->
  stays_open s es = true -> run s es = Some s' ->
  exists m', modal s' = Some m'
    /\ DecisionModal.elapsed m' = (DecisionModal.elapsed m + seconds es)%nat.
Proof.
  revert s m. induction es as [|ev es IH]; intros s m Hr Hm Ho Hrun;
    cbn [run stays_open] in *.
  - injection Hrun as <-. exists m. split; [assumption|]. cbn. lia.
  - destruct (step s ev) as [s1|] eqn:Hs; [|discriminate].
    apply andb_prop in Ho. destruct Ho as [Ho1 Ho].
    unfold form_open in Ho1. destruct (modal s1) as [m1|] eqn:Hm1; [|discriminate].
    pose proof (form_timer_step s s1 ev m m1 Hr Hm Hs Hm1) as Hstep.
    destruct (IH s1 m1 (step_rendered _ _ _ Hr Hs) Hm1 Ho Hrun) as [m' [Hm' He]].
    exists m'. split; [assumption|].
    unfold seconds in *. cbn [filter]. destruct (is_tick ev); cbn [List.length]; lia.
Qed.

(** A state in which an event has just opened the form is a rendered one. *)
Lemma opening_step_rendered (s s' : state) (ev : event) (m : DecisionModal.state) :
  modal s = None -> step s ev = Some s' -> modal s' = Some m -> rendered s'.
Proof.
  intros Hc Hs Hm. destruct ev; cbn [step] in Hs; try rewrite Hc in Hs;
    try discriminate Hs.
  - injection Hs as <-. unfold analyzeLog. apply render_idempotent.
  - destruct (take_nth k (analyzing s)) as [[? ?]|]; [|discriminate Hs].
    injection Hs as <-. unfold analyzeLog_settled. apply render_idempotent.
  - destruct (selectedLog s), (analysis s); try discriminate Hs.
    destruct (negb (analysing s) && negb (showModal s)); [|discriminate Hs].
    injection Hs as <-. apply render_idempotent.
  - destruct (take_nth k (submitting s)) as [[? ?]|]; [|discriminate Hs].
    injection Hs as <-. unfold submitDecision_settled. apply render_idempotent.
  - injection Hs as <-. break_state s. unfold fetchLogs in Hm. cbn in *.
    destruct pa; cbn in Hm; congruence.
  - destruct (fetching s) eqn:Hf; [discriminate Hs|]. injection Hs as <-.
    break_state s. unfold fetchLogs_settled in Hm. cbn in *.
    destruct r; cbn in Hm; congruence.
  - injection Hs as <-. break_state s. unfold togglePause, fetchLogs in Hm. cbn in *.
    destruct pa; cbn in Hm; congruence.
  - injection Hs as <-. break_state s. cbn in *. subst mo. discriminate Hm.
Qed.

(** C3 (as amended). The decision timer belongs to the form: it is 0 when
    an event opens the form, it then grows by exactly one per second for as
    long as the form stays open, whatever else happens meanwhile, and the
    value a click on SUBMIT sends as [time_taken_sec] is the number of
    seconds since the form was opened. *)
Theorem timer_counts_from_form_opening
  (s0 s1 s : state) (ev : event) (es : list event) :
  modal s0 = None ->
  step s0 ev = Some s1 ->
  form_open s1 = true ->
  stays_open s1 es = true ->
  run s1 es = Some s ->
  (exists m1, modal s1 = Some m1 /\ DecisionModal.elapsed m1 = 0%nat)
  /\ exists m e,
      modal s = Some m /\ selectedLog s = Some e
      /\ DecisionModal.elapsed m = seconds es
      /\ step s SubmitClick
         = Some (set_submitting
                   (submitting s
                      ++ [(submit_request e (DecisionModal.submit_args m), e)]) s)
      /\ time_taken_sec (submit_request e (DecisionModal.submit_args m))
         = seconds es.
Proof.
  intros Hc Hs Ho1 Ho Hrun.
  unfold form_open in Ho1. destruct (modal s1) as [m1|] eqn:Hm1; [|discriminate].
  pose proof (form_opens_at_zero s0 s1 ev m1 Hc Hs Hm1) as Hz.
  split; [exists m1; split; [reflexivity|assumption]|].
  pose proof (opening_step_rendered s0 s1 ev m1 Hc Hs Hm1) as Hr1.
  destruct (form_timer_run s1 s es m1 Hr1 Hm1 Ho Hrun) as [m [Hm He]].
  rewrite Hz in He. cbn in He.
  destruct (rendered_modal s m (run_rendered _ _ _ Hr1 Hrun) Hm) as [Hsm [e Hsel]].
  exists m, e. repeat split; try assumption.
  apply submit_click_request. repeat split; assumption.
Qed.

(** C3 as stated fails: the log is selected, two seconds pass before its
    analysis arrives and the form opens, three more pass before SUBMIT is
    clicked; five seconds after the selection the value sent is 3. *)
Lemma timer_not_from_select :
  let e := sample_log 7 "high" true (Some "phishing") in
  let after_select := [Tick; Tick; AnalyzeSettled 0 (Some sample_analysis);
                      Tick; Tick; Tick; SubmitClick] in
  seconds after_select = 5%nat
  /\ (exists s, run init (Select e :: after_select) = Some s
        /\ map (fun c => time_taken_sec (fst c)) (submitting s) = [3%nat])
  /\ ~ sent_since_select e after_select.
Proof.
  intros e after_select. split; [reflexivity|]. split.
  - eexists. split; [vm_compute; reflexivity|]. vm_compute. reflexivity.
  - unfold sent_since_select. intros H.
    remember (run init (Select e :: after_select)) as r eqn:Hr.
    vm_compute in Hr. subst r.
    specialize (H _ _ eq_refl (or_introl eq_refl)).
    vm_compute in H. discriminate H.
Qed.

(** The form opens on the reply to the analyze call; three seconds and two
    other events later its timer reads 3. *)
Lemma timer_witness :
  let e := sample_log 7 "high" true (Some "phishing") in
  let s0 := analyzeLog e init in
  let ev := AnalyzeSettled 0 (Some sample_analysis) in
  let es := [Tick; SetNotes "seen before"; Tick; PollTick; Tick] in
  modal s0 = None
  /\ exists s1 s,
       step s0 ev = Some s1
       /\ run s1 es = Some s
       /\ exists m, modal s = Some m /\ DecisionModal.elapsed m = 3%nat.
Proof.
  intros e s0 ev es. split; [vm_compute; reflexivity|].
  eexists. eexists.
  split; [vm_compute; reflexivity|]. split; [vm_compute; reflexivity|].
  match goal with
  | |- exists m, modal ?s = _ /\ _ =>
      destruct (timer_counts_from_form_opening s0 _ s ev es
                  ltac:(vm_compute; reflexivity) ltac:(vm_compute; reflexivity)
                  ltac:(vm_compute; reflexivity) ltac:(vm_compute; reflexivity)
                  ltac:(vm_compute; reflexivity))
        as [_ [m [_ [Hm [_ [He _]]]]]]
  end.
  exists m. split; [exact Hm|exact He].
Defined.

(** ** The default classification *)

Lemma default_kept_render (s : state) :
  default_kept s -> default_kept (render s).
Proof.
  intros Hd e m He Hm. break_state s. unfold default_kept, render in *. cbn in *.
  destruct sm; [destruct sel as [l|]; [destruct mo as [m0|]|]|]; cbn in *;
    try discriminate Hm.
  - apply Hd; assumption.
  - injection He as <-. injection Hm as <-. reflexivity.
Qed.

Lemma default_kept_same (s x : state) :
  default_kept s -> same_choice s x -> default_kept x.
Proof.
  intros Hd [Hsel Hlab] e m He Hm. rewrite Hsel in He. rewrite Hm in Hlab.
  destruct (modal s) as [m0|] eqn:Hm0; [|discriminate Hlab].
  cbn in Hlab. injection Hlab as ->. apply Hd; assumption.
Qed.

Lemma default_kept_step (s s' : state) (ev : event) :
  default_kept s -> keeps_default s ev = true -> step s ev = Some s' ->
  default_kept s'.
Proof.
  intros Hd Hk Hs. destruct ev; cbn [keeps_default] in Hk; try discriminate Hk;
    cbn [step] in Hs.
  - injection Hs as <-. unfold analyzeLog. apply default_kept_render.
    intros e m He Hm. unfold form_open in Hk. break_state s. cbn in *.
    subst mo. discriminate Hk.
  - destruct (take_nth k (analyzing s)) as [[? l]|]; [|discriminate Hs].
    injection Hs as <-. unfold analyzeLog_settled. apply default_kept_render.
    apply (default_kept_same s); [assumption|].
    break_state s. destruct r; split; reflexivity.
  - destruct (selectedLog s) eqn:?, (analysis s); try discriminate Hs.
    destruct (negb (analysing s) && negb (showModal s)); [|discriminate Hs].
    injection Hs as <-. apply default_kept_render.
    apply (default_kept_same s); [assumption|].
    break_state s. split; reflexivity.
  - destruct (modal s) eqn:?; [|discriminate Hs].
    injection Hs as <-. apply default_kept_render.
    apply (default_kept_same s); [assumption|].
    break_state s. split; reflexivity.
  - destruct (modal s) as [m|] eqn:Hm; [|discriminate Hs].
    destruct (in_list v DecisionModal.ACTIONS); [|discriminate Hs].
    injection Hs as <-. apply (default_kept_same s); [assumption|].
    break_state s. cbn in Hm. subst mo. split; reflexivity.
  - destruct (modal s) as [m|] eqn:Hm; [|discriminate Hs].
    injection Hs as <-. apply (default_kept_same s); [assumption|].
    break_state s. cbn in Hm. subst mo. split; reflexivity.
  - destruct (modal s) as [m|] eqn:Hm; [|discriminate Hs].
    injection Hs as <-. apply (default_kept_same s); [assumption|].
    break_state s. unfold submitDecision. cbn. destruct sel; split; reflexivity.
  - destruct (take_nth k (submitting s)) as [[? l]|]; [|discriminate Hs].
    injection Hs as <-. unfold submitDecision_settled. apply default_kept_render.
    destruct r as [correct|].
    + intros e m He Hm. break_state s. destruct correct; discriminate He.
    + apply (default_kept_same s); [assumption|].
      break_state s. split; reflexivity.
  - injection Hs as <-. apply (default_kept_same s); [assumption|].
    break_state s. unfold fetchLogs. cbn. destruct pa; split; reflexivity.
  - destruct (fetching s) eqn:Hf; [discriminate Hs|]. injection Hs as <-.
    apply (default_kept_same s); [assumption|].
    break_state s. destruct r; split; reflexivity.
  - injection Hs as <-. apply (default_kept_same s); [assumption|].
    break_state s. unfold togglePause, fetchLogs. cbn. destruct pa; split; reflexivity.
  - injection Hs as <-. apply (default_kept_same s); [assumption|].
    break_state s. cbn. destruct mo; split; reflexivity.
Qed.

Lemma default_kept_run (s s' : state) (es : list event) :
  default_kept s -> untouched s es = true -> run s es = Some s' ->
  default_kept s'.
Proof.
  revert s. induction es as [|ev es IH]; intros s Hd Hu Hrun;
    cbn [run untouched] in *.
  - injection Hrun as <-. assumption.
  - apply andb_prop in Hu. destruct Hu as [Hk Hu].
    destruct (step s ev) as [s1|] eqn:Hs; [|discriminate].
    eapply IH; [eapply default_kept_step; eassumption|assumption|assumption].
Qed.

(** C10 (as amended). A form opened on a log starts with that log's true
    label as its classification: the threat label itself when the log has
    one, "brute_force" when it has none or an empty one; the request a
    submit sends carries the true label of the log selected at that moment
    as [correct_label].  So from any state with the form closed, through
    any events that never set the label and select no other log while the
    form is open, a click on SUBMIT sends an [analyst_label] equal to its
    [correct_label]. *)
Theorem default_label_is_correct_label
  (s0 s : state) (es : list event) (e : Log) (m : DecisionModal.state) :
  modal s0 = None ->
  untouched s0 es = true ->
  run s0 es = Some s ->
  selectedLog s = Some e ->
  modal s = Some m ->
  DecisionModal.label (DecisionModal.mount e) = true_label e
  /\ (forall l, threat_label e = Some l -> l <> "" ->
      DecisionModal.label (DecisionModal.mount e) = l)
  /\ (threat_label e = None \/ threat_label e = Some "" ->
      DecisionModal.label (DecisionModal.mount e) = "brute_force")
  /\ DecisionModal.label m = DecisionModal.label (DecisionModal.mount e)
  /\ exists s1 req,
       step s SubmitClick = Some s1
       /\ submitting s1 = submitting s ++ [(req, e)]
       /\ req = submit_request e (DecisionModal.submit_args m)
       /\ correct_label req = true_label e
       /\ analyst_label req = true_label e
       /\ analyst_label req = correct_label req.
Proof.
  intros Hc Hu Hrun He Hm.
  assert (Hd0 : default_kept s0).
  { intros e0 m0 _ Hm0. rewrite Hc in Hm0. discriminate. }
  pose proof (default_kept_run s0 s es Hd0 Hu Hrun e m He Hm) as Hl.
  pose proof (or_default_true_label e) as Ht.
  split; [exact Ht|].
  split.
  { intros l Hlab Hne. cbn [DecisionModal.mount DecisionModal.label]. rewrite Ht.
    unfold true_label. rewrite Hlab. destruct l; [contradiction|reflexivity]. }
  split.
  { intros [Hlab|Hlab]; cbn [DecisionModal.mount DecisionModal.label]; rewrite Ht;
      unfold true_label; rewrite Hlab; reflexivity. }
  split; [exact Hl|].
  exists (set_submitting
            (submitting s ++ [(submit_request e (DecisionModal.submit_args m), e)]) s),
         (submit_request e (DecisionModal.submit_args m)).
  split.
  - cbn [step]. rewrite Hm. unfold submitDecision. rewrite He. reflexivity.
  - split; [break_state s; reflexivity|]. split; [reflexivity|].
    split; [exact Ht|].
    split; [cbn; rewrite Hl; exact Ht|cbn; exact Hl].
Qed.

(** C10 as stated fails.  The handler of a click on a log runs in every
    state: with the form open on a log labelled "phishing", a log labelled
    "ddos" is selected; the form stays mounted and keeps its
    classification, and the untouched default is submitted as "phishing"
    against the correct label "ddos". *)
Lemma default_not_always_correct :
  let X := sample_log 7 "high" true (Some "phishing") in
  let Y := sample_log 8 "low" false (Some "ddos") in
  let es := [Select X; AnalyzeSettled 0 (Some sample_analysis); Select Y; SubmitClick] in
  never_sets_label es = true
  /\ (exists s,
        run init es = Some s
        /\ map (fun c => (analyst_label (fst c), correct_label (fst c), log_id (snd c)))
             (submitting s)
           = [("phishing", "ddos", 8)])
  /\ ~ default_always_correct.
Proof.
  intros X Y es. split; [reflexivity|]. split.
  - eexists. split; [vm_compute; reflexivity|]. vm_compute. reflexivity.
  - intros H.
    remember (run init es) as r eqn:Hr. vm_compute in Hr.
    match type of Hr with
    | r = Some ?t => specialize (H es t)
    end.
    subst r.
    specialize (H _ _ eq_refl eq_refl (or_introl eq_refl)).
    vm_compute in H. discriminate H.
Qed.

(** Two runs that keep the default.  For a log labelled "ddos" the form is
    opened and the label sent is "ddos", as is the correct label.  For a
    log without a threat label the form is opened, closed and opened
    again, the action is changed, and both labels sent are "brute_force". *)
Lemma default_label_witness :
  let d := sample_log 8 "low" false (Some "ddos") in
  let e := sample_log 7 "high" true None in
  let ds := [Select d; AnalyzeSettled 0 (Some sample_analysis); Tick] in
  let es := [Select e; Tick; AnalyzeSettled 0 (Some sample_analysis);
             SetAction "escalate"; Tick; CloseForm; OpenForm; Tick] in
  (untouched init ds = true
   /\ exists s s1 req,
        run init ds = Some s
        /\ step s SubmitClick = Some s1
        /\ submitting s1 = submitting s ++ [(req, d)]
        /\ analyst_label req = "ddos"
        /\ correct_label req = "ddos")
  /\ untouched init es = true
  /\ exists s s1 req,
       run init es = Some s
       /\ step s SubmitClick = Some s1
       /\ submitting s1 = submitting s ++ [(req, e)]
       /\ correct_label req = "brute_force"
       /\ analyst_label req = correct_label req.
Proof.
  intros d e ds es. split; [|split].
  - split; [vm_compute; reflexivity|].
    assert (Hrun : run init ds
                   = Some (set_modal (Some (DecisionModal.tick (DecisionModal.mount d)))
                             (set_elapsed 1 (opened d sample_analysis))))
      by (vm_compute; reflexivity).
    destruct (default_label_is_correct_label init _ ds d
                (DecisionModal.tick (DecisionModal.mount d))
                eq_refl ltac:(vm_compute; reflexivity) Hrun
                ltac:(vm_compute; reflexivity) ltac:(vm_compute; reflexivity))
      as [_ [_ [_ [_ [s1 [req [H1 [H2 [_ [H4 [H5 _]]]]]]]]]]].
    eexists. exists s1, req. split; [exact Hrun|]. split; [exact H1|].
    split; [exact H2|]. split; [rewrite H5; reflexivity|rewrite H4; reflexivity].
  - vm_compute. reflexivity.
  - assert (Hrun : run init es
                   = Some (set_modal (Some (DecisionModal.tick (DecisionModal.mount e)))
                             (set_elapsed 3 (opened e sample_analysis))))
      by (vm_compute; reflexivity).
    destruct (default_label_is_correct_label init _ es e
                (DecisionModal.tick (DecisionModal.mount e))
                eq_refl ltac:(vm_compute; reflexivity) Hrun
                ltac:(vm_compute; reflexivity) ltac:(vm_compute; reflexivity))
      as [_ [_ [_ [_ [s1 [req [H1 [H2 [_ [H4 [_ H6]]]]]]]]]]].
    eexists. exists s1, req. split; [exact Hrun|]. split; [exact H1|].
    split; [exact H2|]. split; [rewrite H4; reflexivity|exact H6].
Defined.

(** ** Selecting a log while an analysis is in flight *)

Lemma take_nth_app {A : Type} (l r : list A) (x : A) :
  take_nth (List.length l) (l ++ x :: r) = Some (x, l ++ r).
Proof.
  induction l as [|y l IH]; cbn [List.length app take_nth].
  - reflexivity.
  - rewrite IH. reflexivity.
Qed.

Lemma take_nth_app_next {A : Type} (l : list A) (x y : A) :
  take_nth (S (List.length l)) (l ++ [x; y]) = Some (y, l ++ [x]).
Proof.
  replace (S (List.length l)) with (List.length (l ++ [x]))
    by (rewrite length_app; cbn; lia).
  replace (l ++ [x; y]) with ((l ++ [x]) ++ [y])
    by (rewrite <- app_assoc; reflexivity).
  apply take_nth_app_last.
Qed.

(** C1 as stated fails: with Y selected while X's call is pending, the
    reply to X's call becomes the analysis shown, and opens the form, for
    Y. *)
Lemma stale_reply_attached :
  let X := sample_log 1 "high" true (Some "phishing") in
  let Y := sample_log 2 "low" false (Some "ddos") in
  (exists s,
     run init [Select X; Select Y; AnalyzeSettled 0 (Some sample_analysis)] = Some s
     /\ selectedLog s = Some Y
     /\ analysis s = Some sample_analysis
     /\ modal s = Some (DecisionModal.mount Y)
     /\ analyzing s = [analyze_request Y])
  /\ ~ stale_reply_dropped X Y sample_analysis.
Proof.
  intros X Y. split.
  - eexists. split; [vm_compute; reflexivity|].
    repeat split; vm_compute; reflexivity.
  - unfold stale_reply_dropped. intros H.
    remember (run init [Select X; Select Y; AnalyzeSettled 0 (Some sample_analysis)])
      as r eqn:Hr.
    vm_compute in Hr. subst r.
    apply (H _ eq_refl). split; vm_compute; reflexivity.
Qed.

(** What the synchronous part of [analyzeLog] leaves behind. *)
Lemma analyzeLog_fields (log : Log) (s : state) :
  selectedLog (analyzeLog log s) = Some log
  /\ analysis (analyzeLog log s) = None
  /\ analysing (analyzeLog log s) = true
  /\ analyzing (analyzeLog log s) = analyzing s ++ [analyze_request log]
  /\ toasts (analyzeLog log s) = toasts s.
Proof.
  break_state s. unfold analyzeLog, render. cbn.
  destruct sm, mo; cbn; repeat split; reflexivity.
Qed.

(** What a successful reply to a pending analyze call leaves behind. *)
Lemma analyze_success_fields
  (s : state) (k : nat) (req : AnalyzeThreat) (rest : list AnalyzeThreat)
  (d : Analysis) :
  take_nth k (analyzing s) = Some (req, rest) ->
  exists s',
    step s (AnalyzeSettled k (Some d)) = Some s'
    /\ selectedLog s' = selectedLog s
    /\ analysis s' = Some d
    /\ showModal s' = true
    /\ form_open s' = has_selection s
    /\ analysing s' = false
    /\ analyzing s' = rest
    /\ toasts s' = toasts s.
Proof.
  intros Ht. cbn [step]. rewrite Ht. eexists. split; [reflexivity|].
  break_state s. unfold analyzeLog_settled, render, form_open, has_selection. cbn.
  destruct sel, mo; cbn; repeat split; reflexivity.
Qed.

(** What a failed analyze call leaves behind. *)
Lemma analyze_failure_fields
  (s : state) (k : nat) (req : AnalyzeThreat) (rest : list AnalyzeThreat) :
  take_nth k (analyzing s) = Some (req, rest) ->
  exists s',
    step s (AnalyzeSettled k None) = Some s'
    /\ selectedLog s' = selectedLog s
    /\ analysis s' = analysis s
    /\ showModal s' = showModal s
    /\ analysing s' = false
    /\ analyzing s' = rest
    /\ toasts s' = toasts s ++ [AnalysisFailed].
Proof.
  intros Ht. cbn [step]. rewrite Ht. eexists. split; [reflexivity|].
  break_state s. unfold analyzeLog_settled, render. cbn.
  destruct sm, sel, mo; cbn; repeat split; reflexivity.
Qed.

(** C1 (as amended). Selecting Y while X's analyze call is pending makes Y
    the selected log and clears the analysis at once, with both calls left
    pending.  The earlier call is not abandoned: when it succeeds, its
    reply becomes the analysis, and the form is open, while Y is selected;
    the reply to Y's call then replaces it, and if Y's reply came first it
    is X's reply that replaces Y's.  When X's call fails nothing is
    attached and a notification is shown. *)
Theorem select_does_not_abandon_pending_analysis
  (s : state) (X Y : Log) (dX dY : Analysis) :
  let k := List.length (analyzing s) in
  exists s2,
    run s [Select X; Select Y] = Some s2
    /\ selectedLog s2 = Some Y
    /\ analysis s2 = None
    /\ analysing s2 = true
    /\ analyzing s2 = analyzing s ++ [analyze_request X; analyze_request Y]
    /\ (exists s3,
          step s2 (AnalyzeSettled k (Some dX)) = Some s3
          /\ selectedLog s3 = Some Y
          /\ analysis s3 = Some dX
          /\ showModal s3 = true
          /\ form_open s3 = true
          /\ analysing s3 = false
          /\ analyzing s3 = analyzing s ++ [analyze_request Y]
          /\ exists s4,
               step s3 (AnalyzeSettled k (Some dY)) = Some s4
               /\ selectedLog s4 = Some Y /\ analysis s4 = Some dY)
    /\ (exists s3,
          run s2 [AnalyzeSettled (S k) (Some dY); AnalyzeSettled k (Some dX)] = Some s3
          /\ selectedLog s3 = Some Y /\ analysis s3 = Some dX)
    /\ (exists s3,
          step s2 (AnalyzeSettled k None) = Some s3
          /\ selectedLog s3 = Some Y
          /\ analysis s3 = None
          /\ toasts s3 = toasts s ++ [AnalysisFailed]).
Proof.
  intros k.
  destruct (analyzeLog_fields X s) as [_ [_ [_ [Haz1 Hts1]]]].
  destruct (analyzeLog_fields Y (analyzeLog X s)) as [Hsel [Han [Hang [Haz2 Hts2]]]].
  rewrite Haz1, <- app_assoc in Haz2. cbn [app] in Haz2. rewrite Hts1 in Hts2.
  set (s2 := analyzeLog Y (analyzeLog X s)) in *.
  exists s2. split; [reflexivity|].
  split; [exact Hsel|]. split; [exact Han|]. split; [exact Hang|].
  split; [exact Haz2|].
  assert (Hx : take_nth k (analyzing s2)
               = Some (analyze_request X, analyzing s ++ [analyze_request Y])).
  { rewrite Haz2. apply take_nth_app. }
  assert (Hy : take_nth (S k) (analyzing s2)
               = Some (analyze_request Y, analyzing s ++ [analyze_request X])).
  { rewrite Haz2. apply take_nth_app_next. }
  split; [|split].
  - destruct (analyze_success_fields s2 k _ _ dX Hx)
      as [s3 [H1 [H2 [H3 [H4 [H5 [H6 [H7 _]]]]]]]].
    exists s3. split; [exact H1|]. rewrite H2, Hsel.
    split; [reflexivity|]. split; [exact H3|]. split; [exact H4|].
    split; [rewrite H5; unfold has_selection; rewrite Hsel; reflexivity|].
    split; [exact H6|]. split; [exact H7|].
    assert (Hy3 : take_nth k (analyzing s3) = Some (analyze_request Y, analyzing s)).
    { rewrite H7. apply take_nth_app_last. }
    destruct (analyze_success_fields s3 k _ _ dY Hy3) as [s4 [G1 [G2 [G3 _]]]].
    exists s4. split; [exact G1|]. rewrite G2, H2, Hsel. split; [reflexivity|exact G3].
  - destruct (analyze_success_fields s2 (S k) _ _ dY Hy)
      as [s3 [H1 [H2 [_ [_ [_ [_ [H7 _]]]]]]]].
    assert (Hx3 : take_nth k (analyzing s3) = Some (analyze_request X, analyzing s)).
    { rewrite H7. apply take_nth_app_last. }
    destruct (analyze_success_fields s3 k _ _ dX Hx3) as [s4 [G1 [G2 [G3 _]]]].
    exists s4. cbn [run]. rewrite H1, G1.
    split; [reflexivity|]. rewrite G2, H2, Hsel. split; [reflexivity|exact G3].
  - destruct (analyze_failure_fields s2 k _ _ Hx) as [s3 [H1 [H2 [H3 [_ [_ [_ H7]]]]]]].
    exists s3. split; [exact H1|]. rewrite H2, H3, H7, Hsel, Han, Hts2.
    repeat split; reflexivity.
Qed.

(** ** Threat distribution *)

Lemma tally_bump_all (l : list Log) (acc : Js.obj) :
  fold_left tally l acc = bump_all (labels l) acc.
Proof.
  revert acc. induction l as [|x l IH]; intros acc; cbn [fold_left labels].
  - reflexivity.
  - rewrite IH. unfold tally, counted, Js.truthy_string, Js.strict_eq.
    destruct (threat_label x) as [k|]; [|reflexivity].
    destruct (negb (k =? "")%string && negb (k =? "benign")%string); reflexivity.
Qed.

Lemma first_seen_In (ks : list string) (k : string) :
  In k (first_seen ks) <-> In k ks.
Proof.
  induction ks as [|a ks IH]; cbn [first_seen]; [tauto|].
  cbn [In]. rewrite filter_In, IH.
  destruct (String.eqb_spec k a) as [->|Hne]; cbn; intuition congruence.
Qed.

Lemma first_seen_NoDup (ks : list string) : NoDup (first_seen ks).
Proof.
  induction ks as [|a ks IH]; cbn [first_seen]; constructor.
  - rewrite filter_In. rewrite String.eqb_refl. cbn. intros [_ H]. discriminate H.
  - apply NoDup_filter. assumption.
Qed.

Lemma first_seen_snoc_new (ks : list string) (k : string) :
  ~ In k ks -> first_seen (ks ++ [k]) = first_seen ks ++ [k].
Proof.
  induction ks as [|a ks IH]; intros Hin; cbn [app first_seen]; [reflexivity|].
  cbn [In] in Hin. rewrite IH by tauto.
  rewrite filter_app. cbn [filter].
  destruct (String.eqb_spec k a) as [->|Hne]; [tauto|]. reflexivity.
Qed.

Lemma first_seen_snoc_old (ks : list string) (k : string) :
  In k ks -> first_seen (ks ++ [k]) = first_seen ks.
Proof.
  induction ks as [|a ks IH]; intros Hin; cbn [app first_seen]; [destruct Hin|].
  f_equal. destruct (in_dec string_dec k ks) as [Hk|Hk].
  - rewrite IH by assumption. reflexivity.
  - destruct Hin as [->|Hin]; [|tauto].
    rewrite first_seen_snoc_new by assumption.
    rewrite filter_app. cbn [filter]. rewrite String.eqb_refl. cbn [negb].
    apply app_nil_r.
Qed.

Lemma times_snoc (ks : list string) (k k' : string) :
  times (ks ++ [k]) k' = times ks k' + (if (k =? k')%string then 1 else 0).
Proof.
  unfold times. rewrite count_occ_app. cbn [count_occ].
  destruct (string_dec k k') as [->|Hne].
  - rewrite String.eqb_refl. lia.
  - destruct (String.eqb_spec k k'); [congruence|]. lia.
Qed.

(** Bumping a key of a table with distinct keys. *)
Lemma bump_present (f : string -> Z) (ks : list string) (k : string) :
  NoDup ks -> In k ks ->
  Js.bump k (map (fun x => (x, f x)) ks)
  = map (fun x => (x, f x + (if (k =? x)%string then 1 else 0))) ks.
Proof.
  induction ks as [|a ks IH]; intros Hnd Hin; [destruct Hin|].
  inversion Hnd as [|? ? Ha Hnd']; subst. cbn [map Js.bump].
  destruct (String.eqb_spec a k) as [->|Hne].
  - rewrite String.eqb_refl. f_equal.
    + f_equal. destruct (Z.eqb_spec (f k) 0) as [->|_]; reflexivity.
    + apply map_ext_in. intros x Hx.
      destruct (String.eqb_spec k x) as [->|_]; [tauto|]. f_equal. lia.
  - destruct (String.eqb_spec k a) as [->|_]; [congruence|].
    destruct Hin as [->|Hin]; [congruence|].
    rewrite IH by assumption. f_equal. f_equal. lia.
Qed.

Lemma bump_absent (f : string -> Z) (ks : list string) (k : string) :
  ~ In k ks ->
  Js.bump k (map (fun x => (x, f x)) ks) = map (fun x => (x, f x)) ks ++ [(k, 1)].
Proof.
  induction ks as [|a ks IH]; intros Hin; cbn [map Js.bump app]; [reflexivity|].
  cbn [In] in Hin. destruct (String.eqb_spec a k) as [->|Hne]; [tauto|].
  rewrite IH by tauto. reflexivity.
Qed.

Lemma bump_groups (ks : list string) (k : string) :
  Js.bump k (groups ks) = groups (ks ++ [k]).
Proof.
  unfold groups. destruct (in_dec string_dec k ks) as [Hin|Hin].
  - rewrite first_seen_snoc_old by assumption.
    rewrite bump_present by (try apply first_seen_NoDup; apply first_seen_In; assumption).
    apply map_ext. intros x. rewrite times_snoc. reflexivity.
  - rewrite first_seen_snoc_new by assumption.
    rewrite bump_absent by (rewrite first_seen_In; assumption).
    rewrite map_app. cbn [map]. f_equal.
    + apply map_ext_in. intros x Hx. rewrite times_snoc.
      destruct (String.eqb_spec k x) as [->|_].
      * apply (proj1 (first_seen_In _ _)) in Hx. tauto.
      * f_equal. lia.
    + rewrite times_snoc, String.eqb_refl. unfold times.
      rewrite (proj1 (count_occ_not_In string_dec ks k) Hin). reflexivity.
Qed.

(** The reducer builds the table of the distinct contributed labels, in
    first-seen order, each with its number of occurrences. *)
Lemma tally_groups (l : list Log) : fold_left tally l [] = groups (labels l).
Proof.
  rewrite tally_bump_all. generalize (labels l). intros ks.
  induction ks as [|k ks IH] using rev_ind.
  - reflexivity.
  - unfold bump_all in *. rewrite fold_left_app. cbn [fold_left].
    rewrite IH. apply bump_groups.
Qed.

(** *** The sort *)

Section SortFacts.

Context {A : Type} (key : A -> Z).

Lemma insert_perm (x : A) (l : list A) : Permutation (Js.insert (desc key) x l) (x :: l).
Proof.
  induction l as [|y l IH]; cbn [Js.insert]; [reflexivity|].
  destruct (desc key x y <=? 0); [reflexivity|].
  rewrite IH. apply perm_swap.
Qed.

Lemma sort_perm (l : list A) : Permutation (Js.sort (desc key) l) l.
Proof.
  induction l as [|x l IH]; cbn [Js.sort]; [reflexivity|].
  rewrite insert_perm. constructor. exact IH.
Qed.

Lemma insert_sorted (x : A) (l : list A) :
  StronglySorted (not_below key) l -> StronglySorted (not_below key) (Js.insert (desc key) x l).
Proof.
  induction 1 as [|y l Hs IH Hy]; cbn [Js.insert].
  - repeat constructor.
  - unfold desc at 1. destruct (Z.leb_spec (key y - key x) 0) as [Hle|Hgt].
    + constructor; [constructor; assumption|].
      constructor; [unfold not_below; lia|].
      rewrite Forall_forall in *. intros z Hz. specialize (Hy z Hz).
      unfold not_below in *. lia.
    + constructor; [assumption|].
      apply (Permutation_Forall (Permutation_sym (insert_perm x l))).
      constructor; [unfold not_below; lia|assumption].
Qed.

Lemma sort_sorted (l : list A) : StronglySorted (not_below key) (Js.sort (desc key) l).
Proof.
  induction l as [|x l IH]; cbn [Js.sort]; [constructor|].
  apply insert_sorted. exact IH.
Qed.

(** Stability: elements with the same key keep their relative order. *)
Lemma insert_stable (c : Z) (x : A) (l : list A) :
  filter (fun a => key a =? c) (Js.insert (desc key) x l)
  = filter (fun a => key a =? c) (x :: l).
Proof.
  induction l as [|y l IH]; cbn [Js.insert]; [reflexivity|].
  unfold desc at 1. destruct (Z.leb_spec (key y - key x) 0) as [Hle|Hgt]; [reflexivity|].
  cbn [filter] in *. rewrite IH.
  destruct (Z.eqb_spec (key x) c) as [Hx|Hx];
    destruct (Z.eqb_spec (key y) c) as [Hy|Hy]; try reflexivity.
  lia.
Qed.

Lemma sort_stable (c : Z) (l : list A) :
  filter (fun a => key a =? c) (Js.sort (desc key) l) = filter (fun a => key a =? c) l.
Proof.
  induction l as [|x l IH]; cbn [Js.sort]; [reflexivity|].
  rewrite insert_stable. cbn [filter]. rewrite IH. reflexivity.
Qed.

End SortFacts.

(** *** The order of own keys *)

Lemma insert_index_perm (e : N * (string * Z)) (l : list (N * (string * Z))) :
  Permutation (Js.insert_index e l) (e :: l).
Proof.
  induction l as [|y l IH]; cbn [Js.insert_index]; [reflexivity|].
  destruct (fst e <=? fst y)%N; [reflexivity|].
  rewrite IH. apply perm_swap.
Qed.

Lemma insert_index_sorted (e : N * (string * Z)) (l : list (N * (string * Z))) :
  StronglySorted tag_le l -> StronglySorted tag_le (Js.insert_index e l).
Proof.
  induction 1 as [|y l Hs IH Hy]; cbn [Js.insert_index].
  - repeat constructor.
  - destruct (N.leb_spec (fst e) (fst y)) as [Hle|Hgt].
    + constructor; [constructor; assumption|].
      constructor; [exact Hle|].
      rewrite Forall_forall in *. intros z Hz. specialize (Hy z Hz).
      unfold tag_le in *. lia.
    + constructor; [assumption|].
      apply (Permutation_Forall (Permutation_sym (insert_index_perm e l))).
      constructor; [unfold tag_le; lia|assumption].
Qed.

Lemma index_entries_perm (o : Js.obj) :
  Permutation (map snd (Js.index_entries o))
              (filter (fun kv => Js.is_index (fst kv)) o).
Proof.
  induction o as [|kv o IH]; cbn [Js.index_entries filter]; [reflexivity|].
  unfold Js.is_index at 1. destruct (Js.array_index (fst kv)) as [n|].
  - rewrite (Permutation_map snd (insert_index_perm (n, kv) (Js.index_entries o))).
    cbn [map snd]. constructor. exact IH.
  - exact IH.
Qed.

Lemma index_entries_sorted (o : Js.obj) : StronglySorted tag_le (Js.index_entries o).
Proof.
  induction o as [|kv o IH]; cbn [Js.index_entries]; [constructor|].
  destruct (Js.array_index (fst kv)) as [n|]; [|exact IH].
  apply insert_index_sorted. exact IH.
Qed.

Lemma index_entries_tagged (o : Js.obj) : Forall tagged_ok (Js.index_entries o).
Proof.
  induction o as [|kv o IH]; cbn [Js.index_entries]; [constructor|].
  destruct (Js.array_index (fst kv)) as [n|] eqn:Hn; [|exact IH].
  apply (Permutation_Forall (Permutation_sym (insert_index_perm _ _))).
  constructor; [exact Hn|exact IH].
Qed.

Lemma sorted_tags_keys (l : list (N * (string * Z))) :
  Forall tagged_ok l -> StronglySorted tag_le l ->
  StronglySorted index_le (map (fun e => fst (snd e)) l).
Proof.
  intros Ht Hs. induction Hs as [|e l Hs IH He]; cbn [map]; [constructor|].
  inversion Ht as [|? ? Hte Htl]; subst.
  constructor; [apply IH; assumption|].
  rewrite Forall_map. rewrite Forall_forall in *. intros z Hz.
  specialize (He z Hz). specialize (Htl z Hz).
  unfold index_le, tagged_ok, tag_le in *. rewrite Hte, Htl. exact He.
Qed.

(** The entries of a table that holds one pair [(k, f k)] per key of [ks]
    come in the own-key order of [ks]. *)
Lemma Object_entries_order (f : string -> Z) (ks : list string) :
  exists order,
    own_key_order ks order
    /\ Js.Object_entries (map (fun k => (k, f k)) ks) = map (fun k => (k, f k)) order.
Proof.
  set (g := fun k => (k, f k)).
  set (o := map g ks).
  set (idx := map (fun e => fst (snd e)) (Js.index_entries o)).
  assert (Hfi : filter (fun kv => Js.is_index (fst kv)) o = map g (filter Js.is_index ks)).
  { unfold o. clear. induction ks as [|k ks IH]; cbn [map filter fst]; [reflexivity|].
    unfold g at 1. cbn [fst]. destruct (Js.is_index k); cbn [map]; rewrite IH; reflexivity. }
  assert (Hfn : filter (fun kv => negb (Js.is_index (fst kv))) o
                = map g (filter (fun k => negb (Js.is_index k)) ks)).
  { unfold o. clear. induction ks as [|k ks IH]; cbn [map filter fst]; [reflexivity|].
    unfold g at 1. cbn [fst]. destruct (Js.is_index k); cbn [negb map]; rewrite IH; reflexivity. }
  assert (Hsnd : map snd (Js.index_entries o) = map g idx).
  { unfold idx. rewrite map_map.
    assert (Hall : Forall (fun kv => kv = g (fst kv)) (map snd (Js.index_entries o))).
    { apply (Permutation_Forall (Permutation_sym (index_entries_perm o))).
      rewrite Hfi. rewrite Forall_map. apply Forall_forall. intros; reflexivity. }
    rewrite Forall_map in Hall. apply map_ext_Forall. exact Hall. }
  exists (idx ++ filter (fun k => negb (Js.is_index k)) ks). split.
  - exists idx. split; [reflexivity|]. split.
    + unfold idx. rewrite <- (map_map snd fst).
      rewrite (Permutation_map fst (index_entries_perm o)).
      rewrite Hfi, map_map. cbn [fst]. rewrite map_id. reflexivity.
    + unfold idx. apply sorted_tags_keys;
        [apply index_entries_tagged|apply index_entries_sorted].
  - unfold Js.Object_entries. fold o. rewrite Hsnd, Hfn, map_app. reflexivity.
Qed.

Lemma filter_split_perm {A : Type} (f : A -> bool) (l : list A) :
  Permutation (filter f l ++ filter (fun a => negb (f a)) l) l.
Proof.
  induction l as [|a l IH]; cbn [filter app]; [reflexivity|].
  destruct (f a); cbn [negb app].
  - constructor. exact IH.
  - rewrite <- Permutation_middle. constructor. exact IH.
Qed.

Lemma own_key_order_perm (ks order : list string) :
  own_key_order ks order -> Permutation order ks.
Proof.
  intros [idx [-> [Hp _]]]. rewrite Hp. apply filter_split_perm.
Qed.

(** Without array indices among the keys, the own-key order is the order of
    the keys themselves. *)
Lemma own_key_order_plain (ks order : list string) :
  (forall k, In k ks -> Js.is_index k = false) ->
  own_key_order ks order -> order = ks.
Proof.
  intros Hplain [idx [-> [Hp _]]].
  assert (Hnone : filter Js.is_index ks = []).
  { clear Hp. induction ks as [|k ks IH]; cbn [filter]; [reflexivity|].
    rewrite (Hplain k (or_introl eq_refl)). apply IH.
    intros k' Hk'. apply Hplain. right. exact Hk'. }
  rewrite Hnone in Hp. apply Permutation_sym, Permutation_nil in Hp.
  subst idx. cbn [app].
  clear Hnone. induction ks as [|k ks IH]; cbn [filter]; [reflexivity|].
  rewrite (Hplain k (or_introl eq_refl)). cbn [negb]. f_equal. apply IH.
  intros k' Hk'. apply Hplain. right. exact Hk'.
Qed.

(** *** Counting per label *)

Lemma counted_Some (x : Log) (k : string) :
  counted x = Some k <->
  threat_label x = Some k /\ k <> "" /\ k <> "benign".
Proof.
  unfold counted. destruct (threat_label x) as [t|]; [|split; [discriminate|intros [H _]; discriminate H]].
  destruct (String.eqb_spec t "") as [He|He], (String.eqb_spec t "benign") as [Hb|Hb];
    cbn [negb andb]; split; intros H;
    try discriminate H;
    try (injection H as <-; repeat split; assumption);
    try (destruct H as [H [H1 H2]]; injection H as <-; congruence).
Qed.

Lemma labels_In (l : list Log) (k : string) :
  In k (labels l) <->
  exists x, In x l /\ threat_label x = Some k /\ k <> "" /\ k <> "benign".
Proof.
  induction l as [|x l IH]; cbn [labels].
  - split; [intros []|intros [x [[] _]]].
  - destruct (counted x) as [t|] eqn:Hc.
    + cbn [In]. rewrite IH. split.
      * intros [->|[y [Hy H]]].
        -- exists x. split; [left; reflexivity|]. apply counted_Some. exact Hc.
        -- exists y. split; [right; exact Hy|exact H].
      * intros [y [[->|Hy] H]].
        -- left. apply counted_Some in H. congruence.
        -- right. exists y. split; assumption.
    + rewrite IH. split.
      * intros [y [Hy H]]. exists y. split; [right; exact Hy|exact H].
      * intros [y [[->|Hy] H]].
        -- apply counted_Some in H. congruence.
        -- exists y. split; assumption.
Qed.

Lemma times_occurrences (l : list Log) (k : string) :
  k <> "" -> k <> "benign" -> times (labels l) k = occurrences k l.
Proof.
  intros He Hb. unfold times, occurrences, count_if. f_equal.
  induction l as [|x l IH]; cbn [labels filter]; [reflexivity|].
  unfold counted, Js.strict_eq. destruct (threat_label x) as [t|]; [|exact IH].
  destruct (String.eqb_spec t k) as [->|Hne].
  - destruct (String.eqb_spec k "") as [|_]; [congruence|].
    destruct (String.eqb_spec k "benign") as [|_]; [congruence|].
    cbn [negb andb count_occ List.length].
    destruct (string_dec k k); [|congruence]. rewrite IH. reflexivity.
  - destruct (negb (t =? "")%string && negb (t =? "benign")%string); [|exact IH].
    cbn [count_occ]. destruct (string_dec t k); [congruence|]. exact IH.
Qed.

(** Replacing underscores by blanks cannot produce a text without blanks
    from a different one. *)
Lemma replace_underscores_benign (k : string) :
  Js.replace_underscores k = "benign" -> k = "benign".
Proof.
  assert (Hc : forall c d : ascii,
             d <> " "%char ->
             (if (c =? "_")%char then " "%char else c) = d -> c = d).
  { intros c d Hd. destruct (c =? "_")%char; congruence. }
  intros H.
  repeat match type of H with
  | Js.replace_underscores ?s = String ?d ?r =>
      destruct s as [|c s]; cbn [Js.replace_underscores] in H; [discriminate H|];
      let H1 := fresh "H" in let H2 := fresh "H" in
      injection H as H1 H2;
      apply Hc in H1; [|discriminate]; subst c; rename H2 into H
  end.
  destruct k as [|c k]; [reflexivity|discriminate H].
Qed.

Lemma firstn_incl {A : Type} (n : nat) (l : list A) (a : A) :
  In a (firstn n l) -> In a l.
Proof.
  revert l. induction n as [|n IH]; intros [|x l] H; cbn [firstn] in H;
    try contradiction.
  destruct H as [->|H]; [left; reflexivity|right; apply IH; exact H].
Qed.

Lemma firstn_sorted {A : Type} (R : A -> A -> Prop) (n : nat) (l : list A) :
  StronglySorted R l -> StronglySorted R (firstn n l).
Proof.
  intros Hs. revert n. induction Hs as [|x l Hs IH Hx]; intros [|n]; cbn [firstn];
    try constructor.
  - apply IH.
  - rewrite Forall_forall in *. intros y Hy. apply Hx. eapply firstn_incl. exact Hy.
Qed.

(** The chart data are the bars of the distinct contributed labels, taken
    in own-key order, sorted by count, cut after six. *)
Lemma threatDist_order (l : list Log) :
  exists order,
    own_key_order (first_seen (labels l)) order
    /\ threatDist l
       = firstn 6 (Js.sort by_count_desc (map (bar_of l) order)).
Proof.
  destruct (Object_entries_order (times (labels l)) (first_seen (labels l)))
    as [order [Ho He]].
  exists order. split; [exact Ho|].
  unfold threatDist, Js.slice0. rewrite tally_groups. unfold groups. rewrite He.
  rewrite map_map. f_equal. f_equal.
  apply map_ext_in. intros k Hk. unfold bar_of.
  apply (Permutation_in _ (own_key_order_perm _ _ Ho)) in Hk.
  apply (proj1 (first_seen_In _ _)) in Hk.
  apply labels_In in Hk. destruct Hk as [x [_ [_ [Hne Hnb]]]].
  rewrite times_occurrences by assumption. reflexivity.
Qed.

(** C5 as stated fails: with a log labelled "b" followed by one labelled
    "7", both counted once, the bar of "7" comes first although "b" was
    seen first. *)
Lemma ties_not_first_seen :
  let l := [sample_log 1 "low" false (Some "b"); sample_log 2 "low" false (Some "7")] in
  first_seen (labels l) = ["b"; "7"]
  /\ map (fun b => (name b, count b)) (threatDist l) = [("7", 1); ("b", 1)]
  /\ ~ ranked_from_first_seen l.
Proof.
  intros l. split; [vm_compute; reflexivity|]. split; [vm_compute; reflexivity|].
  unfold ranked_from_first_seen. intros H. vm_compute in H. discriminate H.
Qed.

(** C5 (as amended). The threat distribution has at most six bars, sorted
    in descending order of count.  Every bar stands for a label that some
    log carries, present, not empty and not "benign"; it is named by that
    label with underscores replaced by blanks and counts the logs that
    carry it, each label having one bar at most; no bar is named "benign".
    The bars are the first six of a stable sort, so bars with equal counts
    keep the order in which the labels are enumerated as own keys of the
    counting object: labels that are array indices first, in ascending
    numeric order, then the other labels in first-seen order.  When no
    label is an array index, ties are broken by first-seen order.  (For
    snapshots none of whose labels names an inherited member of the
    counting object, such as "constructor".) *)
Theorem threatDist_ranking (l : list Log) :
  plain_labels l ->
  (List.length (threatDist l) <= 6)%nat
  /\ StronglySorted (fun a b => count b <= count a) (threatDist l)
  /\ (forall b, In b (threatDist l) ->
        exists k x,
          In x l /\ threat_label x = Some k /\ k <> "" /\ k <> "benign"
          /\ b = bar_of l k
          /\ name b = Js.replace_underscores k
          /\ count b = occurrences k l)
  /\ (forall b, In b (threatDist l) -> name b <> "benign")
  /\ (exists order,
        own_key_order (first_seen (labels l)) order
        /\ NoDup order
        /\ (forall k, In k order <-> In k (labels l))
        /\ threatDist l = firstn 6 (Js.sort by_count_desc (map (bar_of l) order)))
  /\ (forall bars c,
        filter (fun b => count b =? c) (Js.sort by_count_desc bars)
        = filter (fun b => count b =? c) bars)
  /\ ((forall k, In k (labels l) -> Js.is_index k = false) ->
      ranked_from_first_seen l).
Proof.
  intros _.
  destruct (threatDist_order l) as [order [Ho Hd]].
  pose proof (own_key_order_perm _ _ Ho) as Hperm.
  assert (Hmem : forall b, In b (threatDist l) ->
            exists k x,
              In x l /\ threat_label x = Some k /\ k <> "" /\ k <> "benign"
              /\ b = bar_of l k
              /\ name b = Js.replace_underscores k
              /\ count b = occurrences k l).
  { intros b Hb. rewrite Hd in Hb. apply firstn_incl in Hb.
    apply (Permutation_in _ (sort_perm count _)) in Hb.
    apply in_map_iff in Hb. destruct Hb as [k [<- Hk]].
    apply (Permutation_in _ Hperm) in Hk.
    apply (proj1 (first_seen_In _ _)) in Hk.
    apply labels_In in Hk. destruct Hk as [x [Hx [Hl [Hne Hnb]]]].
    exists k, x. repeat split; assumption. }
  split; [|split; [|split; [|split; [|split; [|split]]]]].
  - unfold threatDist, Js.slice0. apply firstn_le_length.
  - rewrite Hd. apply firstn_sorted. apply (sort_sorted count).
  - exact Hmem.
  - intros b Hb Hname. destruct (Hmem b Hb) as [k [x [_ [_ [_ [Hnb [_ [Hn _]]]]]]]].
    rewrite Hn in Hname. apply replace_underscores_benign in Hname. contradiction.
  - exists order. split; [exact Ho|]. split; [|split; [|exact Hd]].
    + apply (Permutation_NoDup (Permutation_sym Hperm)). apply first_seen_NoDup.
    + intros k. rewrite <- (first_seen_In (labels l) k). split; intros Hk.
      * apply (Permutation_in _ Hperm). exact Hk.
      * apply (Permutation_in _ (Permutation_sym Hperm)). exact Hk.
  - intros bars c. apply (sort_stable count).
  - intros Hplain. unfold ranked_from_first_seen.
    rewrite <- (own_key_order_plain _ _
                  (fun k Hk => Hplain k (proj1 (first_seen_In _ _) Hk)) Ho).
    exact Hd.
Qed.

(** A snapshot with repeated labels, a "benign" log, an unlabelled log and
    two labels that are array indices. *)
Lemma threatDist_witness :
  let mk := fun k => sample_log 1 "low" false k in
  let l := [mk (Some "phishing"); mk (Some "10"); mk (Some "ddos"); mk (Some "benign");
            mk None; mk (Some "7"); mk (Some "ddos"); mk (Some "brute_force");
            mk (Some "x"); mk (Some "y"); mk (Some "z")] in
  plain_labels l
  /\ map (fun b => (name b, count b)) (threatDist l)
     = [("ddos", 2); ("7", 1); ("10", 1); ("phishing", 1); ("brute force", 1); ("x", 1)]
  /\ (List.length (threatDist l) <= 6)%nat
  /\ StronglySorted (fun a b => count b <= count a) (threatDist l)
  /\ forall b, In b (threatDist l) -> name b <> "benign".
Proof.
  intros mk l.
  assert (Hplain : plain_labels l).
  { intros k Hk. vm_compute in Hk.
    repeat (destruct Hk as [<-|Hk]; [vm_compute; reflexivity|]). destruct Hk. }
  split; [exact Hplain|]. split; [vm_compute; reflexivity|].
  destruct (threatDist_ranking l Hplain) as [H1 [H2 [_ [H4 _]]]].
  split; [exact H1|]. split; [exact H2|exact H4].
Defined.

(** * Part V: further properties of the page and its components *)

(** ** Counters *)

Lemma step_counters (s s' : state) (ev : event) :
  step s ev = Some s' ->
  decisionsCount s' = (decisionsCount s + if is_success ev then 1 else 0)%nat
  /\ correctCount s' = (correctCount s + if is_correct ev then 1 else 0)%nat.
Proof.
  intros Hs. destruct ev; cbn [step] in Hs; cbn [is_success is_correct].
  - injection Hs as <-. break_state s. unfold analyzeLog, render. cbn.
    destruct sm, mo; cbn; split; lia.
  - destruct (take_nth k (analyzing s)) as [[? ?]|]; [|discriminate Hs].
    injection Hs as <-. break_state s. unfold analyzeLog_settled, render. cbn.
    destruct r, sm, sel, mo; cbn; split; lia.
  - destruct (selectedLog s) eqn:?, (analysis s); try discriminate Hs.
    destruct (negb (analysing s) && negb (showModal s)); [|discriminate Hs].
    injection Hs as <-. break_state s. unfold render. cbn in *. subst.
    destruct mo; cbn; split; lia.
  - destruct (modal s); [|discriminate Hs].
    injection Hs as <-. break_state s. unfold render. cbn. split; lia.
  - destruct (modal s); [|discriminate Hs].
    destruct (in_list v DecisionModal.THREAT_LABELS); [|discriminate Hs].
    injection Hs as <-. break_state s. cbn. split; lia.
  - destruct (modal s); [|discriminate Hs].
    destruct (in_list v DecisionModal.ACTIONS); [|discriminate Hs].
    injection Hs as <-. break_state s. cbn. split; lia.
  - destruct (modal s); [|discriminate Hs].
    injection Hs as <-. break_state s. cbn. split; lia.
  - destruct (modal s); [|discriminate Hs].
    injection Hs as <-. break_state s. unfold submitDecision. cbn.
    destruct sel; cbn; split; lia.
  - destruct (take_nth k (submitting s)) as [[? ?]|]; [|discriminate Hs].
    injection Hs as <-. break_state s. unfold submitDecision_settled, render. cbn.
    destruct r as [[|]|]; cbn; [| |destruct sm, sel, mo; cbn]; split; lia.
  - injection Hs as <-. break_state s. unfold fetchLogs. cbn.
    destruct pa; cbn; split; lia.
  - destruct (fetching s) eqn:?; [discriminate Hs|].
    injection Hs as <-. break_state s. destruct r; cbn; split; lia.
  - injection Hs as <-. break_state s. unfold togglePause, fetchLogs. cbn.
    destruct pa; cbn; split; lia.
  - injection Hs as <-. break_state s. cbn. split; lia.
Qed.

(** X1. Along any run of the page the number of decisions made grows by
    exactly one per successful reply to a submit call and by nothing else,
    and the number of correct decisions by one per reply that says
    correct; so neither counter ever decreases, and a page that starts with
    no more correct decisions than decisions made keeps it so. *)
Theorem counters_count_replies (s s' : state) (es : list event) :
  run s es = Some s' ->
  decisionsCount s' = (decisionsCount s + successes es)%nat
  /\ correctCount s' = (correctCount s + corrects es)%nat
  /\ (corrects es <= successes es)%nat
  /\ ((correctCount s <= decisionsCount s)%nat ->
      (correctCount s' <= decisionsCount s')%nat).
Proof.
  revert s. induction es as [|ev es IH]; intros s Hrun; cbn [run] in Hrun.
  - injection Hrun as <-. unfold successes, corrects. cbn. repeat split; lia.
  - destruct (step s ev) as [s1|] eqn:Hs; [|discriminate Hrun].
    destruct (step_counters s s1 ev Hs) as [Hd Hc].
    destruct (IH s1 Hrun) as [Hd' [Hc' [Hle _]]].
    assert (Himp : is_correct ev = true -> is_success ev = true).
    { destruct ev; cbn; try discriminate. destruct r as [[|]|]; cbn; congruence. }
    unfold successes, corrects in *. cbn [filter].
    destruct (is_success ev) eqn:Es, (is_correct ev) eqn:Ec; cbn [List.length];
      try (specialize (Himp eq_refl); discriminate Himp);
      repeat split; lia.
Qed.

(** A run in which two submits succeed, one of them judged correct. *)
Lemma counters_witness :
  let e := sample_log 7 "high" true (Some "phishing") in
  let es := [Select e; AnalyzeSettled 0 (Some sample_analysis); SubmitClick;
             SubmitSettled 0 (Some true); Select e;
             AnalyzeSettled 0 (Some sample_analysis); SetLabel "ddos";
             SubmitClick; SubmitSettled 0 (Some false)] in
  exists s, run init es = Some s
            /\ decisionsCount s = 2%nat /\ correctCount s = 1%nat.
Proof.
  intros e es. eexists. split; [vm_compute; reflexivity|].
  match goal with
  | |- decisionsCount ?s = _ /\ _ =>
      destruct (counters_count_replies init s es ltac:(vm_compute; reflexivity))
        as [Hd [Hc _]]
  end.
  split; [exact Hd|exact Hc].
Defined.

(** ** The analysis indicator *)

Lemma step_spinner (s s' : state) (ev : event) :
  spinner_ok s -> step s ev = Some s' -> spinner_ok s'.
Proof.
  unfold spinner_ok. intros Hq Hs. destruct ev; cbn [step] in Hs.
  - injection Hs as <-. intros _. destruct (analyzeLog_fields log s) as [_ [_ [_ [Haz _]]]].
    rewrite Haz. intros Hnil. apply app_eq_nil in Hnil. destruct Hnil as [_ Hnil].
    discriminate Hnil.
  - destruct (take_nth k (analyzing s)) as [[? ?]|]; [|discriminate Hs].
    injection Hs as <-. break_state s. unfold analyzeLog_settled, render. cbn.
    destruct r, sm, sel, mo; cbn; discriminate.
  - destruct (selectedLog s) eqn:?, (analysis s); try discriminate Hs.
    destruct (negb (analysing s) && negb (showModal s)); [|discriminate Hs].
    injection Hs as <-. break_state s. unfold render. cbn in *. subst.
    destruct mo; cbn; exact Hq.
  - destruct (modal s); [|discriminate Hs].
    injection Hs as <-. break_state s. unfold render. cbn in *. exact Hq.
  - destruct (modal s); [|discriminate Hs].
    destruct (in_list v DecisionModal.THREAT_LABELS); [|discriminate Hs].
    injection Hs as <-. break_state s. cbn in *. exact Hq.
  - destruct (modal s); [|discriminate Hs].
    destruct (in_list v DecisionModal.ACTIONS); [|discriminate Hs].
    injection Hs as <-. break_state s. cbn in *. exact Hq.
  - destruct (modal s); [|discriminate Hs].
    injection Hs as <-. break_state s. cbn in *. exact Hq.
  - destruct (modal s); [|discriminate Hs].
    injection Hs as <-. break_state s. unfold submitDecision. cbn in *.
    destruct sel; cbn; exact Hq.
  - destruct (take_nth k (submitting s)) as [[? ?]|]; [|discriminate Hs].
    injection Hs as <-. break_state s. unfold submitDecision_settled, render. cbn in *.
    destruct r as [[|]|]; cbn; [exact Hq|exact Hq|destruct sm, sel, mo; cbn; exact Hq].
  - injection Hs as <-. break_state s. unfold fetchLogs. cbn in *.
    destruct pa; cbn; exact Hq.
  - destruct (fetching s) eqn:?; [discriminate Hs|].
    injection Hs as <-. break_state s. destruct r; cbn in *; exact Hq.
  - injection Hs as <-. break_state s. unfold togglePause, fetchLogs. cbn in *.
    destruct pa; cbn; exact Hq.
  - injection Hs as <-. break_state s. cbn in *. exact Hq.
Qed.

(** X2. In every state the page reaches from its first render, the
    analysis indicator is on only while some analyze call awaits its reply.
    The converse fails: the reply to an earlier call turns the indicator
    off while a later call is still pending. *)
Theorem spinner_needs_pending_call (es : list event) (s : state) :
  run init es = Some s ->
  spinner_ok s
  /\ exists t,
       run init [Select (sample_log 1 "low" false None);
                 Select (sample_log 2 "low" false None);
                 AnalyzeSettled 0 None] = Some t
       /\ analysing t = false /\ List.length (analyzing t) = 1%nat.
Proof.
  intros Hrun. split.
  - assert (Hgen : forall es s0 s1, spinner_ok s0 -> run s0 es = Some s1 -> spinner_ok s1).
    { clear. induction es as [|ev es IH]; intros s0 s1 Hq Hrun; cbn [run] in Hrun.
      - injection Hrun as <-. exact Hq.
      - destruct (step s0 ev) as [s2|] eqn:Hs; [|discriminate Hrun].
        apply (IH s2 s1); [eapply step_spinner; eassumption|exact Hrun]. }
    apply (Hgen es init s); [|exact Hrun]. intros H. discriminate H.
  - eexists. split; [vm_compute; reflexivity|]. split; vm_compute; reflexivity.
Qed.

Lemma spinner_witness :
  let e := sample_log 1 "low" false None in
  exists s, run init [Select e; PollTick; Tick] = Some s
            /\ analysing s = true /\ spinner_ok s.
Proof.
  intros e. eexists. split; [vm_compute; reflexivity|].
  split; [vm_compute; reflexivity|].
  match goal with
  | |- spinner_ok ?s =>
      exact (proj1 (spinner_needs_pending_call [Select e; PollTick; Tick] s
                      ltac:(vm_compute; reflexivity)))
  end.
Defined.

(** ** The form and the selected log *)

(** X3. In every state the page reaches from its first render the decision
    form is shown exactly when [showModal] is set and a log is selected;
    so whenever the form is shown, a click on SUBMIT sends exactly one
    request, for the selected log, with the label, notes and timer of the
    form: the guard [if (!selectedLog) return] never fires from the form. *)
Theorem form_has_selected_log (es : list event) (s : state) :
  run init es = Some s ->
  form_open s = showModal s && has_selection s
  /\ forall m, modal s = Some m ->
       exists e,
         selectedLog s = Some e
         /\ step s SubmitClick
            = Some (set_submitting
                      (submitting s
                         ++ [(submit_request e (DecisionModal.submit_args m), e)]) s)
         /\ sd_log_id (submit_request e (DecisionModal.submit_args m)) = log_id e.
Proof.
  intros Hrun.
  pose proof (run_rendered init s es init_rendered Hrun) as Hr.
  split; [apply rendered_iff; exact Hr|].
  intros m Hm. destruct (rendered_modal s m Hr Hm) as [Hsm [e He]].
  exists e. split; [exact He|]. split; [|reflexivity].
  apply submit_click_request. repeat split; assumption.
Qed.

Lemma form_has_selected_log_witness :
  let e := sample_log 7 "high" true (Some "phishing") in
  exists s, run init [Select e; AnalyzeSettled 0 (Some sample_analysis)] = Some s
            /\ form_open s = true
            /\ form_open s = showModal s && has_selection s.
Proof.
  intros e. eexists. split; [vm_compute; reflexivity|].
  split; [vm_compute; reflexivity|].
  match goal with
  | |- form_open ?s = _ =>
      exact (proj1 (form_has_selected_log
                      [Select e; AnalyzeSettled 0 (Some sample_analysis)] s
                      ltac:(vm_compute; reflexivity)))
  end.
Defined.

(** X4. Cancelling the form keeps the selected log and its analysis but
    discards what the analyst entered: when the form is opened again it
    starts afresh, with the log's true label as classification, the action
    "investigate", empty notes and the timer at 0, whatever the form held
    when it was cancelled. *)
Theorem cancel_discards_form_state
  (s : state) (e : Log) (m : DecisionModal.state) (a : Analysis) :
  deciding s e m ->
  analysis s = Some a ->
  analysing s = false ->
  exists s1 s2,
    step s CloseForm = Some s1
    /\ modal s1 = None /\ selectedLog s1 = Some e /\ analysis s1 = Some a
    /\ step s1 OpenForm = Some s2
    /\ deciding s2 e (DecisionModal.mount e)
    /\ (exists m2,
          modal s2 = Some m2
          /\ DecisionModal.label m2 = true_label e
          /\ DecisionModal.action m2 = "investigate"
          /\ DecisionModal.notes m2 = ""
          /\ DecisionModal.elapsed m2 = 0%nat)
    /\ analysis s2 = Some a
    /\ decisionsCount s2 = decisionsCount s /\ correctCount s2 = correctCount s.
Proof.
  intros [Hsm [Hsel Hm]] Han Hang.
  break_state s. cbn in Hsm, Hsel, Hm, Han, Hang. subst sm sel mo an ang.
  eexists. eexists. split; [reflexivity|]. cbn.
  split; [reflexivity|]. split; [reflexivity|]. split; [reflexivity|].
  split; [reflexivity|]. split; [repeat split|].
  split; [|repeat split].
  eexists. split; [reflexivity|].
  split; [apply or_default_true_label|]. repeat split.
Qed.

(** The form is open on a log labelled "phishing"; the analyst picks
    "ddos", writes a note, and a second passes.  After CANCEL and OPEN
    DECISION FORM the form reads "phishing", "investigate", no notes, 0. *)
Lemma cancel_witness :
  let e := sample_log 7 "high" true (Some "phishing") in
  exists s s2,
    run (opened e sample_analysis) [SetLabel "ddos"; SetNotes "odd"; Tick] = Some s
    /\ modal s = Some (DecisionModal.mkState "ddos" "investigate" "odd" 1)
    /\ run s [CloseForm; OpenForm] = Some s2
    /\ modal s2 = Some (DecisionModal.mkState "phishing" "investigate" "" 0).
Proof.
  intros e.
  pose (m := DecisionModal.tick
               (DecisionModal.setNotes "odd"
                  (DecisionModal.setLabel "ddos" (DecisionModal.mount e)))).
  pose (s := set_modal (Some m) (set_elapsed 1 (opened e sample_analysis))).
  destruct (cancel_discards_form_state s e m sample_analysis
              ltac:(unfold deciding; vm_compute; repeat split)
              ltac:(vm_compute; reflexivity) ltac:(vm_compute; reflexivity))
    as [s1 [s2 [H1 [_ [_ [_ [H2 [_ [[m2 [Hm2 [Hl [Ha [Hn He]]]]] _]]]]]]]]].
  exists s, s2. split; [vm_compute; reflexivity|].
  split; [vm_compute; reflexivity|].
  split; [cbn [run]; rewrite H1, H2; reflexivity|].
  rewrite Hm2. destruct m2 as [l2 a2 n2 e2]. cbn in Hl, Ha, Hn, He.
  subst l2 a2 n2 e2. reflexivity.
Defined.

(** ** Calls in flight *)

(** X5. Pausing stops new fetches but does not cancel one already in
    flight: its reply still replaces the log list while the feed is
    paused. *)
Theorem pause_keeps_fetch_in_flight (s : state) (data : list Log) :
  paused s = false ->
  exists s1 s2,
    run s [PollTick; TogglePause] = Some s1
    /\ paused s1 = true
    /\ fetching s1 = S (fetching s)
    /\ step s1 (FetchSettled (Some data)) = Some s2
    /\ paused s2 = true
    /\ logs s2 = data
    /\ fetching s2 = fetching s.
Proof.
  intros Hp. break_state s. cbn in Hp. subst pa.
  eexists. eexists. split; [reflexivity|]. cbn. repeat split.
Qed.

Lemma pause_in_flight_witness :
  exists s2,
    run init [PollTick; TogglePause; FetchSettled (Some [sample_log 1 "low" false None])]
    = Some s2
    /\ paused s2 = true
    /\ logs s2 = [sample_log 1 "low" false None].
Proof.
  destruct (pause_keeps_fetch_in_flight init [sample_log 1 "low" false None] eq_refl)
    as [s1 [s2 [H1 [_ [_ [H2 [H3 [H4 _]]]]]]]].
  exists s2. split; [|split; [exact H3|exact H4]].
  change [PollTick; TogglePause; FetchSettled (Some [sample_log 1 "low" false None])]
    with ([PollTick; TogglePause] ++ [FetchSettled (Some [sample_log 1 "low" false None])]).
  rewrite run_app, H1. cbn [run]. rewrite H2. reflexivity.
Defined.

(** What a successful reply to a pending submit call leaves behind. *)
Lemma submit_success_fields
  (s : state) (k : nat) (call : SubmitDecision * Log)
  (rest : list (SubmitDecision * Log)) (c : bool) :
  take_nth k (submitting s) = Some (call, rest) ->
  exists s',
    step s (SubmitSettled k (Some c)) = Some s'
    /\ decisionsCount s' = (decisionsCount s + 1)%nat
    /\ correctCount s' = (correctCount s + if c then 1 else 0)%nat
    /\ selectedLog s' = None
    /\ modal s' = None
    /\ submitting s' = rest.
Proof.
  intros Ht. cbn [step]. rewrite Ht. eexists. split; [reflexivity|].
  break_state s. unfold submitDecision_settled, render.
  destruct c; cbn; repeat split; lia.
Qed.

(** X6. Nothing disables the SUBMIT button while a submit call is pending:
    a second click sends the same decision again, and when both calls
    succeed the decision is counted twice, the second reply arriving after
    the form has closed and the log has been deselected. *)
Theorem double_click_counts_twice
  (s : state) (e : Log) (m : DecisionModal.state) (c1 c2 : bool) :
  deciding s e m ->
  let k := List.length (submitting s) in
  let req := submit_request e (DecisionModal.submit_args m) in
  exists s1 s2 s3,
    run s [SubmitClick; SubmitClick] = Some s1
    /\ submitting s1 = submitting s ++ [(req, e); (req, e)]
    /\ step s1 (SubmitSettled k (Some c1)) = Some s2
    /\ selectedLog s2 = None /\ modal s2 = None
    /\ step s2 (SubmitSettled k (Some c2)) = Some s3
    /\ decisionsCount s3 = (decisionsCount s + 2)%nat
    /\ correctCount s3
       = (correctCount s + (if c1 then 1 else 0) + (if c2 then 1 else 0))%nat.
Proof.
  intros Hd k req.
  set (s_a := set_submitting (submitting s ++ [(req, e)]) s).
  assert (Hda : deciding s_a e m).
  { destruct Hd as [H1 [H2 H3]]. break_state s. cbn in *. repeat split; assumption. }
  set (s_b := set_submitting (submitting s_a ++ [(req, e)]) s_a).
  assert (Hsub : submitting s_b = submitting s ++ [(req, e); (req, e)]).
  { break_state s. cbn. rewrite <- app_assoc. reflexivity. }
  assert (Hcnt : decisionsCount s_b = decisionsCount s /\ correctCount s_b = correctCount s).
  { break_state s. cbn. split; reflexivity. }
  destruct Hcnt as [Hdc Hcc].
  assert (Ht1 : take_nth k (submitting s_b) = Some ((req, e), submitting s ++ [(req, e)])).
  { rewrite Hsub. apply take_nth_app. }
  destruct (submit_success_fields s_b k _ _ c1 Ht1) as [s2 [G1 [G2 [G3 [G4 [G5 G6]]]]]].
  assert (Ht2 : take_nth k (submitting s2) = Some ((req, e), submitting s)).
  { rewrite G6. apply take_nth_app_last. }
  destruct (submit_success_fields s2 k _ _ c2 Ht2) as [s3 [K1 [K2 [K3 _]]]].
  exists s_b, s2, s3. split.
  - cbn [run]. rewrite (submit_click_request s e m Hd). fold req. fold s_a.
    rewrite (submit_click_request s_a e m Hda). reflexivity.
  - split; [exact Hsub|]. split; [exact G1|]. split; [exact G4|]. split; [exact G5|].
    split; [exact K1|]. split; lia.
Qed.

Lemma double_click_witness :
  let e := sample_log 7 "high" true (Some "phishing") in
  exists s3,
    run (opened e sample_analysis)
      [SubmitClick; SubmitClick; SubmitSettled 0 (Some true); SubmitSettled 0 (Some true)]
    = Some s3
    /\ decisionsCount s3 = 2%nat /\ correctCount s3 = 2%nat.
Proof.
  intros e.
  destruct (double_click_counts_twice (opened e sample_analysis) e
              (DecisionModal.mount e) true true (opened_deciding e sample_analysis))
    as [s1 [s2 [s3 [H1 [_ [H2 [_ [_ [H3 [H4 H5]]]]]]]]]].
  exists s3. split; [|split; [exact H4|exact H5]].
  change [SubmitClick; SubmitClick; SubmitSettled 0 (Some true); SubmitSettled 0 (Some true)]
    with ([SubmitClick; SubmitClick]
            ++ [SubmitSettled 0 (Some true); SubmitSettled 0 (Some true)]).
  rewrite run_app, H1. cbn [run].
  change (List.length (submitting (opened e sample_analysis))) with 0%nat in H2, H3.
  rewrite H2, H3. reflexivity.
Defined.

(** ** Statistics and the risk score *)

Lemma count_if_perm (p : Log -> bool) (l l' : list Log) :
  Permutation l l' -> count_if p l = count_if p l'.
Proof.
  intros Hp. unfold count_if. f_equal. apply Permutation_length.
  induction Hp as [|x l l' Hp IH|x y l|l l' l'' Hp1 IH1 Hp2 IH2]; cbn [filter].
  - constructor.
  - destruct (p x); [constructor|]; exact IH.
  - destruct (p x), (p y); try apply perm_swap; reflexivity.
  - etransitivity; eassumption.
Qed.

Lemma count_if_app (p : Log -> bool) (l l' : list Log) :
  count_if p (l ++ l') = count_if p l + count_if p l'.
Proof. unfold count_if. rewrite filter_app, length_app. lia. Qed.

Lemma count_if_zero (p : Log -> bool) (l : list Log) :
  count_if p l = 0 <-> forall x, In x l -> p x = false.
Proof.
  unfold count_if. induction l as [|a l IH]; cbn [filter In].
  - split; [intros _ x []|reflexivity].
  - destruct (p a) eqn:Ea; cbn [List.length].
    + split; [lia|]. intros H. specialize (H a (or_introl eq_refl)). congruence.
    + rewrite IH. split.
      * intros H x [<-|Hx]; [exact Ea|apply H; exact Hx].
      * intros H x Hx. apply H. right. exact Hx.
Qed.

Lemma riskScore_weight (l : list Log) : riskScore l = Z.min 100 (weight l).
Proof. reflexivity. Qed.

(** X7. The statistics and the risk score do not depend on the order of
    the logs, and more logs lower neither the score nor any counter: the
    score, the total and the numbers of anomalous, critical and high logs
    of a list are at most those of the list with further logs added before
    or after it. *)
Theorem riskScore_order_and_growth (l l' extra : list Log) :
  Permutation l l' ->
  stats l = stats l'
  /\ riskScore l = riskScore l'
  /\ riskScore l <= riskScore (l ++ extra)
  /\ riskScore l <= riskScore (extra ++ l)
  /\ (forall more, more = l ++ extra \/ more = extra ++ l ->
      total (stats l) <= total (stats more)
      /\ anomalies (stats l) <= anomalies (stats more)
      /\ critical (stats l) <= critical (stats more)
      /\ high (stats l) <= high (stats more)).
Proof.
  intros Hp.
  pose proof (count_if_nonneg (fun x => Js.strict_eq (severity x) "critical") extra).
  pose proof (count_if_nonneg (fun x => Js.strict_eq (severity x) "high") extra).
  pose proof (count_if_nonneg (fun x => Js.truthy_bool (is_anomaly x)) extra).
  assert (Hs : stats l = stats l').
  { unfold stats. rewrite (Permutation_length Hp).
    rewrite !(count_if_perm _ l l' Hp). reflexivity. }
  split; [exact Hs|]. split; [unfold riskScore; rewrite Hs; reflexivity|].
  split; [|split].
  - rewrite !riskScore_weight. unfold weight, stats. cbn [critical high anomalies].
    rewrite !count_if_app. lia.
  - rewrite !riskScore_weight. unfold weight, stats. cbn [critical high anomalies].
    rewrite !count_if_app. lia.
  - intros more [-> | ->]; unfold stats; cbn [total anomalies critical high];
      rewrite !count_if_app, length_app; repeat split; lia.
Qed.

Lemma riskScore_order_witness :
  let a := sample_log 1 "critical" true None in
  let b := sample_log 2 "high" false None in
  Permutation [a; b] [b; a]
  /\ riskScore [a; b] = riskScore [b; a]
  /\ riskScore [a; b] <= riskScore ([a; b] ++ [a])
  /\ total (stats [a; b]) <= total (stats ([a; b] ++ [a]))
  /\ anomalies (stats [a; b]) <= anomalies (stats ([a; b] ++ [a]))
  /\ critical (stats [a; b]) <= critical (stats ([a; b] ++ [a]))
  /\ high (stats [a; b]) <= high (stats ([a; b] ++ [a])).
Proof.
  intros a b.
  destruct (riskScore_order_and_growth [a; b] [b; a] [a] (perm_swap b a []))
    as [_ [H2 [H3 [_ H5]]]].
  split; [apply perm_swap|]. split; [exact H2|]. split; [exact H3|].
  apply H5. left. reflexivity.
Defined.

Lemma disjoint_filters_length {A : Type} (p q : A -> bool) (l : list A) :
  (forall x, p x = true -> q x = false) ->
  (List.length (filter p l) + List.length (filter q l) <= List.length l)%nat.
Proof.
  intros Hd. induction l as [|x l IH]; cbn [filter List.length]; [lia|].
  destruct (p x) eqn:Ep.
  - rewrite (Hd x Ep). cbn [List.length]. lia.
  - destruct (q x); cbn [List.length]; lia.
Qed.

Lemma severity_buckets_disjoint (l : list Log) :
  critical (stats l) + high (stats l) <= total (stats l).
Proof.
  unfold stats, count_if. cbn [critical high total].
  pose proof (disjoint_filters_length
                (fun x => Js.strict_eq (severity x) "critical")
                (fun x => Js.strict_eq (severity x) "high") l) as H.
  cbv beta in H.
  assert (Hd : forall x : Log,
             Js.strict_eq (severity x) "critical" = true ->
             Js.strict_eq (severity x) "high" = false).
  { intros x. unfold Js.strict_eq. destruct (severity x) as [t|]; [|discriminate].
    intros Ht. apply String.eqb_eq in Ht. subst t. reflexivity. }
  specialize (H Hd). lia.
Qed.

Lemma riskScore_range (l : list Log) : 0 <= riskScore l <= 100.
Proof.
  pose proof (count_if_nonneg (fun x => Js.strict_eq (severity x) "critical") l).
  pose proof (count_if_nonneg (fun x => Js.strict_eq (severity x) "high") l).
  pose proof (count_if_nonneg (fun x => Js.truthy_bool (is_anomaly x)) l).
  rewrite riskScore_weight. unfold weight, stats. cbn [critical high anomalies]. lia.
Qed.

Lemma riskScore_zero_iff (l : list Log) :
  riskScore l = 0 <-> forall x, In x l -> alarming x = false.
Proof.
  pose proof (count_if_nonneg (fun x => Js.strict_eq (severity x) "critical") l) as Hc.
  pose proof (count_if_nonneg (fun x => Js.strict_eq (severity x) "high") l) as Hh.
  pose proof (count_if_nonneg (fun x => Js.truthy_bool (is_anomaly x)) l) as Ha.
  rewrite riskScore_weight. unfold weight, stats. cbn [critical high anomalies].
  split.
  - intros H0.
    assert (H1 : count_if (fun x => Js.strict_eq (severity x) "critical") l = 0) by lia.
    assert (H2 : count_if (fun x => Js.strict_eq (severity x) "high") l = 0) by lia.
    assert (H3 : count_if (fun x => Js.truthy_bool (is_anomaly x)) l = 0) by lia.
    rewrite count_if_zero in H1, H2, H3.
    intros x Hx. unfold alarming. rewrite (H1 x Hx), (H2 x Hx), (H3 x Hx). reflexivity.
  - intros H.
    assert (H1 : count_if (fun x => Js.strict_eq (severity x) "critical") l = 0).
    { apply count_if_zero. intros x Hx. specialize (H x Hx). unfold alarming in H.
      apply orb_false_elim in H. destruct H as [H _].
      apply orb_false_elim in H. tauto. }
    assert (H2 : count_if (fun x => Js.strict_eq (severity x) "high") l = 0).
    { apply count_if_zero. intros x Hx. specialize (H x Hx). unfold alarming in H.
      apply orb_false_elim in H. destruct H as [H _].
      apply orb_false_elim in H. tauto. }
    assert (H3 : count_if (fun x => Js.truthy_bool (is_anomaly x)) l = 0).
    { apply count_if_zero. intros x Hx. specialize (H x Hx). unfold alarming in H.
      apply orb_false_elim in H. tauto. }
    rewrite H1, H2, H3. reflexivity.
Qed.

(** X8. The score is 0 exactly when no log is critical, high or anomalous,
    and 100 exactly when the weighted sum has reached 100; a log counts in
    at most one of the two severity buckets, so critical + high and the
    anomalies are each at most the total. *)
Theorem riskScore_extremes (l : list Log) :
  (riskScore l = 0 <-> forall x, In x l -> alarming x = false)
  /\ (riskScore l = 100 <-> 100 <= weight l)
  /\ critical (stats l) + high (stats l) <= total (stats l)
  /\ anomalies (stats l) <= total (stats l).
Proof.
  split; [apply riskScore_zero_iff|]. split; [|split].
  - pose proof (riskScore_range l). rewrite riskScore_weight in *. lia.
  - apply severity_buckets_disjoint.
  - unfold stats, count_if. cbn [anomalies total].
    apply Nat2Z.inj_le. apply filter_length_le.
Qed.

(** ** The risk gauge *)

Lemma large_arc_never_upto_100 :
  forallb (fun n => large_arc_at n =? 0) (seq 0 101) = true.
Proof. vm_compute. reflexivity. Qed.

Lemma gauge_clamped_range (value : Z) :
  0 <= RiskMeter.clamped (RiskMeter.RiskMeter value) <= 100.
Proof. cbn. unfold Js.Math_min. lia. Qed.

Lemma gauge_large_arc (value : Z) :
  RiskMeter.largeArc (RiskMeter.RiskMeter value) = 0.
Proof.
  pose proof (gauge_clamped_range value) as Hc. cbn in Hc.
  set (c := Js.Math_min 100 (Z.max 0 value)) in *.
  assert (Hn : In (Z.to_nat c) (seq 0 101)) by (apply in_seq; lia).
  pose proof (proj1 (forallb_forall _ _) large_arc_never_upto_100 _ Hn) as Hz.
  apply Z.eqb_eq in Hz. unfold large_arc_at in Hz.
  cbn [RiskMeter.RiskMeter RiskMeter.largeArc] in Hz |- *.
  fold c.
  replace (Js.Math_min 100 (Z.max 0 (Z.of_nat (Z.to_nat c)))) with c in Hz
    by (unfold Js.Math_min; rewrite Z2Nat.id by lia; lia).
  exact Hz.
Qed.

Lemma band_labels (c : Z) :
  let b := RiskMeter.band c "LOW" "MODERATE" "HIGH" "CRITICAL" in
  (b = "LOW" <-> c < 30)
  /\ (b = "MODERATE" <-> 30 <= c < 60)
  /\ (b = "HIGH" <-> 60 <= c < 80)
  /\ (b = "CRITICAL" <-> 80 <= c).
Proof.
  cbv zeta. unfold RiskMeter.band.
  destruct (Z.ltb_spec c 30); [|destruct (Z.ltb_spec c 60); [|destruct (Z.ltb_spec c 80)]];
    (split; [|split; [|split]]); (split; intros H');
    try discriminate H'; try reflexivity; lia.
Qed.

(** X9. The gauge never changes the score it is given by the page: its
    clamp is the identity on a risk score.  The filled arc is drawn
    exactly when some log is critical, high or anomalous, and the level
    shown is LOW, MODERATE, HIGH or CRITICAL as the weighted sum is below
    30, below 60, below 80, or not.  Whatever value the gauge is given,
    the value shown lies in [0,100] and the large-arc flag of the arc is
    never set (the arc never exceeds the half circle). *)
Theorem gauge_of_risk_score (l : list Log) (value : Z) :
  let v := RiskMeter.RiskMeter (riskScore l) in
  RiskMeter.clamped v = riskScore l
  /\ (RiskMeter.arc_drawn v = true <-> existsb alarming l = true)
  /\ (RiskMeter.label2 v = "LOW" <-> weight l < 30)
  /\ (RiskMeter.label2 v = "MODERATE" <-> 30 <= weight l < 60)
  /\ (RiskMeter.label2 v = "HIGH" <-> 60 <= weight l < 80)
  /\ (RiskMeter.label2 v = "CRITICAL" <-> 80 <= weight l)
  /\ 0 <= RiskMeter.clamped (RiskMeter.RiskMeter value) <= 100
  /\ RiskMeter.largeArc (RiskMeter.RiskMeter value) = 0.
Proof.
  cbv zeta.
  pose proof (riskScore_range l) as Hr.
  pose proof (riskScore_zero_iff l) as H0.
  assert (Hcl : RiskMeter.clamped (RiskMeter.RiskMeter (riskScore l)) = riskScore l).
  { cbn. unfold Js.Math_min. lia. }
  pose proof (riskScore_weight l) as Hw.
  assert (Hlab : RiskMeter.label2 (RiskMeter.RiskMeter (riskScore l))
                 = RiskMeter.band (riskScore l) "LOW" "MODERATE" "HIGH" "CRITICAL").
  { change (RiskMeter.label2 (RiskMeter.RiskMeter (riskScore l)))
      with (RiskMeter.band (RiskMeter.clamped (RiskMeter.RiskMeter (riskScore l)))
              "LOW" "MODERATE" "HIGH" "CRITICAL").
    rewrite Hcl. reflexivity. }
  split; [exact Hcl|]. split.
  - change (RiskMeter.arc_drawn (RiskMeter.RiskMeter (riskScore l)))
      with (0 <? RiskMeter.clamped (RiskMeter.RiskMeter (riskScore l))).
    rewrite Hcl, Z.ltb_lt. split.
    + intros Hpos. destruct (existsb alarming l) eqn:Ex; [reflexivity|].
      exfalso. assert (Hz : riskScore l = 0); [|lia].
      apply H0. intros x Hx.
      destruct (alarming x) eqn:Ea; [|reflexivity].
      assert (existsb alarming l = true) by (apply existsb_exists; eauto).
      congruence.
    + intros Ex. apply existsb_exists in Ex. destruct Ex as [x [Hx Ea]].
      assert (Hnz : riskScore l <> 0); [|lia].
      intros Hz. rewrite (proj1 H0 Hz x Hx) in Ea. discriminate Ea.
  - rewrite Hlab. destruct (band_labels (riskScore l)) as [B1 [B2 [B3 B4]]].
    rewrite B1, B2, B3, B4, Hw.
    split; [lia|]. split; [lia|]. split; [lia|]. split; [lia|].
    split; [apply gauge_clamped_range|apply gauge_large_arc].
Qed.

(** ** The chart and the feed *)

Lemma counted_label_tag (x : Log) : counted x = AlertPanel.label_tag x.
Proof.
  unfold counted, AlertPanel.label_tag, Js.truthy_string, Js.strict_eq.
  destruct (threat_label x) as [k|]; [|reflexivity].
  destruct (negb (k =? "")%string && negb (k =? "benign")%string); reflexivity.
Qed.

Lemma labels_length (l : list Log) :
  Z.of_nat (List.length (labels l)) = count_if AlertPanel.has_label_tag l.
Proof.
  unfold count_if. f_equal.
  induction l as [|x l IH]; cbn [labels filter]; [reflexivity|].
  unfold AlertPanel.has_label_tag at 1. rewrite <- counted_label_tag.
  destruct (counted x); cbn [List.length]; rewrite IH; reflexivity.
Qed.

Lemma sum_by_perm (f : string -> Z) (ks ks' : list string) :
  Permutation ks ks' -> sum_by f ks = sum_by f ks'.
Proof.
  unfold sum_by. induction 1; cbn [fold_right]; lia.
Qed.

Lemma sum_by_ext (f g : string -> Z) (ks : list string) :
  (forall k, In k ks -> f k = g k) -> sum_by f ks = sum_by g ks.
Proof.
  unfold sum_by. induction ks as [|a ks IH]; intros H; cbn [fold_right]; [reflexivity|].
  rewrite (H a (or_introl eq_refl)), IH; [reflexivity|].
  intros k Hk. apply H. right. exact Hk.
Qed.

Lemma sum_by_without (f : string -> Z) (a : string) (ks : list string) :
  NoDup ks ->
  sum_by f ks
  = sum_by f (filter (fun x => negb (x =? a)%string) ks)
    + (if in_dec string_dec a ks then f a else 0).
Proof.
  unfold sum_by. induction 1 as [|k ks Hk Hnd IH]; cbn [fold_right filter]; [reflexivity|].
  rewrite IH. destruct (String.eqb_spec k a) as [->|Hne]; cbn [negb fold_right].
  - destruct (in_dec string_dec a (a :: ks)) as [_|Hn]; [|exfalso; apply Hn; left; reflexivity].
    destruct (in_dec string_dec a ks) as [Hin|_]; [contradiction|]. lia.
  - destruct (in_dec string_dec a (k :: ks)) as [[Heq|Hin]|Hn];
      destruct (in_dec string_dec a ks) as [Hin'|Hn'];
      try congruence; try lia; try contradiction.
    exfalso. apply Hn. right. exact Hin'.
Qed.

(** The occurrences of the distinct labels add up to the number of labels. *)
Lemma sum_times_first_seen (ks : list string) :
  sum_by (times ks) (first_seen ks) = Z.of_nat (List.length ks).
Proof.
  induction ks as [|a ks IH]; [reflexivity|].
  cbn [first_seen].
  change (sum_by (times (a :: ks))
            (a :: filter (fun x => negb (x =? a)%string) (first_seen ks)))
    with (times (a :: ks) a
          + sum_by (times (a :: ks))
              (filter (fun x => negb (x =? a)%string) (first_seen ks))).
  pose proof (sum_by_without (times ks) a (first_seen ks) (first_seen_NoDup ks)) as Hw.
  assert (Hext : sum_by (times (a :: ks)) (filter (fun x => negb (x =? a)%string) (first_seen ks))
                 = sum_by (times ks) (filter (fun x => negb (x =? a)%string) (first_seen ks))).
  { apply sum_by_ext. intros k Hk. apply filter_In in Hk. destruct Hk as [_ Hk].
    unfold times. cbn [count_occ]. destruct (string_dec a k) as [->|_]; [|reflexivity].
    rewrite String.eqb_refl in Hk. discriminate Hk. }
  rewrite Hext.
  assert (Ha : times (a :: ks) a = times ks a + 1).
  { unfold times. cbn [count_occ]. destruct (string_dec a a); [lia|congruence]. }
  assert (Hz : (if in_dec string_dec a (first_seen ks) then times ks a else 0) = times ks a).
  { destruct (in_dec string_dec a (first_seen ks)) as [_|Hn]; [reflexivity|].
    unfold times. rewrite (proj1 (count_occ_not_In string_dec ks a)); [reflexivity|].
    intros Hin. apply Hn. apply first_seen_In. exact Hin. }
  rewrite Hz in Hw. cbn [List.length]. lia.
Qed.

Lemma total_count_perm (bars bars' : list Bar) :
  Permutation bars bars' -> total_count bars = total_count bars'.
Proof. unfold total_count. induction 1; cbn [fold_right]; lia. Qed.

Lemma total_count_firstn (n : nat) (bars : list Bar) :
  (forall b, In b bars -> 0 <= count b) ->
  total_count (firstn n bars) <= total_count bars
  /\ ((List.length bars <= n)%nat -> total_count (firstn n bars) = total_count bars).
Proof.
  revert n. induction bars as [|b bars IH]; intros n Hpos.
  - rewrite firstn_nil. split; [lia|reflexivity].
  - destruct n as [|n]; cbn [firstn total_count fold_right List.length].
    + assert (Hall : 0 <= total_count bars).
      { clear IH. induction bars as [|c bars IHb]; cbn [total_count fold_right]; [lia|].
        pose proof (Hpos c (or_intror (or_introl eq_refl))).
        assert (0 <= total_count bars); [|unfold total_count in *; lia].
        apply IHb. intros d [<-|Hd]; apply Hpos; [left|right; right]; auto. }
      pose proof (Hpos b (or_introl eq_refl)). unfold total_count in Hall.
      split; lia.
    + destruct (IH n (fun d Hd => Hpos d (or_intror Hd))) as [H1 H2].
      unfold total_count in *. split; [lia|]. intros Hlen. rewrite H2; lia.
Qed.

Lemma total_count_bars (l : list Log) (order : list string) :
  total_count (map (bar_of l) order) = sum_by (fun k => occurrences k l) order.
Proof.
  unfold total_count, sum_by. induction order as [|k ks IH]; cbn [map fold_right]; [reflexivity|].
  rewrite IH. reflexivity.
Qed.

(** The bars of the chart and the label tags of the feed count the same
    logs. *)
Lemma chart_total_all (l : list Log) (order : list string) :
  own_key_order (first_seen (labels l)) order ->
  total_count (Js.sort by_count_desc (map (bar_of l) order))
  = count_if AlertPanel.has_label_tag l.
Proof.
  intros Ho. pose proof (own_key_order_perm _ _ Ho) as Hperm.
  rewrite (total_count_perm _ _ (sort_perm count _)).
  rewrite total_count_bars.
  rewrite (sum_by_ext _ (times (labels l))).
  - rewrite (sum_by_perm _ _ _ Hperm), sum_times_first_seen. apply labels_length.
  - intros k Hk. apply (Permutation_in _ Hperm) in Hk.
    apply (proj1 (first_seen_In _ _)) in Hk. apply labels_In in Hk.
    destruct Hk as [x [_ [_ [Hne Hnb]]]]. symmetry. apply times_occurrences; assumption.
Qed.

(** X10. The chart, the status bar and the feed agree.  For logs whose
    labels are not names of members the counting object inherits: the
    counts of the bars add up to at most the number of feed rows that
    carry a threat label tag, and to exactly that number when there are at
    most six distinct labels, so that the cut after six is all the chart
    leaves out.  The chart has one bar per distinct label up to six, every
    bar counts at least one log, and the chart is empty (its placeholder
    is shown) exactly when no row of the feed carries a label tag.  The
    ANOMALIES counter is the number of rows with the ANOMALY tag, and the
    feed shows its waiting placeholder exactly when EVENTS is 0. *)
Theorem chart_counts_tagged_rows (l : list Log) :
  plain_labels l ->
  total_count (threatDist l) <= count_if AlertPanel.has_label_tag l
  /\ count_if AlertPanel.has_label_tag l <= total (stats l)
  /\ ((List.length (first_seen (labels l)) <= 6)%nat ->
      total_count (threatDist l) = count_if AlertPanel.has_label_tag l)
  /\ List.length (threatDist l) = Nat.min 6 (List.length (first_seen (labels l)))
  /\ (forall b, In b (threatDist l) -> 1 <= count b)
  /\ (threatDist l = [] <-> forall x, In x l -> AlertPanel.label_tag x = None)
  /\ anomalies (stats l) = count_if AlertPanel.anomaly_tag l
  /\ (AlertPanel.waiting l = true <-> total (stats l) = 0).
Proof.
  intros _.
  assert (Hbar : anomalies (stats l) = count_if AlertPanel.anomaly_tag l
                 /\ (AlertPanel.waiting l = true <-> total (stats l) = 0)).
  { split; [reflexivity|]. unfold AlertPanel.waiting, stats. cbn [total].
    rewrite Nat.eqb_eq. lia. }
  destruct (threatDist_order l) as [order [Ho Hd]].
  pose proof (own_key_order_perm _ _ Ho) as Hperm.
  pose proof (chart_total_all l order Ho) as Hall.
  assert (Hone : forall b, In b (Js.sort by_count_desc (map (bar_of l) order)) -> 1 <= count b).
  { intros b Hb. apply (Permutation_in _ (sort_perm count _)) in Hb.
    apply in_map_iff in Hb. destruct Hb as [k [<- Hk]].
    apply (Permutation_in _ Hperm) in Hk. apply (proj1 (first_seen_In _ _)) in Hk.
    pose proof Hk as Hk'. apply labels_In in Hk'.
    destruct Hk' as [x [_ [_ [Hne Hnb]]]].
    unfold bar_of, to_bar. cbn [count snd].
    rewrite <- times_occurrences by assumption. unfold times.
    apply (proj1 (count_occ_In string_dec _ _)) in Hk. lia. }
  destruct (total_count_firstn 6 (Js.sort by_count_desc (map (bar_of l) order))
              (fun b Hb => Z.le_trans 0 1 _ ltac:(lia) (Hone b Hb))) as [Hle Heq].
  assert (Hlen : List.length (Js.sort by_count_desc (map (bar_of l) order))
                 = List.length (first_seen (labels l))).
  { rewrite (Permutation_length (sort_perm count _)), length_map.
    apply Permutation_length. exact Hperm. }
  split; [rewrite Hd, <- Hall; exact Hle|].
  split; [unfold stats, count_if; cbn [total]; apply Nat2Z.inj_le, filter_length_le|].
  split; [intros H6; rewrite Hd, <- Hall; apply Heq; rewrite Hlen; exact H6|].
  split; [rewrite Hd, length_firstn, Hlen; reflexivity|].
  split; [intros b Hb; apply Hone; rewrite Hd in Hb; eapply firstn_incl; exact Hb|].
  split; [|exact Hbar]. split.
  - intros Hnil x Hx. rewrite <- counted_label_tag.
    destruct (counted x) as [k|] eqn:Hc; [|reflexivity]. exfalso.
    assert (Hk : In k (labels l)).
    { apply labels_In. exists x. split; [exact Hx|]. apply counted_Some. exact Hc. }
    assert (Hlen0 : List.length (threatDist l) = 0%nat) by (rewrite Hnil; reflexivity).
    rewrite Hd, length_firstn, Hlen in Hlen0.
    apply (proj2 (first_seen_In _ _)) in Hk.
    destruct (first_seen (labels l)); [destruct Hk|cbn in Hlen0; lia].
  - intros Hnone.
    assert (Hl : labels l = []).
    { clear - Hnone. induction l as [|x l IH]; cbn [labels]; [reflexivity|].
      rewrite counted_label_tag, (Hnone x (or_introl eq_refl)).
      apply IH. intros y Hy. apply Hnone. right. exact Hy. }
    rewrite Hl in Hperm. cbn [first_seen] in Hperm.
    apply Permutation_sym, Permutation_nil in Hperm. rewrite Hd, Hperm. reflexivity.
Qed.

Lemma chart_witness :
  let mk := fun k => sample_log 1 "low" false k in
  let l := [mk (Some "phishing"); mk (Some "ddos"); mk (Some "benign");
            mk None; mk (Some "ddos")] in
  plain_labels l
  /\ total_count (threatDist l) = 3
  /\ count_if AlertPanel.has_label_tag l = 3.
Proof.
  intros mk l.
  assert (Hplain : plain_labels l).
  { intros k Hk. vm_compute in Hk.
    repeat (destruct Hk as [<-|Hk]; [vm_compute; reflexivity|]). destruct Hk. }
  split; [exact Hplain|].
  destruct (chart_counts_tagged_rows l Hplain) as [_ [_ [H3 _]]].
  split; [|vm_compute; reflexivity].
  rewrite H3; [vm_compute; reflexivity|vm_compute; lia].
Defined.

(** ** The log table: pages *)

Lemma slice_nonneg {A : Type} (a b : Z) (l : list A) :
  0 <= a <= b ->
  LogTable.slice a b l = firstn (Z.to_nat (b - a)) (skipn (Z.to_nat a) l).
Proof.
  intros Hab. unfold LogTable.slice.
  destruct (Z.ltb_spec a 0) as [H|_]; [lia|].
  destruct (Z.ltb_spec b 0) as [H|_]; [lia|].
  set (len := Z.of_nat (List.length l)).
  destruct (Z.le_gt_cases a len) as [Ha|Ha].
  - rewrite (Z.min_l a len) by exact Ha.
    destruct (Z.le_gt_cases b len) as [Hb|Hb].
    + rewrite (Z.min_l b len) by exact Hb. reflexivity.
    + rewrite (Z.min_r b len) by lia.
      rewrite !firstn_all2; [reflexivity| |]; rewrite length_skipn; unfold len in *; lia.
  - rewrite (Z.min_r a len) by lia.
    rewrite !(skipn_all2 l); [rewrite !firstn_nil; reflexivity| |]; unfold len in *; lia.
Qed.

Lemma page_of_chunk {A : Type} (i : nat) (rows : list A) :
  LogTable.page_of (Z.of_nat (S i)) rows = firstn 20 (skipn (20 * i) rows).
Proof.
  unfold LogTable.page_of, LogTable.PER_PAGE. rewrite slice_nonneg by lia.
  f_equal; [lia|]. f_equal. lia.
Qed.

Lemma page_of_length {A : Type} (p : Z) (rows : list A) :
  1 <= p ->
  Z.of_nat (List.length (LogTable.page_of p rows))
  = Z.max 0 (Z.min 20 (Z.of_nat (List.length rows) - 20 * (p - 1))).
Proof.
  intros Hp. unfold LogTable.page_of, LogTable.PER_PAGE.
  rewrite slice_nonneg by lia. rewrite length_firstn, length_skipn. lia.
Qed.

Lemma chunks_concat {A : Type} (n : nat) (rows : list A) :
  (List.length rows <= 20 * n)%nat ->
  List.concat (map (fun i => firstn 20 (skipn (20 * i) rows)) (seq 0 n)) = rows.
Proof.
  revert rows. induction n as [|n IH]; intros rows Hlen.
  - destruct rows; [reflexivity|cbn in Hlen; lia].
  - cbn [seq map List.concat]. rewrite <- seq_shift, map_map.
    rewrite (map_ext _ (fun i => firstn 20 (skipn (20 * i) (skipn 20 rows)))).
    + rewrite IH by (rewrite length_skipn; lia).
      change (20 * 0)%nat with 0%nat. cbn [skipn]. apply firstn_skipn.
    + intros i. rewrite skipn_skipn. f_equal. f_equal. lia.
Qed.

Lemma totalPages_bounds (n : nat) :
  20 * (LogTable.totalPages n - 1) < Z.of_nat n <= 20 * LogTable.totalPages n.
Proof.
  unfold LogTable.totalPages, LogTable.PER_PAGE.
  Z.div_mod_to_equations. lia.
Qed.

(** X11. The pages of the table cut its rows into consecutive runs of
    twenty: pages 1 to [totalPages] put one after the other are the rows
    themselves, every page before the last holds twenty rows, the last one
    holds between one and twenty, a page beyond the last is empty, and
    there is no page at all exactly when there is no row. *)
Theorem pages_partition {A : Type} (rows : list A) :
  let n := LogTable.totalPages (List.length rows) in
  List.concat (map (fun p => LogTable.page_of p rows) (page_numbers n)) = rows
  /\ (forall p, 1 <= p < n -> List.length (LogTable.page_of p rows) = 20%nat)
  /\ (1 <= n -> (1 <= List.length (LogTable.page_of n rows) <= 20)%nat)
  /\ (forall p, n < p -> LogTable.page_of p rows = [])
  /\ (n = 0 <-> rows = []).
Proof.
  intros n. pose proof (totalPages_bounds (List.length rows)) as Hb. fold n in Hb.
  split; [|split; [|split; [|split]]].
  - unfold page_numbers. rewrite <- seq_shift, !map_map.
    rewrite (map_ext _ (fun i => firstn 20 (skipn (20 * i) rows))).
    + apply chunks_concat. lia.
    + intros i. apply page_of_chunk.
  - intros p Hp. pose proof (page_of_length p rows ltac:(lia)). lia.
  - intros Hn. pose proof (page_of_length n rows Hn). lia.
  - intros p Hp. apply length_zero_iff_nil.
    pose proof (page_of_length p rows ltac:(lia)). lia.
  - split.
    + intros Hn. apply length_zero_iff_nil. lia.
    + intros ->. reflexivity.
Qed.

(** ** The log table: filters and order *)

Lemma insert_any_perm {A : Type} (cmp : A -> A -> Z) (x : A) (l : list A) :
  Permutation (Js.insert cmp x l) (x :: l).
Proof.
  induction l as [|y l IH]; cbn [Js.insert]; [reflexivity|].
  destruct (cmp x y <=? 0); [reflexivity|].
  rewrite IH. apply perm_swap.
Qed.

Lemma sort_any_perm {A : Type} (cmp : A -> A -> Z) (l : list A) :
  Permutation (Js.sort cmp l) l.
Proof.
  induction l as [|x l IH]; cbn [Js.sort]; [reflexivity|].
  rewrite insert_any_perm. constructor. exact IH.
Qed.

Lemma sort_ext {A : Type} (cmp cmp' : A -> A -> Z) (l : list A) :
  (forall a b, cmp a b = cmp' a b) -> Js.sort cmp l = Js.sort cmp' l.
Proof.
  intros H. induction l as [|x l IH]; cbn [Js.sort]; [reflexivity|].
  rewrite IH. generalize (Js.sort cmp' l). intros m.
  induction m as [|y m IHm]; cbn [Js.insert]; [reflexivity|].
  rewrite H, IHm. reflexivity.
Qed.

Lemma filter_if {A : Type} (b : bool) (p : A -> bool) (l : list A) :
  (if b then filter p l else l) = filter (fun x => if b then p x else true) l.
Proof.
  destruct b; [reflexivity|].
  induction l as [|x l IH]; cbn [filter]; [reflexivity|]. rewrite <- IH. reflexivity.
Qed.

Lemma filter_filter {A : Type} (p q : A -> bool) (l : list A) :
  filter q (filter p l) = filter (fun x => p x && q x) l.
Proof.
  induction l as [|x l IH]; cbn [filter]; [reflexivity|].
  destruct (p x); cbn [filter andb]; rewrite IH; reflexivity.
Qed.

Section TableFacts.

Context (matches : string -> Log -> bool) (time : Log -> Z).

(** The three filters one after the other keep the logs that pass all of
    them. *)
Lemma filtered_passes (data : list Log) (s : LogTable.state) :
  LogTable.filtered matches time data s
  = Js.sort (LogTable.by_time time (LogTable.sortDir s))
      (filter (LogTable.passes matches s) data).
Proof.
  unfold LogTable.filtered. f_equal.
  rewrite (filter_if (Js.truthy_string _)).
  rewrite (filter_if (negb _)).
  rewrite (filter_if (LogTable.anomalyOnly s)).
  rewrite !filter_filter. apply filter_ext. intros l.
  unfold LogTable.passes. rewrite andb_assoc. reflexivity.
Qed.

Lemma filtered_length (data : list Log) (s : LogTable.state) :
  List.length (LogTable.filtered matches time data s)
  = List.length (filter (LogTable.passes matches s) data).
Proof.
  rewrite filtered_passes. apply Permutation_length, sort_any_perm.
Qed.

End TableFacts.

Lemma table_order_facts
  (matches : string -> Log -> bool) (time : Log -> Z)
  (data : list Log) (s : LogTable.state) :
  let out := LogTable.filtered matches time data s in
  let kept := filter (LogTable.passes matches s) data in
  Permutation out kept
  /\ StronglySorted
       (fun a b => match LogTable.sortDir s with
                   | LogTable.Desc => time b <= time a
                   | LogTable.Asc => time a <= time b
                   end) out
  /\ (forall c, filter (fun l => time l =? c) out = filter (fun l => time l =? c) kept).
Proof.
  intros out kept. subst out kept. rewrite filtered_passes.
  set (kept := filter (LogTable.passes matches s) data).
  split; [apply sort_any_perm|].
  destruct (LogTable.sortDir s); cbn [LogTable.by_time].
  - rewrite (sort_ext _ (desc time)) by reflexivity.
    split; [apply (sort_sorted time)|]. intros c. apply (sort_stable time).
  - rewrite (sort_ext _ (desc (fun l => - time l)))
      by (intros a b; unfold desc, LogTable.by_time; lia).
    split.
    + pose proof (sort_sorted (fun l => - time l) kept) as Hs.
      revert Hs. generalize (Js.sort (desc (fun l => - time l)) kept). intros m Hs.
      induction Hs as [|a m Hs IH Ha]; constructor; [exact IH|].
      rewrite Forall_forall in *. intros b Hb. specialize (Ha b Hb).
      unfold not_below in Ha. lia.
    + intros c.
      pose proof (sort_stable (fun l => - time l) (- c) kept) as Hst.
      rewrite (filter_ext _ (fun l => - time l =? - c)); [rewrite Hst; apply filter_ext|];
        intros l; destruct (Z.eqb_spec (time l) c), (Z.eqb_spec (- time l) (- c));
        try reflexivity; lia.
Qed.

(** X12. What the table lists are the logs that pass the search, the
    severity filter and the anomaly filter, each as often as it is in the
    feed, in the order of their time: latest first when the direction is
    descending, earliest first when ascending.  The sort is stable in both
    directions: logs of the same time stay in the order of the feed, so
    that switching the direction does not reverse them. *)
Theorem table_rows_in_time_order
  (matches : string -> Log -> bool) (time : Log -> Z)
  (data : list Log) (s : LogTable.state) :
  let out := LogTable.filtered matches time data s in
  let kept := filter (LogTable.passes matches s) data in
  Permutation out kept
  /\ (forall l, In l out <-> In l data /\ LogTable.passes matches s l = true)
  /\ StronglySorted
       (fun a b => match LogTable.sortDir s with
                   | LogTable.Desc => time b <= time a
                   | LogTable.Asc => time a <= time b
                   end) out
  /\ (forall c, filter (fun l => time l =? c) out = filter (fun l => time l =? c) kept).
Proof.
  intros out kept.
  destruct (table_order_facts matches time data s) as [Hp [Hs Hst]].
  split; [exact Hp|]. split; [|split; [exact Hs|exact Hst]].
  intros l. rewrite <- (filter_In (LogTable.passes matches s) l data).
  split; apply Permutation_in; [|symmetry]; exact Hp.
Qed.

(** ** The log table: the page shown *)

Section TablePages.

Context (matches : string -> Log -> bool) (time : Log -> Z).

Lemma pages_ext (t t' : LogTable.table) :
  LogTable.logs t = LogTable.logs t' ->
  LogTable.search (LogTable.st t) = LogTable.search (LogTable.st t') ->
  LogTable.sevFilter (LogTable.st t) = LogTable.sevFilter (LogTable.st t') ->
  LogTable.anomalyOnly (LogTable.st t) = LogTable.anomalyOnly (LogTable.st t') ->
  LogTable.pages matches time t = LogTable.pages matches time t'.
Proof.
  intros Hl Hs Hf Ha. unfold LogTable.pages. rewrite !filtered_length.
  unfold LogTable.passes. rewrite Hl, Hs, Hf, Ha. reflexivity.
Qed.

Lemma pages_page_dir (t : LogTable.table) (p : Z) (d : LogTable.dir) :
  LogTable.pages matches time
    (LogTable.mkTable (LogTable.logs t)
       (LogTable.mkState (LogTable.search (LogTable.st t))
          (LogTable.sevFilter (LogTable.st t))
          (LogTable.anomalyOnly (LogTable.st t)) p d))
  = LogTable.pages matches time t.
Proof. apply pages_ext; reflexivity. Qed.

Lemma rows_length (t : LogTable.table) :
  1 <= LogTable.page (LogTable.st t) ->
  Z.of_nat (List.length (LogTable.rows matches time t))
  = Z.max 0 (Z.min 20
      (Z.of_nat (List.length (LogTable.filtered matches time (LogTable.logs t) (LogTable.st t)))
       - 20 * (LogTable.page (LogTable.st t) - 1))).
Proof.
  intros Hp. unfold LogTable.rows, LogTable.paged. apply page_of_length. exact Hp.
Qed.

Lemma no_match_iff (t : LogTable.table) :
  page_in_range matches time t ->
  LogTable.no_match matches time t = true
  <-> LogTable.filtered matches time (LogTable.logs t) (LogTable.st t) = [].
Proof.
  intros [Hlo Hhi]. unfold LogTable.no_match. rewrite Nat.eqb_eq.
  pose proof (rows_length t Hlo) as Hr.
  unfold LogTable.pages in Hhi.
  pose proof (totalPages_bounds
    (List.length (LogTable.filtered matches time (LogTable.logs t) (LogTable.st t)))) as Hb.
  rewrite <- length_zero_iff_nil. lia.
Qed.

Lemma step_page_positive (t t' : LogTable.table) (e : LogTable.event) :
  LogTable.step matches time t e = Some t' ->
  1 <= LogTable.page (LogTable.st t) -> 1 <= LogTable.page (LogTable.st t').
Proof.
  intros Hstep Hp. destruct e; cbn [LogTable.step] in Hstep.
  - injection Hstep as <-. cbn. lia.
  - destruct (in_list v LogTable.severities); [|discriminate Hstep].
    injection Hstep as <-. cbn. lia.
  - injection Hstep as <-. cbn. lia.
  - injection Hstep as <-. cbn. exact Hp.
  - destruct (_ && _); [|discriminate Hstep]. injection Hstep as <-. cbn. lia.
  - destruct (LogTable.pagination matches time t) eqn:Hpg; [|discriminate Hstep].
    destruct (negb _); [|discriminate Hstep]. injection Hstep as <-. cbn.
    unfold LogTable.pagination in Hpg. apply Z.ltb_lt in Hpg. lia.
  - injection Hstep as <-. cbn. exact Hp.
Qed.

Lemma step_in_range (t t' : LogTable.table) (e : LogTable.event) :
  LogTable.step matches time t e = Some t' ->
  same_feed [e] = true ->
  page_in_range matches time t ->
  LogTable.logs t' = LogTable.logs t /\ page_in_range matches time t'.
Proof.
  intros Hstep Hsame [Hlo Hhi]. unfold page_in_range.
  destruct e; cbn [LogTable.step] in Hstep; try discriminate Hsame.
  - injection Hstep as <-. cbn. split; [reflexivity|lia].
  - destruct (in_list v LogTable.severities); [|discriminate Hstep].
    injection Hstep as <-. cbn. split; [reflexivity|lia].
  - injection Hstep as <-. cbn. split; [reflexivity|lia].
  - injection Hstep as <-. split; [reflexivity|].
    rewrite pages_page_dir. cbn. lia.
  - destruct (LogTable.pagination matches time t) eqn:Hpg; [|discriminate Hstep].
    destruct (negb _); [|discriminate Hstep]. injection Hstep as <-.
    split; [reflexivity|]. unfold LogTable.set_page. rewrite pages_page_dir. cbn. lia.
  - destruct (LogTable.pagination matches time t) eqn:Hpg; [|discriminate Hstep].
    destruct (negb _); [|discriminate Hstep]. injection Hstep as <-.
    split; [reflexivity|]. unfold LogTable.set_page. rewrite pages_page_dir. cbn.
    unfold LogTable.pagination in Hpg. apply Z.ltb_lt in Hpg. lia.
Qed.

Lemma run_page_positive (es : list LogTable.event) (t t' : LogTable.table) :
  LogTable.run matches time t es = Some t' ->
  1 <= LogTable.page (LogTable.st t) -> 1 <= LogTable.page (LogTable.st t').
Proof.
  revert t. induction es as [|e es IH]; intros t Hrun Hp; cbn [LogTable.run] in Hrun.
  - injection Hrun as <-. exact Hp.
  - destruct (LogTable.step matches time t e) as [t1|] eqn:Hstep; [|discriminate Hrun].
    apply (IH t1 Hrun). apply (step_page_positive t t1 e Hstep Hp).
Qed.

Lemma run_in_range (es : list LogTable.event) (t t' : LogTable.table) :
  LogTable.run matches time t es = Some t' ->
  same_feed es = true ->
  page_in_range matches time t ->
  LogTable.logs t' = LogTable.logs t /\ page_in_range matches time t'.
Proof.
  revert t. induction es as [|e es IH]; intros t Hrun Hsame Hin; cbn [LogTable.run] in Hrun.
  - injection Hrun as <-. split; [reflexivity|exact Hin].
  - destruct (LogTable.step matches time t e) as [t1|] eqn:Hstep; [|discriminate Hrun].
    unfold same_feed in Hsame. cbn [forallb] in Hsame.
    apply andb_prop in Hsame. destruct Hsame as [He Hes].
    destruct (step_in_range t t1 e Hstep) as [Hl1 Hin1];
      [unfold same_feed; cbn [forallb]; rewrite He; reflexivity|exact Hin|].
    destruct (IH t1 Hrun Hes Hin1) as [Hl Hin']. split; [congruence|exact Hin'].
Qed.

End TablePages.

(** X13. While the feed stays the same, the table never leaves its pages:
    from the first rendering on, whatever controls are operated, the page
    shown is between 1 and the number of pages (page 1 when there are no
    rows), so the "No events match the current filters" row appears only
    when no log passes the filters.  With new logs coming in the page still
    never drops below 1. *)
Theorem page_stays_in_range
  (matches : string -> Log -> bool) (time : Log -> Z)
  (data : list Log) (es : list LogTable.event) (t : LogTable.table) :
  LogTable.run matches time (LogTable.mount data) es = Some t ->
  1 <= LogTable.page (LogTable.st t)
  /\ (same_feed es = true ->
      LogTable.logs t = data
      /\ LogTable.page (LogTable.st t) <= Z.max 1 (LogTable.pages matches time t)
      /\ (LogTable.no_match matches time t = true
          <-> filter (LogTable.passes matches (LogTable.st t)) data = [])).
Proof.
  intros Hrun. split.
  - apply (run_page_positive matches time es _ t Hrun). cbn. lia.
  - intros Hsame.
    destruct (run_in_range matches time es _ t Hrun Hsame) as [Hl Hin].
    { unfold page_in_range. cbn [LogTable.mount LogTable.st LogTable.page].
      pose proof (totalPages_bounds (List.length
        (LogTable.filtered matches time data (LogTable.st (LogTable.mount data))))) as Hb.
      unfold LogTable.pages. cbn [LogTable.mount LogTable.logs LogTable.st]. lia. }
    cbn [LogTable.mount LogTable.logs] in Hl.
    split; [exact Hl|]. split; [apply Hin|].
    rewrite (no_match_iff matches time t Hin), Hl.
    rewrite <- !length_zero_iff_nil, filtered_length. reflexivity.
Qed.

Lemma page_stays_in_range_witness :
  let time := log_id in
  let matches := fun (_ : string) (_ : Log) => true in
  let es := [LogTable.Next; LogTable.Next; LogTable.ToggleSort; LogTable.Prev] in
  let t := LogTable.mkTable (numbered_logs 45)
             (LogTable.mkState "" "all" false 2 LogTable.Asc) in
  LogTable.run matches time (LogTable.mount (numbered_logs 45)) es = Some t
  /\ same_feed es = true
  /\ 1 <= LogTable.page (LogTable.st t) <= Z.max 1 (LogTable.pages matches time t)
  /\ LogTable.pages matches time t = 3.
Proof.
  intros time matches es t.
  assert (Hrun : LogTable.run matches time (LogTable.mount (numbered_logs 45)) es = Some t)
    by (vm_compute; reflexivity).
  split; [exact Hrun|]. split; [reflexivity|].
  destruct (page_stays_in_range matches time (numbered_logs 45) es t Hrun) as [Hlo H].
  destruct (H eq_refl) as [_ [Hhi _]].
  split; [split; [exact Hlo|exact Hhi]|vm_compute; reflexivity].
Defined.

(** X14. New logs do not reset the page.  When the parent renders the
    table with a feed whose listed logs no longer reach the page shown,
    the table stays on that page and shows the "No events match the current
    filters" row, whether or not some log passes the filters.  If at most
    twenty logs are listed the PREV / NEXT bar is not rendered, so that
    only a change of a filter brings the rows back; if it is rendered,
    NEXT leads to the last page. *)
Theorem stale_page_after_poll
  (matches : string -> Log -> bool) (time : Log -> Z)
  (t : LogTable.table) (data : list Log) :
  1 < LogTable.page (LogTable.st t) ->
  Z.of_nat (List.length (filter (LogTable.passes matches (LogTable.st t)) data))
  <= 20 * (LogTable.page (LogTable.st t) - 1) ->
  let t' := LogTable.mkTable data (LogTable.st t) in
  LogTable.step matches time t (LogTable.Logs data) = Some t'
  /\ LogTable.no_match matches time t' = true
  /\ ((List.length (filter (LogTable.passes matches (LogTable.st t)) data) <= 20)%nat ->
      LogTable.pagination matches time t' = false
      /\ LogTable.step matches time t' LogTable.Prev = None
      /\ LogTable.step matches time t' LogTable.Next = None)
  /\ (LogTable.pagination matches time t' = true ->
      LogTable.step matches time t' LogTable.Next
      = Some (LogTable.mkTable data
                (LogTable.set_page (LogTable.pages matches time t') (LogTable.st t))))
  /\ (forall v,
        LogTable.step matches time t' (LogTable.SetAnomalyOnly v)
        = Some (LogTable.mkTable data
                  (LogTable.mkState (LogTable.search (LogTable.st t))
                     (LogTable.sevFilter (LogTable.st t)) v 1
                     (LogTable.sortDir (LogTable.st t))))).
Proof.
  intros Hp Hlen t'.
  pose proof (rows_length matches time t' ltac:(cbn; lia)) as Hr.
  pose proof (filtered_length matches time data (LogTable.st t)) as Hfl.
  pose proof (totalPages_bounds (List.length
    (LogTable.filtered matches time data (LogTable.st t)))) as Hb.
  cbn [t' LogTable.logs LogTable.st] in Hr.
  split; [reflexivity|].
  split; [unfold LogTable.no_match; apply Nat.eqb_eq; lia|].
  split; [|split].
  - intros H20.
    assert (Hpg : LogTable.pagination matches time t' = false).
    { unfold LogTable.pagination, LogTable.pages. cbn [t' LogTable.logs LogTable.st].
      apply Z.ltb_ge. lia. }
    split; [exact Hpg|]. cbn [LogTable.step]. rewrite Hpg. split; reflexivity.
  - intros Hpg. cbn [LogTable.step]. rewrite Hpg. cbn [andb].
    unfold LogTable.pagination in Hpg. apply Z.ltb_lt in Hpg.
    unfold LogTable.pages in *. cbn [t' LogTable.logs LogTable.st] in *.
    destruct (Z.eqb_spec (LogTable.page (LogTable.st t))
                (LogTable.totalPages (List.length
                   (LogTable.filtered matches time data (LogTable.st t))))) as [He|Hne];
      [lia|]. cbn [negb]. rewrite Z.min_l by lia. reflexivity.
  - intros v. reflexivity.
Qed.

Lemma stale_page_witness :
  let time := log_id in
  let matches := fun (_ : string) (_ : Log) => true in
  exists t,
    LogTable.run matches time (LogTable.mount (numbered_logs 21)) [LogTable.Next] = Some t
    /\ LogTable.page (LogTable.st t) = 2
    /\ LogTable.rows matches time (LogTable.mkTable (numbered_logs 3) (LogTable.st t)) = []
    /\ LogTable.step matches time (LogTable.mkTable (numbered_logs 3) (LogTable.st t))
         LogTable.Prev = None.
Proof.
  intros time matches.
  exists (LogTable.mkTable (numbered_logs 21)
            (LogTable.mkState "" "all" false 2 LogTable.Desc)).
  split; [vm_compute; reflexivity|]. split; [reflexivity|].
  destruct (stale_page_after_poll matches time
              (LogTable.mkTable (numbered_logs 21)
                 (LogTable.mkState "" "all" false 2 LogTable.Desc))
              (numbered_logs 3))
    as [_ [Hno [Hbar _]]]; [cbn; lia|vm_compute; discriminate|].
  split.
  - apply length_zero_iff_nil. unfold LogTable.no_match in Hno.
    apply Nat.eqb_eq in Hno. exact Hno.
  - apply Hbar. vm_compute. lia.
Defined.

(** ** The log table: switching the direction *)

Section Sorted.

Context {A : Type} (key : A -> Z).

Lemma sorted_app (R : A -> A -> Prop) (l1 l2 : list A) :
  StronglySorted R l1 -> StronglySorted R l2 ->
  (forall a b, In a l1 -> In b l2 -> R a b) ->
  StronglySorted R (l1 ++ l2).
Proof.
  intros H1 H2 H. induction H1 as [|a l1 Hs IH Ha]; [exact H2|].
  cbn [app]. constructor.
  - apply IH. intros x y Hx Hy. apply H; [right; exact Hx|exact Hy].
  - apply Forall_app. split; [exact Ha|].
    apply Forall_forall. intros y Hy. apply H; [left; reflexivity|exact Hy].
Qed.

Lemma sorted_impl (R R' : A -> A -> Prop) (l : list A) :
  (forall a b, R a b -> R' a b) -> StronglySorted R l -> StronglySorted R' l.
Proof.
  intros H. induction 1 as [|a l Hs IH Ha]; constructor; [exact IH|].
  apply (Forall_impl _ (H a)). exact Ha.
Qed.

Lemma sorted_rev (R : A -> A -> Prop) (l : list A) :
  StronglySorted R l -> StronglySorted (fun a b => R b a) (rev l).
Proof.
  induction 1 as [|a l Hs IH Ha]; [constructor|].
  cbn [rev]. apply sorted_app; [exact IH|repeat constructor|].
  intros x y Hx [<-|[]]. rewrite Forall_forall in Ha. apply Ha.
  apply in_rev. exact Hx.
Qed.

Lemma sorted_strict (l : list A) :
  StronglySorted (fun a b => key a <= key b) l -> NoDup (map key l) ->
  StronglySorted (fun a b => key a < key b) l.
Proof.
  induction 1 as [|a l Hs IH Ha]; intros Hnd; [constructor|].
  cbn [map] in Hnd. inversion Hnd as [|k ks Hk Hnd']; subst.
  constructor; [apply IH; exact Hnd'|].
  rewrite Forall_forall in *. intros b Hb. specialize (Ha b Hb).
  assert (key a <> key b); [|lia].
  intros Heq. apply Hk. rewrite Heq. apply in_map. exact Hb.
Qed.

(** A list has one arrangement in strictly ascending order. *)
Lemma sorted_unique (l1 l2 : list A) :
  StronglySorted (fun a b => key a < key b) l1 ->
  StronglySorted (fun a b => key a < key b) l2 ->
  Permutation l1 l2 -> l1 = l2.
Proof.
  intros H1. revert l2. induction H1 as [|a l1 Hs IH Ha]; intros l2 H2 Hp.
  - apply Permutation_nil in Hp. symmetry. exact Hp.
  - destruct H2 as [|b l2 Hs2 Hb].
    + apply Permutation_sym, Permutation_nil in Hp. discriminate Hp.
    + assert (Hab : a = b).
      { assert (Hin : In a (b :: l2)) by (apply (Permutation_in _ Hp); left; reflexivity).
        assert (Hin' : In b (a :: l1))
          by (apply (Permutation_in _ (Permutation_sym Hp)); left; reflexivity).
        destruct Hin as [Heq|Hin]; [symmetry; exact Heq|].
        destruct Hin' as [Heq|Hin']; [exact Heq|].
        rewrite Forall_forall in Ha, Hb.
        specialize (Ha b Hin'). specialize (Hb a Hin). lia. }
      subst b. f_equal. apply IH; [exact Hs2|].
      apply (Permutation_cons_inv Hp).
Qed.

End Sorted.

Lemma NoDup_map_opp (l : list Z) : NoDup l -> NoDup (map Z.opp l).
Proof.
  induction 1 as [|x l Hx Hnd IH]; cbn [map]; constructor; [|exact IH].
  intros Hin. apply in_map_iff in Hin. destruct Hin as [y [Hy Hin]].
  assert (y = x) by lia. subst y. contradiction.
Qed.

(** With pairwise different times, a click on TIME turns the whole list
    round. *)
Lemma toggle_sort_list
  (matches : string -> Log -> bool) (time : Log -> Z) (t : LogTable.table) :
  distinct_times matches time t ->
  exists t',
    LogTable.step matches time t LogTable.ToggleSort = Some t'
    /\ LogTable.page (LogTable.st t') = LogTable.page (LogTable.st t)
    /\ LogTable.pages matches time t' = LogTable.pages matches time t
    /\ LogTable.filtered matches time (LogTable.logs t') (LogTable.st t')
       = rev (LogTable.filtered matches time (LogTable.logs t) (LogTable.st t)).
Proof.
  intros Hnd. eexists. split; [reflexivity|]. split; [reflexivity|].
  split; [apply pages_page_dir|].
  cbn [LogTable.logs LogTable.st].
  destruct (table_order_facts matches time (LogTable.logs t) (LogTable.st t))
    as [Hp [Hs _]].
  set (s' := LogTable.mkState _ _ _ _ _).
  destruct (table_order_facts matches time (LogTable.logs t) s') as [Hp' [Hs' _]].
  assert (Hk : filter (LogTable.passes matches s') (LogTable.logs t)
               = filter (LogTable.passes matches (LogTable.st t)) (LogTable.logs t))
    by reflexivity.
  rewrite Hk in Hp'. unfold distinct_times in Hnd.
  set (kept := filter (LogTable.passes matches (LogTable.st t)) (LogTable.logs t)) in *.
  assert (Hnd1 : NoDup (map time
            (LogTable.filtered matches time (LogTable.logs t) (LogTable.st t)))).
  { apply (Permutation_NoDup (l := map time kept)); [|exact Hnd].
    apply Permutation_map, Permutation_sym, Hp. }
  assert (Hnd2 : NoDup (map time (LogTable.filtered matches time (LogTable.logs t) s'))).
  { apply (Permutation_NoDup (l := map time kept)); [|exact Hnd].
    apply Permutation_map, Permutation_sym, Hp'. }
  assert (Hperm : Permutation (LogTable.filtered matches time (LogTable.logs t) s')
                    (rev (LogTable.filtered matches time (LogTable.logs t) (LogTable.st t)))).
  { rewrite Hp', <- Permutation_rev. symmetry. exact Hp. }
  subst s'. cbn [LogTable.sortDir] in Hs'.
  destruct (LogTable.sortDir (LogTable.st t)).
  - apply (sorted_unique time); [apply sorted_strict; assumption| |exact Hperm].
    apply sorted_strict.
    + apply (sorted_rev (fun a b => time b <= time a)). exact Hs.
    + rewrite map_rev. apply NoDup_rev. exact Hnd1.
  - apply (sorted_unique (fun l => - time l)); [| |exact Hperm].
    + apply sorted_strict.
      * apply (sorted_impl (fun a b => time b <= time a)); [intros; lia|exact Hs'].
      * rewrite <- (map_map time Z.opp). apply NoDup_map_opp. exact Hnd2.
    + apply sorted_strict.
      * apply (sorted_rev (fun a b => - time b <= - time a)).
        apply (sorted_impl (fun a b => time a <= time b)); [intros; lia|exact Hs].
      * rewrite map_rev. apply NoDup_rev.
        rewrite <- (map_map time Z.opp). apply NoDup_map_opp. exact Hnd1.
Qed.

Lemma page_of_first {A : Type} (rows : list A) :
  (List.length rows <= 20)%nat -> LogTable.page_of 1 rows = rows.
Proof.
  intros H. change 1 with (Z.of_nat 1). rewrite page_of_chunk.
  cbn [Nat.mul skipn]. apply firstn_all2. exact H.
Qed.

(** X15. The TIME button keeps the page number and the filters and turns
    round the order of the whole list: when the listed logs have pairwise
    different times, the list over all pages after the click is the list
    before it in reverse, and the table shows the rows of the page it was
    on, taken from the reversed list.  When the list fits on the one page
    shown, the rows after the click are the rows before it in reverse;
    with more pages they are the other end of the list. *)
Theorem toggle_sort_reverses
  (matches : string -> Log -> bool) (time : Log -> Z) (t : LogTable.table) :
  distinct_times matches time t ->
  exists t',
    LogTable.step matches time t LogTable.ToggleSort = Some t'
    /\ LogTable.page (LogTable.st t') = LogTable.page (LogTable.st t)
    /\ LogTable.pages matches time t' = LogTable.pages matches time t
    /\ LogTable.filtered matches time (LogTable.logs t') (LogTable.st t')
       = rev (LogTable.filtered matches time (LogTable.logs t) (LogTable.st t))
    /\ LogTable.rows matches time t'
       = LogTable.page_of (LogTable.page (LogTable.st t))
           (rev (LogTable.filtered matches time (LogTable.logs t) (LogTable.st t)))
    /\ (LogTable.page (LogTable.st t) = 1 ->
        (List.length (LogTable.filtered matches time (LogTable.logs t) (LogTable.st t))
         <= 20)%nat ->
        LogTable.rows matches time t' = rev (LogTable.rows matches time t)).
Proof.
  intros Hnd.
  destruct (toggle_sort_list matches time t Hnd) as [t' [Hstep [Hpage [Hpages Hrev]]]].
  exists t'. split; [exact Hstep|]. split; [exact Hpage|]. split; [exact Hpages|].
  split; [exact Hrev|].
  assert (Hrows : LogTable.rows matches time t'
                  = LogTable.page_of (LogTable.page (LogTable.st t))
                      (rev (LogTable.filtered matches time (LogTable.logs t)
                              (LogTable.st t)))).
  { unfold LogTable.rows, LogTable.paged. rewrite Hrev, Hpage. reflexivity. }
  split; [exact Hrows|].
  intros H1 Hlen. rewrite Hrows. unfold LogTable.rows, LogTable.paged. rewrite H1.
  rewrite !page_of_first; [reflexivity|exact Hlen|rewrite length_rev; exact Hlen].
Qed.

(** Twenty-one logs, numbered 0 to 20 and timed by their number, on page 1
    of 2: latest first the page shows 20 down to 1; after a click on TIME
    it shows 0 up to 19, not 1 up to 20. *)
Lemma toggle_sort_witness :
  let time := log_id in
  let matches := fun (_ : string) (_ : Log) => true in
  let t := LogTable.mount (numbered_logs 21) in
  distinct_times matches time t
  /\ exists t',
       LogTable.step matches time t LogTable.ToggleSort = Some t'
       /\ map time (LogTable.filtered matches time (LogTable.logs t') (LogTable.st t'))
          = rev (map time (LogTable.filtered matches time (LogTable.logs t) (LogTable.st t)))
       /\ map time (LogTable.rows matches time t)
          = [20; 19; 18; 17; 16; 15; 14; 13; 12; 11; 10; 9; 8; 7; 6; 5; 4; 3; 2; 1]
       /\ map time (LogTable.rows matches time t')
          = [0; 1; 2; 3; 4; 5; 6; 7; 8; 9; 10; 11; 12; 13; 14; 15; 16; 17; 18; 19].
Proof.
  intros time matches t.
  assert (Hd : distinct_times matches time t).
  { unfold distinct_times. vm_compute.
    repeat (constructor;
            [intros H; repeat (destruct H as [H|H]; [discriminate H|]); exact H|]).
    constructor. }
  split; [exact Hd|].
  destruct (toggle_sort_reverses matches time t Hd)
    as [t' [Hstep [_ [_ [Hrev [Hrows _]]]]]].
  exists t'. split; [exact Hstep|].
  split; [rewrite Hrev, map_rev; reflexivity|].
  split; [vm_compute; reflexivity|].
  rewrite Hrows. vm_compute. reflexivity.
Defined.

(** ** Notifications *)

Lemma take_nth_perm {A : Type} (k : nat) (l : list A) (x : A) (rest : list A) :
  take_nth k l = Some (x, rest) -> Permutation l (x :: rest).
Proof.
  revert k x rest. induction l as [|y l IH]; intros k x rest H;
    [destruct k; discriminate H|].
  destruct k as [|k]; cbn [take_nth] in H.
  - injection H as <- <-. reflexivity.
  - destruct (take_nth k l) as [[z rest']|] eqn:Hk; [|discriminate H].
    injection H as <- <-. rewrite (IH k z rest' Hk). apply perm_swap.
Qed.

Lemma take_nth_head {A : Type} (x : A) (l : list A) : take_nth 0 (x :: l) = Some (x, l).
Proof. reflexivity. Qed.

Lemma sorted_filter {A : Type} (R : A -> A -> Prop) (p : A -> bool) (l : list A) :
  StronglySorted R l -> StronglySorted R (filter p l).
Proof.
  induction 1 as [|a l Hs IH Ha]; cbn [filter]; [constructor|].
  destruct (p a); [|exact IH]. constructor; [exact IH|].
  rewrite Forall_forall in *. intros b Hb. apply Ha.
  apply filter_In in Hb. apply Hb.
Qed.

Lemma shown_filter (i : nat) (l : list Toasts.item) :
  map Toasts.id (filter (fun x => negb (Toasts.id x =? i)%nat) l)
  = filter (fun j => negb (j =? i)%nat) (map Toasts.id l).
Proof.
  induction l as [|x l IH]; cbn [filter map]; [reflexivity|].
  destruct (negb (Toasts.id x =? i)%nat); cbn [map]; rewrite IH; reflexivity.
Qed.

Lemma sorted_lt_NoDup (l : list nat) : StronglySorted lt l -> NoDup l.
Proof.
  induction 1 as [|a l Hs IH Ha]; constructor; [|exact IH].
  intros Hin. rewrite Forall_forall in Ha. specialize (Ha a Hin). lia.
Qed.

Lemma NoDup_map_pair {A B : Type} (c : A) (l : list B) :
  NoDup l -> NoDup (map (fun i => (c, i)) l).
Proof.
  induction 1 as [|x l Hx Hnd IH]; cbn [map]; constructor; [|exact IH].
  intros Hin. apply in_map_iff in Hin. destruct Hin as [y [Heq Hin]].
  injection Heq as ->. contradiction.
Qed.

(** The ids on display after a timeout for [i] of container [c] fired. *)
Lemma shown_expire (c i : nat) (s : Toasts.state) :
  shown (Toasts.expire c i s)
  = if match Toasts._addToast s with Some c' => (c' =? c)%nat | None => false end
    then filter (fun j => negb (j =? i)%nat) (shown s)
    else shown s.
Proof.
  unfold shown, Toasts.expire. cbn [Toasts.toasts].
  destruct (Toasts._addToast s) as [c'|]; [|reflexivity].
  destruct (c' =? c)%nat; [apply shown_filter|reflexivity].
Qed.

Lemma shown_expire_incl (c i : nat) (s : Toasts.state) (j : nat) :
  In j (shown (Toasts.expire c i s)) -> In j (shown s).
Proof.
  rewrite shown_expire.
  destruct (match Toasts._addToast s with Some c' => (c' =? c)%nat | None => false end);
    [|exact (fun H => H)].
  intros H. apply filter_In in H. apply H.
Qed.

Lemma step_toasts_ok (s s' : Toasts.state) (e : Toasts.event) :
  toasts_ok s -> Toasts.step s e = Some s' -> toasts_ok s'.
Proof.
  intros Hok Hstep. pose proof Hok as [Hids [Htm [Hsort [Hnd [Hnone Htimed]]]]].
  destruct e as [| |k m|n]; cbn [Toasts.step] in Hstep.
  - destruct (Toasts._addToast s); [discriminate Hstep|]. injection Hstep as <-.
    unfold toasts_ok, timed, shown. cbn.
    repeat split; try constructor; try assumption; try discriminate.
    intros i [].
  - destruct (Toasts._addToast s); [|discriminate Hstep]. injection Hstep as <-.
    unfold toasts_ok, timed, shown. cbn.
    repeat split; try constructor; try assumption.
    intros i [].
  - injection Hstep as <-. unfold Toasts.toast.
    destruct (Toasts._addToast s) as [c|] eqn:Hc; [|exact Hok]. clear Hok.
    unfold toasts_ok, timed, shown, Toasts.add in *.
    cbn [Toasts._addToast Toasts._id Toasts.toasts Toasts.timers].
    rewrite !map_app. cbn [map Toasts.id snd].
    split; [|split; [|split; [|split; [|split]]]].
    + apply Forall_app. split; [|repeat constructor].
      apply (Forall_impl _ (fun i H => le_S _ _ H)). exact Hids.
    + apply Forall_app. split; [|repeat constructor].
      apply (Forall_impl _ (fun ci H => le_S _ _ H)). exact Htm.
    + apply sorted_app; [exact Hsort|repeat constructor|].
      intros a b Ha [<-|[]]. rewrite Forall_forall in Hids. specialize (Hids a Ha). lia.
    + apply (Permutation_NoDup (Permutation_cons_append _ _)).
      constructor; [|exact Hnd].
      intros Hin. apply in_map_iff in Hin. destruct Hin as [ci [Heq Hin]].
      rewrite Forall_forall in Htm. specialize (Htm ci Hin). lia.
    + rewrite Hc. discriminate.
    + intros i Hi. exists c. split; [exact Hc|]. apply in_or_app.
      apply in_app_or in Hi. destruct Hi as [Hi|[<-|[]]]; [left|right; left; reflexivity].
      destruct (Htimed i Hi) as [c' [Hc' Hin]]. congruence.
  - destruct (take_nth n (Toasts.timers s)) as [[[c i] rest]|] eqn:Hn; [|discriminate Hstep].
    injection Hstep as <-. pose proof (take_nth_perm _ _ _ _ Hn) as Hperm.
    set (s1 := Toasts.mkState _ _ _ _ rest).
    assert (Hsh : shown s1 = shown s) by reflexivity.
    unfold toasts_ok. split; [|split; [|split; [|split; [|split]]]].
    + apply Forall_forall. intros j Hj. apply shown_expire_incl in Hj.
      rewrite Forall_forall in Hids. apply Hids. exact Hj.
    + cbn. apply (Permutation_Forall Hperm) in Htm. inversion Htm; assumption.
    + rewrite shown_expire. destruct (match _ with Some _ => _ | None => _ end);
        [apply sorted_filter|]; exact Hsort.
    + cbn. apply (Permutation_map snd) in Hperm.
      apply (Permutation_NoDup Hperm) in Hnd. inversion Hnd; assumption.
    + cbn. intros Hnull. rewrite Hnull. apply Hnone. exact Hnull.
    + intros j Hj. pose proof (shown_expire_incl c i s1 j Hj) as Hj'.
      destruct (Htimed j Hj') as [c' [Hc' Hin]].
      exists c'. split; [exact Hc'|]. cbn [Toasts.expire Toasts.timers s1].
      apply (Permutation_in _ Hperm) in Hin. destruct Hin as [Heq|Hin]; [|exact Hin].
      exfalso. injection Heq as <- <-.
      rewrite shown_expire in Hj. cbn [s1 Toasts._addToast] in Hj.
      rewrite Hc', Nat.eqb_refl in Hj. apply filter_In in Hj.
      destruct Hj as [_ Hj]. rewrite Nat.eqb_refl in Hj. discriminate Hj.
Qed.

Lemma init_toasts_ok : toasts_ok Toasts.init.
Proof.
  unfold toasts_ok, timed, shown. cbn.
  repeat split; try constructor. intros i [].
Qed.

Lemma run_toasts_ok (es : list Toasts.event) (s s' : Toasts.state) :
  toasts_ok s -> Toasts.run s es = Some s' -> toasts_ok s'.
Proof.
  revert s. induction es as [|e es IH]; intros s Hok Hrun; cbn [Toasts.run] in Hrun.
  - injection Hrun as <-. exact Hok.
  - destruct (Toasts.step s e) as [s1|] eqn:Hstep; [|discriminate Hrun].
    apply (IH s1); [apply (step_toasts_ok s s1 e Hok Hstep)|exact Hrun].
Qed.

(** Once every pending timeout has fired, nothing is on display. *)
Lemma fire_all_clears (n : nat) (s : Toasts.state) :
  toasts_ok s -> List.length (Toasts.timers s) = n ->
  exists s', Toasts.run s (fire_all n) = Some s'
             /\ Toasts.toasts s' = [] /\ Toasts.timers s' = [].
Proof.
  revert s. induction n as [|n IH]; intros s Hok Hlen.
  - exists s. split; [reflexivity|].
    apply length_zero_iff_nil in Hlen. split; [|exact Hlen].
    destruct Hok as [_ [_ [_ [_ [_ Htimed]]]]].
    destruct (Toasts.toasts s) as [|x l] eqn:Ht; [reflexivity|]. exfalso.
    destruct (Htimed (Toasts.id x)) as [c [_ Hin]];
      [unfold shown; rewrite Ht; left; reflexivity|].
    rewrite Hlen in Hin. destruct Hin.
  - destruct (Toasts.timers s) as [|[c i] rest] eqn:Ht; [discriminate Hlen|].
    assert (Hstep : exists s1, Toasts.step s (Toasts.Timeout 0) = Some s1
                               /\ Toasts.timers s1 = rest).
    { cbn [Toasts.step]. rewrite Ht, take_nth_head. eexists. split; reflexivity. }
    destruct Hstep as [s1 [Hstep Hrest]].
    destruct (IH s1) as [s' [Hrun Hs']];
      [apply (step_toasts_ok s s1 _ Hok Hstep)|
       rewrite Hrest; cbn [List.length] in Hlen; lia|].
    exists s'. split; [|exact Hs'].
    unfold fire_all. cbn [repeat Toasts.run]. rewrite Hstep. exact Hrun.
Qed.

(** X16. Every toast on display has its own pending timeout.  In every
    state the notifications reach, the toasts shown have pairwise
    different ids (the keys of the rendered list), each of them is due to
    be removed by a timeout of the mounted container that has not fired
    yet, and so there are never more toasts than pending timeouts; with no
    container mounted nothing is shown and a call of [toast] changes
    nothing.  Once the pending timeouts have all fired, no toast is left. *)
Theorem shown_toasts_are_timed (es : list Toasts.event) (s : Toasts.state) :
  Toasts.run Toasts.init es = Some s ->
  NoDup (shown s)
  /\ timed s
  /\ (List.length (Toasts.toasts s) <= List.length (Toasts.timers s))%nat
  /\ (Toasts._addToast s = None ->
      Toasts.toasts s = []
      /\ forall k m, Toasts.step s (Toasts.Call k m) = Some s)
  /\ exists s',
       Toasts.run s (fire_all (List.length (Toasts.timers s))) = Some s'
       /\ Toasts.toasts s' = [] /\ Toasts.timers s' = [].
Proof.
  intros Hrun. pose proof (run_toasts_ok es _ s init_toasts_ok Hrun) as Hok.
  pose proof Hok as [Hids [Htm [Hsort [Hnd [Hnone Htimed]]]]].
  split; [apply sorted_lt_NoDup; exact Hsort|].
  split; [exact Htimed|]. split; [|split].
  - destruct (Toasts._addToast s) as [c|] eqn:Hc;
      [|rewrite (Hnone eq_refl); cbn; lia].
    rewrite <- (length_map Toasts.id), <- (length_map (fun i => (c, i))).
    apply NoDup_incl_length.
    + apply NoDup_map_pair. apply sorted_lt_NoDup. exact Hsort.
    + intros ci Hci. apply in_map_iff in Hci. destruct Hci as [i [<- Hi]].
      destruct (Htimed i Hi) as [c' [Hc' Hin]]. congruence.
  - intros Hnull. split; [apply Hnone; exact Hnull|].
    intros k m. cbn [Toasts.step]. unfold Toasts.toast. rewrite Hnull. reflexivity.
  - apply fire_all_clears; [exact Hok|reflexivity].
Qed.

Lemma shown_toasts_witness :
  let es := [Toasts.Call Toasts.info "early"; Toasts.Mount;
             Toasts.Call Toasts.success "saved"; Toasts.Call Toasts.error "failed";
             Toasts.Timeout 0] in
  exists s,
    Toasts.run Toasts.init es = Some s
    /\ shown s = [2%nat]
    /\ (List.length (Toasts.toasts s) <= List.length (Toasts.timers s))%nat.
Proof.
  intros es.
  exists (Toasts.mkState (Some 1%nat) 2 1 [Toasts.mkItem 2 "failed" Toasts.error]
            [(1%nat, 2%nat)]).
  split; [reflexivity|]. split; [reflexivity|].
  apply (shown_toasts_are_timed es). reflexivity.
Defined.

Lemma step_gone (i : nat) (s s' : Toasts.state) (e : Toasts.event) :
  gone i s -> Toasts.step s e = Some s' -> gone i s'.
Proof.
  intros [Hle [Hsh Htm]] Hstep. unfold gone.
  destruct e as [| |k m|n]; cbn [Toasts.step] in Hstep.
  - destruct (Toasts._addToast s); [discriminate Hstep|]. injection Hstep as <-.
    cbn. repeat split; [exact Hle|intros []|exact Htm].
  - destruct (Toasts._addToast s); [|discriminate Hstep]. injection Hstep as <-.
    cbn. repeat split; [exact Hle|intros []|exact Htm].
  - injection Hstep as <-. unfold Toasts.toast.
    destruct (Toasts._addToast s) as [c|]; [|repeat split; assumption].
    unfold shown, Toasts.add in *.
    cbn [Toasts._id Toasts.toasts Toasts.timers]. rewrite !map_app. cbn [map Toasts.id snd].
    split; [lia|]. split; intros Hin; apply in_app_or in Hin;
      destruct Hin as [Hin|[Heq|[]]]; try contradiction; lia.
  - destruct (take_nth n (Toasts.timers s)) as [[[c j] rest]|] eqn:Hn; [|discriminate Hstep].
    injection Hstep as <-. pose proof (take_nth_perm _ _ _ _ Hn) as Hperm.
    split; [exact Hle|]. split.
    + intros Hin. apply shown_expire_incl in Hin. apply Hsh. exact Hin.
    + cbn. intros Hin. apply Htm.
      apply (Permutation_in _ (Permutation_sym (Permutation_map snd Hperm))).
      right. exact Hin.
Qed.

Lemma run_gone (i : nat) (es : list Toasts.event) (s s' : Toasts.state) :
  gone i s -> Toasts.run s es = Some s' -> gone i s'.
Proof.
  revert s. induction es as [|e es IH]; intros s Hg Hrun; cbn [Toasts.run] in Hrun.
  - injection Hrun as <-. exact Hg.
  - destruct (Toasts.step s e) as [s1|] eqn:Hstep; [|discriminate Hrun].
    apply (IH s1); [apply (step_gone i s s1 e Hg Hstep)|exact Hrun].
Qed.

(** X17. A toast whose timeout has fired does not come back.  When, in a
    state the notifications reach, the pending timeout for id [i] fires,
    then whatever happens afterwards no toast with id [i] is on display and
    no timeout is pending for it: ids are handed out once, also across
    containers. *)
Theorem dismissed_toast_stays_gone
  (es es' : list Toasts.event) (s s2 : Toasts.state)
  (n c i : nat) (rest : list (nat * nat)) :
  Toasts.run Toasts.init es = Some s ->
  take_nth n (Toasts.timers s) = Some ((c, i), rest) ->
  Toasts.run s (Toasts.Timeout n :: es') = Some s2 ->
  ~ In i (shown s2)
  /\ ~ In i (map snd (Toasts.timers s2))
  /\ (i <= Toasts._id s2)%nat.
Proof.
  intros Hrun Hn Hrun2.
  pose proof (run_toasts_ok es _ s init_toasts_ok Hrun) as Hok.
  destruct Hok as [_ [Htm [_ [Hnd [_ Htimed]]]]].
  pose proof (take_nth_perm _ _ _ _ Hn) as Hperm.
  cbn [Toasts.run Toasts.step] in Hrun2. rewrite Hn in Hrun2.
  set (s1 := Toasts.expire c i _) in Hrun2.
  assert (Hrest : ~ In i (map snd rest)).
  { apply (Permutation_NoDup (Permutation_map snd Hperm)) in Hnd.
    cbn [map snd] in Hnd. inversion Hnd; assumption. }
  assert (Hg : gone i s1).
  { split; [|split].
    - rewrite Forall_forall in Htm. apply (Htm (c, i)).
      apply (Permutation_in _ (Permutation_sym Hperm)). left. reflexivity.
    - subst s1. rewrite shown_expire. cbn [Toasts._addToast].
      destruct (Toasts._addToast s) as [c'|] eqn:Hc.
      + destruct (Nat.eqb_spec c' c) as [->|Hne].
        * intros Hin. apply filter_In in Hin. destruct Hin as [_ Hin].
          rewrite Nat.eqb_refl in Hin. discriminate Hin.
        * intros Hin. destruct (Htimed i Hin) as [c2 [Hc2 Hin2]].
          rewrite Hc in Hc2. injection Hc2 as <-.
          apply (Permutation_in _ Hperm) in Hin2. destruct Hin2 as [Heq|Hin2].
          -- injection Heq as Heq. congruence.
          -- apply Hrest. apply in_map_iff. exists (c', i). split; [reflexivity|exact Hin2].
      + intros Hin. destruct (Htimed i Hin) as [c2 [Hc2 _]]. congruence.
    - exact Hrest. }
  destruct (run_gone i es' s1 s2 Hg Hrun2) as [Hle [Hsh Ht]].
  split; [exact Hsh|]. split; [exact Ht|exact Hle].
Qed.

Lemma dismissed_toast_witness :
  let es := [Toasts.Mount; Toasts.Call Toasts.warn "one"; Toasts.Call Toasts.info "two"] in
  let es' := [Toasts.Unmount; Toasts.Mount; Toasts.Call Toasts.info "three"] in
  exists s s2,
    Toasts.run Toasts.init es = Some s
    /\ Toasts.run s (Toasts.Timeout 0 :: es') = Some s2
    /\ shown s = [1%nat; 2%nat]
    /\ shown s2 = [3%nat]
    /\ ~ In 1%nat (shown s2).
Proof.
  intros es es'.
  exists (Toasts.mkState (Some 1%nat) 2 1
            [Toasts.mkItem 1 "one" Toasts.warn; Toasts.mkItem 2 "two" Toasts.info]
            [(1%nat, 1%nat); (1%nat, 2%nat)]).
  exists (Toasts.mkState (Some 2%nat) 3 2 [Toasts.mkItem 3 "three" Toasts.info]
            [(1%nat, 2%nat); (2%nat, 3%nat)]).
  split; [reflexivity|]. split; [reflexivity|]. split; [reflexivity|].
  split; [reflexivity|].
  eapply (dismissed_toast_stays_gone es es' _ _ 0 1 1 [(1%nat, 2%nat)]);
    reflexivity.
Defined.

(** ** Stopping the simulation *)

Lemma ended_snoc (l : list StopSimulation.notice) (n : StopSimulation.notice) :
  List.length (filter is_ended (l ++ [n]))
  = (List.length (filter is_ended l) + if is_ended n then 1 else 0)%nat.
Proof.
  rewrite filter_app, length_app. cbn [filter]. destruct (is_ended n); reflexivity.
Qed.

Lemma step_stop_ok (s s' : StopSimulation.state) (e : StopSimulation.event) :
  stop_ok s -> StopSimulation.step s e = Some s' -> stop_ok s'.
Proof.
  unfold stop_ok, ended. intros [Hsum Hst] Hstep.
  destruct s as [st rq tm ns nv]. cbn in *.
  destruct e as [|[|d]|]; cbn in Hstep.
  - destruct st; [discriminate Hstep|]. injection Hstep as <-. cbn. lia.
  - destruct rq as [|rq]; [discriminate Hstep|]. injection Hstep as <-. cbn.
    rewrite ended_snoc. cbn. destruct st; lia.
  - destruct rq as [|rq]; [discriminate Hstep|]. injection Hstep as <-. cbn.
    rewrite ended_snoc. cbn. destruct st; lia.
  - destruct tm as [|tm]; [discriminate Hstep|]. injection Hstep as <-. cbn.
    destruct st; lia.
Qed.

Lemma run_stop_ok (es : list StopSimulation.event) (s s' : StopSimulation.state) :
  stop_ok s -> StopSimulation.run s es = Some s' -> stop_ok s'.
Proof.
  revert s. induction es as [|e es IH]; intros s Hok Hrun; cbn [StopSimulation.run] in Hrun.
  - injection Hrun as <-. exact Hok.
  - destruct (StopSimulation.step s e) as [s1|] eqn:Hstep; [|discriminate Hrun].
    apply (IH s1); [apply (step_stop_ok s s1 e Hok Hstep)|exact Hrun].
Qed.

(** X18. The simulation is stopped at most once.  However the STOP &
    SCORE button is clicked and however the replies come in, at most one
    stop request awaits its reply, at most one is ever fulfilled, and the
    page navigates to the report at most once, and only after a fulfilled
    request.  The button is enabled exactly when nothing is under way: a
    rejected request enables it again, a fulfilled one leaves it disabled
    for good. *)
Theorem stops_at_most_once (es : list StopSimulation.event) (s : StopSimulation.state) :
  StopSimulation.run StopSimulation.init es = Some s ->
  (StopSimulation.requests s <= 1)%nat
  /\ (ended s <= 1)%nat
  /\ (StopSimulation.navigations s + StopSimulation.timers s = ended s)%nat
  /\ (StopSimulation.stopping s = false
      <-> (StopSimulation.requests s = 0%nat /\ ended s = 0%nat))
  /\ (ended s = 1%nat ->
      forall es' s', StopSimulation.run s es' = Some s' ->
        StopSimulation.stopping s' = true
        /\ StopSimulation.step s' StopSimulation.Click = None).
Proof.
  intros Hrun.
  assert (Hinit : stop_ok StopSimulation.init) by (unfold stop_ok; cbn; lia).
  pose proof (run_stop_ok es _ s Hinit Hrun) as Hok.
  pose proof Hok as [Hsum Hst].
  split; [destruct (StopSimulation.stopping s); lia|].
  split; [destruct (StopSimulation.stopping s); lia|].
  split; [lia|]. split.
  - destruct (StopSimulation.stopping s); [|tauto].
    split; [discriminate|]. lia.
  - intros Hone es' s' Hrun'.
    pose proof (run_stop_ok es' s s' Hok Hrun') as [Hsum' Hst'].
    assert (Hmono : (ended s <= ended s')%nat).
    { clear - Hrun'. revert s Hrun'.
      induction es' as [|e es' IH]; intros s Hrun'; cbn [StopSimulation.run] in Hrun'.
      - injection Hrun' as <-. lia.
      - destruct (StopSimulation.step s e) as [s1|] eqn:Hstep; [|discriminate Hrun'].
        specialize (IH s1 Hrun'). enough (ended s <= ended s1)%nat by lia.
        clear - Hstep. unfold ended. destruct s as [st rq tm ns nv].
        destruct e as [|[|d]|]; cbn in Hstep.
        + destruct st; [discriminate Hstep|]. injection Hstep as <-. cbn. lia.
        + destruct rq; [discriminate Hstep|]. injection Hstep as <-. cbn.
          rewrite ended_snoc. lia.
        + destruct rq; [discriminate Hstep|]. injection Hstep as <-. cbn.
          rewrite ended_snoc. lia.
        + destruct tm; [discriminate Hstep|]. injection Hstep as <-. cbn. lia. }
    cbn [StopSimulation.step].
    destruct (StopSimulation.stopping s'); [split; reflexivity|lia].
Qed.

Lemma stops_at_most_once_witness :
  let es := [StopSimulation.Click;
             StopSimulation.Settled (StopSimulation.Rejected None);
             StopSimulation.Click;
             StopSimulation.Settled StopSimulation.Fulfilled;
             StopSimulation.TimerFires] in
  exists s,
    StopSimulation.run StopSimulation.init es = Some s
    /\ StopSimulation.notices s
       = [StopSimulation.Failed "Failed to stop"; StopSimulation.Ended]
    /\ (StopSimulation.navigations s + StopSimulation.timers s = ended s)%nat
    /\ StopSimulation.navigations s = 1%nat.
Proof.
  intros es.
  exists (StopSimulation.mkState true 0 0
            [StopSimulation.Failed "Failed to stop"; StopSimulation.Ended] 1).
  split; [reflexivity|]. split; [reflexivity|].
  split; [|reflexivity].
  apply (stops_at_most_once es). reflexivity.
Defined.

(** ** The status bar *)

Lemma length_append (a b : string) :
  String.length (a ++ b)%string = (String.length a + String.length b)%nat.
Proof. induction a as [|c a IH]; cbn; [reflexivity|]. rewrite IH. reflexivity. Qed.

Lemma length_zeros (k : nat) : String.length (StatusBar.zeros k) = k.
Proof. induction k as [|k IH]; cbn; [reflexivity|]. rewrite IH. reflexivity. Qed.

Lemma length_padStart2 (s : string) :
  String.length (StatusBar.padStart2 s) = Nat.max 2 (String.length s).
Proof.
  unfold StatusBar.padStart2. rewrite length_append, length_zeros. lia.
Qed.

Lemma no_colon_digits (d : Decimal.uint) : no_colon (NilEmpty.string_of_uint d) = true.
Proof. induction d; cbn; [reflexivity|exact IHd ..]. Qed.

Lemma no_colon_padStart2 (n : nat) :
  no_colon (StatusBar.padStart2 (StatusBar.String_of n)) = true.
Proof.
  unfold StatusBar.padStart2, StatusBar.String_of.
  generalize (2 - String.length (NilEmpty.string_of_uint (Nat.to_uint n)))%nat.
  intros k. induction k as [|k IH]; cbn; [apply no_colon_digits|exact IH].
Qed.

Lemma split_colon_append (m t : string) :
  no_colon m = true -> split_colon (m ++ String ":"%char t)%string = Some (m, t).
Proof.
  induction m as [|c m IH]; cbn [no_colon append split_colon]; intros H.
  - reflexivity.
  - apply andb_prop in H. destruct H as [Hc Hm].
    destruct (c =? ":")%char; [discriminate Hc|]. rewrite (IH Hm). reflexivity.
Qed.

Lemma read_number_String_of (n : nat) : read_number (StatusBar.String_of n) = Some n.
Proof.
  unfold read_number, StatusBar.String_of. rewrite NilEmpty.usu. cbn [option_map].
  rewrite Unsigned.of_to. reflexivity.
Qed.

Lemma read_number_zero (s : string) :
  read_number (String "0"%char s) = read_number s.
Proof.
  unfold read_number. cbn [NilEmpty.uint_of_string].
  destruct (NilEmpty.uint_of_string s) as [d|]; reflexivity.
Qed.

Lemma read_number_padStart2 (n : nat) :
  read_number (StatusBar.padStart2 (StatusBar.String_of n)) = Some n.
Proof.
  unfold StatusBar.padStart2.
  generalize (2 - String.length (StatusBar.String_of n))%nat. intros k.
  induction k as [|k IH]; cbn [StatusBar.zeros append].
  - apply read_number_String_of.
  - rewrite read_number_zero. exact IH.
Qed.

Lemma two_digits_100 : two_digits_upto_100 = true.
Proof. vm_compute. reflexivity. Qed.

Lemma two_digits (n : nat) :
  (n < 100)%nat -> String.length (StatusBar.padStart2 (StatusBar.String_of n)) = 2%nat.
Proof.
  intros Hn. rewrite length_padStart2.
  pose proof two_digits_100 as H. unfold two_digits_upto_100 in H.
  rewrite forallb_forall in H. specialize (H n). rewrite in_seq in H.
  specialize (H ltac:(lia)). apply Nat.leb_le in H. lia.
Qed.

Lemma read_clock_fmt (s : nat) : read_clock (StatusBar.fmt s) = Some s.
Proof.
  unfold read_clock, StatusBar.fmt. cbn [append].
  rewrite split_colon_append by apply no_colon_padStart2.
  rewrite !read_number_padStart2. f_equal.
  pose proof (Nat.div_mod_eq s 60). lia.
Qed.

(** X19. The clock of the status bar can be read back.  [fmt] writes a
    count of seconds as minutes, a colon, and seconds; reading the two
    numerals back gives the count again, so that different counts give
    different texts.  The seconds always take two digits, the minutes at
    least two, and up to 99 minutes and 59 seconds the text has exactly
    five characters. *)
Theorem fmt_reads_back (s : nat) :
  read_clock (StatusBar.fmt s) = Some s
  /\ (forall s', StatusBar.fmt s' = StatusBar.fmt s -> s' = s)
  /\ split_colon (StatusBar.fmt s)
     = Some (StatusBar.padStart2 (StatusBar.String_of (s / 60)),
             StatusBar.padStart2 (StatusBar.String_of (s mod 60)))
  /\ String.length (StatusBar.padStart2 (StatusBar.String_of (s mod 60))) = 2%nat
  /\ (5 <= String.length (StatusBar.fmt s))%nat
  /\ (Z.of_nat s < 6000 -> String.length (StatusBar.fmt s) = 5%nat).
Proof.
  assert (Hss : String.length (StatusBar.padStart2 (StatusBar.String_of (s mod 60))) = 2%nat).
  { apply two_digits. pose proof (Nat.mod_upper_bound s 60). lia. }
  assert (Hlen : String.length (StatusBar.fmt s)
                 = (String.length (StatusBar.padStart2 (StatusBar.String_of (s / 60))) + 3)%nat).
  { unfold StatusBar.fmt. rewrite !length_append, Hss. cbn [String.length]. lia. }
  split; [apply read_clock_fmt|]. split; [|split; [|split; [|split]]].
  - intros s' Heq. pose proof (read_clock_fmt s') as H'.
    rewrite Heq, read_clock_fmt in H'. injection H' as H'. symmetry. exact H'.
  - unfold StatusBar.fmt. cbn [append].
    apply split_colon_append, no_colon_padStart2.
  - exact Hss.
  - rewrite Hlen, length_padStart2. lia.
  - intros Hs. rewrite Hlen, two_digits; [reflexivity|].
    apply Nat.Div0.div_lt_upper_bound. lia.
Qed.

(** ** The colour of the accuracy *)

(** X20. The ACCURACY read-out turns green from 69.5 per cent on.  Its
    class compares the rounded text with 70: with no decision made the
    text is the dash, no number, and the read-out is red; with up to 200
    decisions it is green exactly when at least 139 in 200 of them were
    correct, so 16 correct decisions out of 23 show a green 70. *)
Theorem accuracy_green_from_69_5 (made correct : nat) :
  (made <= 200)%nat -> (correct <= made)%nat ->
  (StatusBar.accuracy_color made correct = "text-green-400"
   <-> (0 < made)%nat /\ 139 * Z.of_nat made <= 200 * Z.of_nat correct)
  /\ (StatusBar.accuracy_color made correct = "text-red-400"
      <-> made = 0%nat \/ 200 * Z.of_nat correct < 139 * Z.of_nat made).
Proof.
  intros Hm Hc. unfold StatusBar.accuracy_color.
  destruct (Nat.eq_dec made 0) as [->|Hpos].
  - cbn. split; split; try discriminate; try lia. intros _. reflexivity.
  - pose proof (within_half_upto_sound 200 made correct within_half_200
                  ltac:(lia) Hc) as Hw.
    unfold within_half in Hw.
    destruct (Z.eq_dec (139 * Z.of_nat made) (200 * Z.of_nat correct)) as [Htie|Hne].
    + assert (made = 200%nat /\ correct = 139%nat) as [-> ->] by lia.
      assert (Ha : accuracy 200 139 = Fixed (Js.Whole false 70))
        by (vm_compute; reflexivity).
      rewrite Ha. cbn. split; split; try discriminate; try lia. intros _. reflexivity.
    + destruct (accuracy made correct) as [|[[|] n| |?|?]]; try discriminate Hw.
      apply Z.leb_le in Hw. cbn [StatusBar.at_least_70].
      destruct (Z.leb_spec 70 n) as [Hn|Hn].
      * assert (Z.of_nat made * 70 <= Z.of_nat made * n)
          by (apply Z.mul_le_mono_nonneg_l; lia).
        split; split; try discriminate; try lia. intros _. reflexivity.
      * assert (Z.of_nat made * n <= Z.of_nat made * 69)
          by (apply Z.mul_le_mono_nonneg_l; lia).
        split; split; try discriminate; try lia. intros _. reflexivity.
Qed.

Lemma accuracy_green_witness :
  (23 <= 200)%nat /\ (16 <= 23)%nat
  /\ StatusBar.accuracy_color 23 16 = "text-green-400"
  /\ 200 * 16 < 70 * 2 * 23.
Proof.
  split; [lia|]. split; [lia|]. split; [|lia].
  apply (accuracy_green_from_69_5 23 16); lia.
Defined.

(** ** Logs without a severity *)

(** X21. A log without a severity is shown as low and analysed as medium.
    The feed and the table write [severity || 'low'] on their badge, the
    decision form writes the same text in capitals, the analysis request
    sends [severity || 'medium'].  For a log that has a severity the feed,
    the table and the request agree with it, and the form shows CRITICAL,
    HIGH, MEDIUM or LOW for critical, high, medium or low; for a log whose
    severity is missing or empty the feed and the table say low, the form
    says LOW, the request says medium, the statistics count it as neither
    critical nor high, and the LOW filter of the table, which compares the
    field itself, leaves the log out although its badge says low. *)
Theorem missing_severity_defaults (matches : string -> Log -> bool) (log : Log) :
  AlertPanel.sev log = LogTable.badge log
  /\ (basic_latin (LogTable.badge log) = true ->
      form_badge log = toUpperCase (LogTable.badge log))
  /\ (forall v V, In (v, V) severity_names -> severity log = Some v ->
      AlertPanel.sev log = v /\ form_badge log = V
      /\ at_severity (analyze_request log) = v)
  /\ (Js.truthy_string (severity log) = true ->
      severity log = Some (AlertPanel.sev log)
      /\ at_severity (analyze_request log) = AlertPanel.sev log)
  /\ (Js.truthy_string (severity log) = false ->
      AlertPanel.sev log = "low"
      /\ form_badge log = "LOW"
      /\ at_severity (analyze_request log) = "medium"
      /\ critical (stats [log]) = 0 /\ high (stats [log]) = 0
      /\ forall s, LogTable.sevFilter s = "low" ->
                   LogTable.passes matches s log = false)
  /\ (AlertPanel.sev log = at_severity (analyze_request log)
      <-> Js.truthy_string (severity log) = true).
Proof.
  split; [reflexivity|]. split; [intros _; reflexivity|].
  split.
  { intros v V Hin Hs.
    unfold AlertPanel.sev, form_badge, analyze_request. cbn [at_severity].
    rewrite Hs. cbn in Hin.
    destruct Hin as [H|[H|[H|[H|[]]]]]; injection H as <- <-; repeat split. }
  assert (Hlow : forall s, Js.truthy_string (severity log) = false ->
                   LogTable.sevFilter s = "low" ->
                   LogTable.passes matches s log = false).
  { intros s Hf Hs. unfold LogTable.passes. rewrite Hs. cbn [String.eqb negb].
    replace (Js.strict_eq (severity log) "low") with false;
      [rewrite andb_false_r; reflexivity|].
    unfold Js.truthy_string, Js.strict_eq in *.
    destruct (severity log) as [v|]; [|reflexivity].
    destruct (v =? "")%string eqn:E; [|discriminate Hf].
    apply String.eqb_eq in E. rewrite E. reflexivity. }
  revert Hlow.
  unfold AlertPanel.sev, form_badge, analyze_request, stats, count_if,
    Js.or_default, Js.truthy_string, Js.strict_eq.
  cbn [at_severity critical high filter].
  destruct (severity log) as [v|]; [destruct (v =? "")%string eqn:E|];
    cbn [negb]; intros Hlow.
  - apply String.eqb_eq in E. subst v.
    split; [discriminate|]. split.
    + intros _. split; [reflexivity|]. split; [reflexivity|].
      split; [reflexivity|]. split; [reflexivity|]. split; [reflexivity|].
      intros s. apply Hlow. reflexivity.
    + split; discriminate.
  - split; [intros _; split; reflexivity|]. split; [discriminate|].
    split; reflexivity.
  - split; [discriminate|]. split.
    + intros _. split; [reflexivity|]. split; [reflexivity|].
      split; [reflexivity|]. split; [reflexivity|]. split; [reflexivity|].
      intros s. apply Hlow. reflexivity.
    + split; discriminate.
Qed.

(** ** The ledger of a run *)

Lemma take_nth_length {A : Type} (k : nat) (l : list A) (x : A) (rest : list A) :
  take_nth k l = Some (x, rest) -> List.length l = S (List.length rest).
Proof.
  intros H. apply take_nth_perm, Permutation_length in H. exact H.
Qed.

Lemma step_ledger (s s' : state) (ev : event) :
  step s ev = Some s' ->
  logs s' = last_fetched [ev] (logs s)
  /\ List.length (toasts s')
     = (List.length (toasts s) + (if notifies ev then 1 else 0))%nat
  /\ (List.length (analyzing s') + (if is_analyze_reply ev then 1 else 0)
      = List.length (analyzing s) + (if is_select ev then 1 else 0))%nat
  /\ (rendered s ->
      (List.length (submitting s') + (if is_submit_reply ev then 1 else 0)
       = List.length (submitting s) + (if is_submit_click ev then 1 else 0))%nat).
Proof.
  intros Hs. destruct ev;
    cbn [step] in Hs;
    cbn [last_fetched fold_left notifies is_analyze_reply is_select
         is_submit_reply is_submit_click].
  - injection Hs as <-. break_state s. unfold analyzeLog, render.
    destruct sm, mo; cbn; rewrite ?length_app; cbn [List.length];
      repeat split; intros; lia.
  - destruct (take_nth k (analyzing s)) as [[? rest]|] eqn:Hk; [|discriminate Hs].
    apply take_nth_length in Hk.
    injection Hs as <-. break_state s. unfold analyzeLog_settled, render.
    destruct r, sm, sel, mo; cbn in *; rewrite ?length_app; cbn [List.length];
      repeat split; intros; lia.
  - destruct (selectedLog s) eqn:?, (analysis s); try discriminate Hs.
    destruct (negb (analysing s) && negb (showModal s)); [|discriminate Hs].
    injection Hs as <-. break_state s. unfold render. cbn in *. subst.
    destruct mo; cbn; repeat split; intros; lia.
  - destruct (modal s); [|discriminate Hs].
    injection Hs as <-. break_state s. unfold render. cbn. repeat split; intros; lia.
  - destruct (modal s); [|discriminate Hs].
    destruct (in_list v DecisionModal.THREAT_LABELS); [|discriminate Hs].
    injection Hs as <-. break_state s. cbn. repeat split; intros; lia.
  - destruct (modal s); [|discriminate Hs].
    destruct (in_list v DecisionModal.ACTIONS); [|discriminate Hs].
    injection Hs as <-. break_state s. cbn. repeat split; intros; lia.
  - destruct (modal s); [|discriminate Hs].
    injection Hs as <-. break_state s. cbn. repeat split; intros; lia.
  - destruct (modal s) as [m|] eqn:Hm; [|discriminate Hs].
    injection Hs as <-.
    split; [|split; [|split]].
    + break_state s. unfold submitDecision. cbn. destruct sel; reflexivity.
    + break_state s. unfold submitDecision. cbn. destruct sel; cbn; lia.
    + break_state s. unfold submitDecision. cbn. destruct sel; cbn; lia.
    + intros Hr. destruct (rendered_modal s m Hr Hm) as [_ [e He]].
      unfold submitDecision. rewrite He. break_state s. cbn.
      rewrite length_app. cbn. lia.
  - destruct (take_nth k (submitting s)) as [[? rest]|] eqn:Hk; [|discriminate Hs].
    apply take_nth_length in Hk.
    injection Hs as <-. break_state s. unfold submitDecision_settled, render.
    destruct r as [[|]|], sm, sel, mo; cbn in *; rewrite ?length_app;
      cbn [List.length]; repeat split; intros; lia.
  - injection Hs as <-. break_state s. unfold fetchLogs. cbn.
    destruct pa; cbn; repeat split; intros; lia.
  - destruct (fetching s) eqn:?; [discriminate Hs|].
    injection Hs as <-. break_state s. destruct r; cbn; repeat split; intros; lia.
  - injection Hs as <-. break_state s. unfold togglePause, fetchLogs. cbn.
    destruct pa; cbn; repeat split; intros; lia.
  - injection Hs as <-. break_state s. cbn. repeat split; intros; lia.
Qed.

Lemma run_ledger (es : list event) (s0 s : state) :
  rendered s0 -> run s0 es = Some s ->
  rendered s
  /\ (List.length (analyzing s) + number_of is_analyze_reply es
      = List.length (analyzing s0) + number_of is_select es)%nat
  /\ (List.length (submitting s) + number_of is_submit_reply es
      = List.length (submitting s0) + number_of is_submit_click es)%nat
  /\ List.length (toasts s) = (List.length (toasts s0) + number_of notifies es)%nat.
Proof.
  revert s0. induction es as [|ev es IH]; intros s0 Hr Hrun; cbn [run] in Hrun.
  - injection Hrun as <-. unfold number_of. cbn. split; [exact Hr|lia].
  - destruct (step s0 ev) as [s1|] eqn:Hs; [|discriminate Hrun].
    destruct (step_ledger s0 s1 ev Hs) as [_ [Ht [Ha Hsub]]].
    specialize (Hsub Hr).
    destruct (IH s1 (step_rendered s0 s1 ev Hr Hs) Hrun) as [Hr' [Ha' [Hs' Ht']]].
    split; [exact Hr'|].
    unfold number_of in *. cbn [filter].
    destruct (is_analyze_reply ev), (is_select ev), (is_submit_reply ev),
      (is_submit_click ev), (notifies ev); cbn [List.length]; lia.
Qed.

Lemma stop_step_ledger (q q' : StopSimulation.state) (ev : StopSimulation.event) :
  StopSimulation.step q ev = Some q' ->
  List.length (StopSimulation.notices q')
  = (List.length (StopSimulation.notices q)
     + (if is_stop_reply (Cockpit.Stop ev) then 1 else 0))%nat
  /\ (StopSimulation.requests q' + (if is_stop_reply (Cockpit.Stop ev) then 1 else 0)
      = StopSimulation.requests q
        + (if is_stop_click (Cockpit.Stop ev) then 1 else 0))%nat.
Proof.
  intros Hs. destruct q as [st rq tm ns nv].
  destruct ev as [|[|d]|]; cbn in Hs; cbn [is_stop_reply is_stop_click].
  - destruct st; [discriminate Hs|]. injection Hs as <-. cbn. lia.
  - destruct rq; [discriminate Hs|]. injection Hs as <-. cbn.
    rewrite length_app. cbn. lia.
  - destruct rq; [discriminate Hs|]. injection Hs as <-. cbn.
    rewrite length_app. cbn. lia.
  - destruct tm; [discriminate Hs|]. injection Hs as <-. cbn. lia.
Qed.

Lemma cockpit_ledger (es : list Cockpit.event) (s0 s : Cockpit.state) :
  rendered (fst s0) -> Cockpit.run s0 es = Some s ->
  (List.length (analyzing (fst s)) + number_of (on_page is_analyze_reply) es
   = List.length (analyzing (fst s0)) + number_of (on_page is_select) es)%nat
  /\ (List.length (submitting (fst s)) + number_of (on_page is_submit_reply) es
      = List.length (submitting (fst s0)) + number_of (on_page is_submit_click) es)%nat
  /\ (StopSimulation.requests (snd s) + number_of is_stop_reply es
      = StopSimulation.requests (snd s0) + number_of is_stop_click es)%nat
  /\ Cockpit.toast_calls s = (Cockpit.toast_calls s0 + number_of asks_toast es)%nat.
Proof.
  revert s0. induction es as [|e es IH]; intros [p0 q0] Hr Hrun;
    cbn [Cockpit.run] in Hrun.
  - injection Hrun as <-. unfold number_of. cbn. lia.
  - destruct e as [ev|ev]; cbn [Cockpit.step fst snd] in Hrun.
    + destruct (step p0 ev) as [p1|] eqn:Hs; [|discriminate Hrun].
      destruct (step_ledger p0 p1 ev Hs) as [_ [Ht [Ha Hsub]]].
      specialize (Hsub Hr).
      destruct (IH (p1, q0) (step_rendered p0 p1 ev Hr Hs) Hrun)
        as [Ha' [Hs' [Hq' Ht']]].
      unfold number_of, Cockpit.toast_calls, asks_toast in *.
      cbn [filter on_page is_stop_reply is_stop_click fst snd orb] in *.
      rewrite orb_false_r.
      destruct (is_analyze_reply ev), (is_select ev), (is_submit_reply ev),
        (is_submit_click ev), (notifies ev); cbn [List.length]; lia.
    + destruct (StopSimulation.step q0 ev) as [q1|] eqn:Hs; [|discriminate Hrun].
      destruct (stop_step_ledger q0 q1 ev Hs) as [Hn Hq].
      destruct (IH (p0, q1) Hr Hrun) as [Ha' [Hs' [Hq' Ht']]].
      unfold number_of, Cockpit.toast_calls, asks_toast in *.
      cbn [filter on_page fst snd orb] in *.
      destruct (is_stop_reply (Cockpit.Stop ev)), (is_stop_click (Cockpit.Stop ev));
        cbn [List.length]; lia.
Qed.

(** X22. No call of the page is lost or answered twice.  In every state
    the page with its stop button reaches from the first render, the
    analyze calls awaiting their reply and the replies received add up to
    the logs selected so far, every selection having sent one request; the
    submit calls awaiting their reply and the replies received add up to
    the clicks on SUBMIT; the stop requests awaiting their reply and the
    replies received add up to the clicks on STOP & SCORE; and the toasts
    asked for are as many as the failed analyses, the replies to submit
    calls and the replies to stop requests together: no other event
    notifies, a failed fetch least of all. *)
Theorem calls_are_accounted_for (es : list Cockpit.event) (s : Cockpit.state) :
  Cockpit.run Cockpit.init es = Some s ->
  (List.length (analyzing (fst s)) + number_of (on_page is_analyze_reply) es
   = number_of (on_page is_select) es)%nat
  /\ (List.length (submitting (fst s)) + number_of (on_page is_submit_reply) es
      = number_of (on_page is_submit_click) es)%nat
  /\ (StopSimulation.requests (snd s) + number_of is_stop_reply es
      = number_of is_stop_click es)%nat
  /\ Cockpit.toast_calls s = number_of asks_toast es
  /\ Cockpit.toast_calls s
     = (number_of (on_page notifies) es + number_of is_stop_reply es)%nat.
Proof.
  intros Hrun.
  destruct (cockpit_ledger es Cockpit.init s init_rendered Hrun) as [Ha [Hs [Hq Ht]]].
  cbn in Ha, Hs, Hq, Ht.
  split; [lia|]. split; [lia|]. split; [lia|]. split; [lia|].
  rewrite Ht. clear. unfold number_of, asks_toast.
  induction es as [|e es IH]; [reflexivity|].
  cbn [filter]. destruct e as [ev|ev]; cbn [on_page is_stop_reply orb].
  - rewrite orb_false_r. destruct (notifies ev); cbn [List.length]; lia.
  - destruct ev as [|r|]; cbn [List.length]; lia.
Qed.

(** Two logs are selected and one analysis fails; SUBMIT is clicked twice
    and one call is rejected; a fetch fails; STOP & SCORE is clicked and
    rejected, then clicked again.  Three toasts have been asked for. *)
Lemma calls_accounted_witness :
  let e := sample_log 7 "high" true (Some "phishing") in
  let es := [Cockpit.Page (Select e); Cockpit.Page (Select e);
             Cockpit.Page (AnalyzeSettled 1 None);
             Cockpit.Page (AnalyzeSettled 0 (Some sample_analysis));
             Cockpit.Page SubmitClick; Cockpit.Page SubmitClick;
             Cockpit.Page (SubmitSettled 0 None); Cockpit.Page (FetchSettled None);
             Cockpit.Stop StopSimulation.Click;
             Cockpit.Stop (StopSimulation.Settled (StopSimulation.Rejected None));
             Cockpit.Stop StopSimulation.Click] in
  exists s,
    Cockpit.run Cockpit.init es = Some s
    /\ List.length (submitting (fst s)) = 1%nat
    /\ StopSimulation.requests (snd s) = 1%nat
    /\ StopSimulation.notices (snd s) = [StopSimulation.Failed "Failed to stop"]
    /\ Cockpit.toast_calls s = 3%nat.
Proof.
  intros e es.
  destruct (Cockpit.run Cockpit.init es) as [s|] eqn:Hrun;
    [|vm_compute in Hrun; discriminate Hrun].
  exists s. split; [reflexivity|].
  destruct (calls_are_accounted_for es s Hrun) as [_ [Hs [Hq [Ht _]]]].
  change (number_of (on_page is_submit_reply) es) with 1%nat in Hs.
  change (number_of (on_page is_submit_click) es) with 2%nat in Hs.
  change (number_of is_stop_reply es) with 1%nat in Hq.
  change (number_of is_stop_click es) with 2%nat in Hq.
  change (number_of asks_toast es) with 3%nat in Ht.
  split; [lia|]. split; [lia|]. split; [|exact Ht].
  vm_compute in Hrun. injection Hrun as <-. reflexivity.
Defined.

(** X23. The log list is the data of the latest fulfilled fetch.  Only a
    fulfilled reply to GET /get-logs changes [logs], and it replaces them:
    after any run the list is what the last such reply to arrive brought,
    whichever request it answers, and the list the run started with if
    there was none.  So selecting, analysing, deciding, pausing and failed
    fetches leave the statistics, the risk score and the chart as they
    were. *)
Theorem logs_are_last_fetched (s s' : state) (es : list event) :
  run s es = Some s' ->
  logs s' = last_fetched es (logs s)
  /\ (last_fetched es (logs s) = logs s ->
      stats (logs s') = stats (logs s)
      /\ riskScore (logs s') = riskScore (logs s)
      /\ threatDist (logs s') = threatDist (logs s))
  /\ (forall data es0 es1,
        es = es0 ++ FetchSettled (Some data) :: es1 ->
        number_of (fun ev => match ev with FetchSettled (Some _) => true | _ => false end)
          es1 = 0%nat ->
        logs s' = data).
Proof.
  intros Hrun.
  assert (Hlogs : logs s' = last_fetched es (logs s)).
  { revert s Hrun. induction es as [|ev es IH]; intros s Hrun; cbn [run] in Hrun.
    - injection Hrun as <-. reflexivity.
    - destruct (step s ev) as [s1|] eqn:Hs; [|discriminate Hrun].
      destruct (step_ledger s s1 ev Hs) as [Hl _].
      rewrite (IH s1 Hrun), Hl. reflexivity. }
  split; [exact Hlogs|]. split.
  - intros Hsame. rewrite Hlogs, Hsame. repeat split.
  - intros data es0 es1 -> Hnone. rewrite Hlogs.
    unfold last_fetched. rewrite fold_left_app. cbn [fold_left].
    generalize (fold_left
      (fun acc ev => match ev with FetchSettled (Some data0) => data0 | _ => acc end)
      es0 (logs s)). intros _.
    clear - Hnone. unfold number_of in Hnone.
    induction es1 as [|ev es1 IH]; [reflexivity|].
    cbn [filter] in Hnone. cbn [fold_left].
    destruct ev; try (apply IH; exact Hnone).
    destruct r; [discriminate Hnone|apply IH; exact Hnone].
Qed.

Lemma logs_last_fetched_witness :
  let a := [sample_log 1 "critical" true (Some "ddos")] in
  let b := [sample_log 2 "low" false None] in
  let es := [PollTick; PollTick; FetchSettled (Some a); FetchSettled (Some b);
             FetchSettled None] in
  exists s, run init es = Some s /\ logs s = b /\ riskScore (logs s) = 0.
Proof.
  intros a b es.
  destruct (run init es) as [s|] eqn:Hrun; [|vm_compute in Hrun; discriminate Hrun].
  exists s. split; [reflexivity|].
  destruct (logs_are_last_fetched init s es Hrun) as [Hl _].
  rewrite Hl. split; reflexivity.
Defined.
